(** * formatMessage: markdown-to-HTML rewriting of chat messages

    A shallow embedding of [src/formatMessage.js].  The function is a
    pipeline of [String.prototype.replace] calls driven by regular
    expressions, so the embedding has three layers:

    - JavaScript strings as lists of UTF-16 code units;
    - a backtracking matcher for the regular-expression constructs the
      source uses, following the continuation semantics of ECMA-262
      (greedy and lazy quantifiers, capture groups, [^] and [$] with the
      [m] flag, negative lookahead and lookbehind);
    - the string methods the source calls ([replace], [match], [split],
      [trim], [startsWith]) and the function itself, pass by pass. *)

From Stdlib Require Import Ascii String NArith Arith Bool Lia List.
Import ListNotations.

(** ** Strings *)

(** A code unit of a JavaScript string.  The bound of 16 bits is left
    out: what holds of all lists of numbers holds of all strings. *)
Definition jschar := N.
Definition jsstring := list jschar.

(** The code units of an ASCII literal. *)
Definition js (s : string) : jsstring :=
  map N_of_ascii (list_ascii_of_string s).

Definition ch_nl : jschar := 10%N.        (* \n *)
Definition ch_cr : jschar := 13%N.        (* \r *)
Definition ch_dquote : jschar := 34%N.
Definition ch_star : jschar := 42%N.      (* * *)
Definition ch_dash : jschar := 45%N.      (* - *)
Definition ch_dot : jschar := 46%N.       (* . *)
Definition ch_colon : jschar := 58%N.     (* : *)
Definition ch_lt : jschar := 60%N.        (* < *)
Definition ch_gt : jschar := 62%N.        (* > *)
Definition ch_tick : jschar := 96%N.      (* ` *)
Definition ch_pipe : jschar := 124%N.     (* | *)

Local Open Scope N_scope.

(** LineTerminator of ECMA-262: LF, CR, LS, PS. *)
Definition is_line_terminator (c : jschar) : bool :=
  (c =? 10) || (c =? 13) || (c =? 0x2028) || (c =? 0x2029).

(** WhiteSpace of ECMA-262: TAB, VT, FF, ZWNBSP and the space separators. *)
Definition is_white_space (c : jschar) : bool :=
  (c =? 9) || (c =? 11) || (c =? 12) || (c =? 32) || (c =? 0xA0)
  || (c =? 0x1680) || ((0x2000 <=? c) && (c <=? 0x200A))
  || (c =? 0x202F) || (c =? 0x205F) || (c =? 0x3000) || (c =? 0xFEFF).

(** The class [\s], also the set [trim] strips. *)
Definition is_space (c : jschar) : bool :=
  is_white_space c || is_line_terminator c.

(** The class [\d]. *)
Definition is_digit (c : jschar) : bool := (48 <=? c) && (c <=? 57).

(** The class [.] (no [s] flag). *)
Definition is_dot (c : jschar) : bool := negb (is_line_terminator c).

Definition is_char (a c : jschar) : bool := c =? a.
Definition not_char (a c : jschar) : bool := negb (c =? a).
Definition any_char (_ : jschar) : bool := true.

Local Close Scope N_scope.

(** ** Regular expressions *)

Inductive regex : Type :=
| Chr (a : jschar)                       (* a literal or escaped character *)
| Class (p : jschar -> bool)             (* [...], \s, \d, . *)
| Seq (r1 r2 : regex)                    (* r1 r2 *)
| Star (greedy : bool) (r : regex)       (* r*  and r*? *)
| Plus (greedy : bool) (r : regex)       (* r+  and r+? *)
| Opt (r : regex)                        (* r? *)
| Group (n : nat) (r : regex)            (* the n-th capturing ( ) *)
| Bol                                    (* ^ *)
| Eol                                    (* $ *)
| NegLookahead (r : regex)               (* (?!r) *)
| NegLookbehind (r : regex).             (* (?<!r) *)

Declare Scope regex_scope.
Delimit Scope regex_scope with re.
Bind Scope regex_scope with regex.
Infix "@" := Seq (at level 60, right associativity) : regex_scope.

Inductive direction := Forward | Backward.

(** The matcher state: the input split at the current position (the part
    before it reversed), and the captures made so far. *)
Record mstate : Type := MState {
  before : jsstring;
  after : jsstring;
  caps : list (nat * jsstring)
}.

Definition pos (x : mstate) : nat := length (before x).

(** What is left to read in a direction. *)
Definition room (d : direction) (x : mstate) : nat :=
  match d with
  | Forward => length (after x)
  | Backward => length (before x)
  end.

Definition cont := mstate -> option mstate.

(** CharacterSetMatcher: read one code unit in the direction. *)
Definition step_char (p : jschar -> bool) (d : direction) (x : mstate)
    (k : cont) : option mstate :=
  match d with
  | Forward =>
      match after x with
      | c :: rest =>
          if p c then k (MState (c :: before x) rest (caps x)) else None
      | [] => None
      end
  | Backward =>
      match before x with
      | c :: rest =>
          if p c then k (MState rest (c :: after x) (caps x)) else None
      | [] => None
      end
  end.

(** The text between two states, the earlier one first. *)
Definition text_between (x y : mstate) : jsstring :=
  rev (firstn (pos y - pos x) (before y)).

Definition set_cap (n : nat) (d : direction) (x y : mstate) : mstate :=
  let t := match d with
           | Forward => text_between x y
           | Backward => text_between y x
           end in
  MState (before y) (after y) ((n, t) :: caps y).

Fixpoint get_cap (n : nat) (cs : list (nat * jsstring)) : option jsstring :=
  match cs with
  | [] => None
  | (i, t) :: cs' => if Nat.eqb i n then Some t else get_cap n cs'
  end.

(** RepeatMatcher with min = 0 and no upper bound.  An iteration that
    does not advance is rejected, as in ECMA-262; there the end indices
    are compared, which is the same test since a matcher never moves
    against its direction (lemma [moved_room]).  The counter starts at
    the room left, which bounds the number of iterations, so that it
    never decides a result (theorem [star_unfold]). *)
Definition repeat (body : mstate -> cont -> option mstate) (greedy : bool)
    (d : direction) (k : cont) : nat -> mstate -> option mstate :=
  fix loop (n : nat) (x : mstate) {struct n} : option mstate :=
    match n with
    | 0 => k x
    | S n' =>
        let again (y : mstate) :=
          if room d y <? room d x then loop n' y else None in
        if greedy then
          match body x again with
          | Some z => Some z
          | None => k x
          end
        else
          match k x with
          | Some z => Some z
          | None => body x again
          end
    end.

Section Matcher.

(** The [m] flag. *)
Variable multiline : bool.

Definition at_bol (x : mstate) : bool :=
  match before x with
  | [] => true
  | c :: _ => multiline && is_line_terminator c
  end.

Definition at_eol (x : mstate) : bool :=
  match after x with
  | [] => true
  | c :: _ => multiline && is_line_terminator c
  end.

(** [rmatch r d x k]: match [r] at [x] in direction [d], then continue
    with [k]; on failure of [k] try the next alternative. *)
Fixpoint rmatch (r : regex) (d : direction) (x : mstate) (k : cont)
    {struct r} : option mstate :=
  match r with
  | Chr a => step_char (is_char a) d x k
  | Class p => step_char p d x k
  | Seq r1 r2 =>
      match d with
      | Forward => rmatch r1 d x (fun y => rmatch r2 d y k)
      | Backward => rmatch r2 d x (fun y => rmatch r1 d y k)
      end
  | Star greedy r1 =>
      repeat (rmatch r1 d) greedy d k (room d x) x
  | Plus greedy r1 =>
      rmatch r1 d x
        (fun y => repeat (rmatch r1 d) greedy d k (room d y) y)
  | Opt r1 =>
      match rmatch r1 d x
              (fun y => if room d y <? room d x then k y else None) with
      | Some z => Some z
      | None => k x
      end
  | Group n r1 => rmatch r1 d x (fun y => k (set_cap n d x y))
  | Bol => if at_bol x then k x else None
  | Eol => if at_eol x then k x else None
  | NegLookahead r1 =>
      match rmatch r1 Forward x (fun y => Some y) with
      | Some _ => None
      | None => k x
      end
  | NegLookbehind r1 =>
      match rmatch r1 Backward x (fun y => Some y) with
      | Some _ => None
      | None => k x
      end
  end.

(** One attempt at the current position (the pattern matcher applied at
    one index, with no captures yet). *)
Definition match_here (r : regex) (b a : jsstring) : option mstate :=
  rmatch r Forward (MState b a []) (fun y => Some y).

End Matcher.

(** ** Results of JavaScript code that may throw *)

Inductive js_error : Type :=
| TypeError.   (* a method called on [undefined] *)

Inductive result (A : Type) : Type :=
| Ok (a : A)
| Throw (e : js_error).

Arguments Ok {A} a.
Arguments Throw {A} e.

Definition bind {A B : Type} (r : result A) (f : A -> result B) : result B :=
  match r with
  | Ok a => f a
  | Throw e => Throw e
  end.

Notation "x <- r ;; k" := (bind r (fun x => k))
  (at level 61, r at next level, right associativity).

(** ** String methods *)

Definition startsWith (c : jschar) (s : jsstring) : bool :=
  match s with
  | c0 :: _ => N.eqb c0 c
  | [] => false
  end.

Fixpoint trimStart (s : jsstring) : jsstring :=
  match s with
  | c :: s' => if is_space c then trimStart s' else s
  | [] => []
  end.

Definition trim (s : jsstring) : jsstring :=
  rev (trimStart (rev (trimStart s))).

Fixpoint jsstring_eqb (s t : jsstring) : bool :=
  match s, t with
  | [], [] => true
  | c :: s', d :: t' => N.eqb c d && jsstring_eqb s' t'
  | _, _ => false
  end.

(** [s.split(sep)] for a one-character separator. *)
Fixpoint split (sep : jschar) (s : jsstring) : list jsstring :=
  match s with
  | [] => [[]]
  | c :: s' =>
      if N.eqb c sep then [] :: split sep s'
      else match split sep s' with
           | h :: t => (c :: h) :: t
           | [] => [[c]]
           end
  end.

Fixpoint strip_prefix (p s : jsstring) : option jsstring :=
  match p, s with
  | [], _ => Some s
  | a :: p', c :: s' => if N.eqb c a then strip_prefix p' s' else None
  | _ :: _, [] => None
  end.

(** [s.replace(pat, repl)] for a string pattern: the first occurrence. *)
Fixpoint replace_str (pat repl s : jsstring) : jsstring :=
  match strip_prefix pat s with
  | Some rest => repl ++ rest
  | None =>
      match s with
      | [] => []
      | c :: s' => c :: replace_str pat repl s'
      end
  end.

(** The input of a global regular-expression scan, cut into the code
    units that are kept and the matches, in order. *)
Inductive piece : Type :=
| Kept (c : jschar)
| Hit (text : jsstring) (cs : list (nat * jsstring)).

Section RegExpMethods.

Variable multiline : bool.
Variable r : regex.

(** The scan of a [g] regular expression: the leftmost match at or
    after the current index, then on from its end; after an empty
    match the index advances by one.  [skip] counts the code units of
    the last match still to be passed. *)
Fixpoint pieces (skip : nat) (b a : jsstring) {struct a} : list piece :=
  match skip with
  | S k =>
      match a with
      | [] => []
      | c :: rest => pieces k (c :: b) rest
      end
  | 0 =>
      match match_here multiline r b a with
      | Some y =>
          let t := text_between (MState b a []) y in
          Hit t (caps y) ::
          match a with
          | [] => []
          | c :: rest =>
              match length t with
              | 0 => Kept c :: pieces 0 (c :: b) rest
              | S l => pieces l (c :: b) rest
              end
          end
      | None =>
          match a with
          | [] => []
          | c :: rest => Kept c :: pieces 0 (c :: b) rest
          end
      end
  end.

Fixpoint render (f : jsstring -> list (nat * jsstring) -> result jsstring)
    (ps : list piece) : result jsstring :=
  match ps with
  | [] => Ok []
  | Kept c :: ps' => out <- render f ps' ;; Ok (c :: out)
  | Hit t cs :: ps' =>
      s <- f t cs ;; out <- render f ps' ;; Ok (s ++ out)
  end.

(** [s.replace(r, f)] with the [g] flag. *)
Definition replace_all
    (f : jsstring -> list (nat * jsstring) -> result jsstring)
    (s : jsstring) : result jsstring :=
  render f (pieces 0 [] s).

Fixpoint hits (ps : list piece) : list jsstring :=
  match ps with
  | [] => []
  | Kept _ :: ps' => hits ps'
  | Hit t _ :: ps' => t :: hits ps'
  end.

(** [s.match(r)] with the [g] flag: the matched texts, [null] if none. *)
Definition match_all (s : jsstring) : option (list jsstring) :=
  match hits (pieces 0 [] s) with
  | [] => None
  | hs => Some hs
  end.

(** [s.replace(r, repl)] without the [g] flag: the first match only. *)
Fixpoint replace_first_from (repl : jsstring) (b a : jsstring) {struct a}
    : jsstring :=
  match match_here multiline r b a with
  | Some y => repl ++ after y
  | None =>
      match a with
      | [] => []
      | c :: rest => c :: replace_first_from repl (c :: b) rest
      end
  end.

Definition replace_first (repl s : jsstring) : jsstring :=
  replace_first_from repl [] s.

End RegExpMethods.

(** A replacement string: literal text and [$n] references. *)
Inductive tpl_item : Type :=
| Lit (s : jsstring)
| Ref (n : nat).

Fixpoint expand (tpl : list tpl_item) (cs : list (nat * jsstring)) : jsstring :=
  match tpl with
  | [] => []
  | Lit s :: tpl' => s ++ expand tpl' cs
  | Ref n :: tpl' =>
      match get_cap n cs with
      | Some t => t ++ expand tpl' cs
      | None => expand tpl' cs
      end
  end.

Definition by_template (tpl : list tpl_item)
    : jsstring -> list (nat * jsstring) -> result jsstring :=
  fun _ cs => Ok (expand tpl cs).

(** [a.forEach((x, index) => ...)] updating one accumulated string. *)
Fixpoint forEach_from {A : Type} (f : jsstring -> A -> nat -> jsstring)
    (index : nat) (a : list A) (acc : jsstring) : jsstring :=
  match a with
  | [] => acc
  | x :: a' => forEach_from f (S index) a' (f acc x index)
  end.

Definition forEach {A : Type} (f : jsstring -> A -> nat -> jsstring)
    (a : list A) (acc : jsstring) : jsstring :=
  forEach_from f 0 a acc.

(** ** The regular expressions of the source *)

Local Open Scope regex_scope.

(** The class of [-], [:] and [|]. *)
Definition is_sep_char (c : jschar) : bool :=
  N.eqb c ch_dash || N.eqb c ch_colon || N.eqb c ch_pipe.

(** The class of [-] and [*]. *)
Definition is_bullet (c : jschar) : bool :=
  N.eqb c ch_dash || N.eqb c ch_star.

(** The regular expressions are quoted with blanks between their
    terms; the source has none.

    tableRegex:
    [/( \| [^\n]+ \| \s* \n \| [-:|]+ \| [^\n]+ \| \s* (?: \n \| [^\n]+ \| \s* )* )/g] *)
Definition tableRegex : regex :=
  Group 1
    (Chr ch_pipe @ Plus true (Class (not_char ch_nl)) @ Chr ch_pipe
     @ Star true (Class is_space) @ Chr ch_nl
     @ Chr ch_pipe @ Plus true (Class is_sep_char) @ Chr ch_pipe
     @ Plus true (Class (not_char ch_nl)) @ Chr ch_pipe
     @ Star true (Class is_space)
     @ Star true
         (Chr ch_nl @ Chr ch_pipe @ Plus true (Class (not_char ch_nl))
          @ Chr ch_pipe @ Star true (Class is_space))).

(** [/ \| ( [^|]* ) /g], applied to each row *)
Definition cellRegex : regex :=
  Chr ch_pipe @ Group 1 (Star true (Class (not_char ch_pipe))).

(** [/ ``` ( [\s\S]*? ) ``` /g] *)
Definition codeBlockRegex : regex :=
  Chr ch_tick @ Chr ch_tick @ Chr ch_tick
  @ Group 1 (Star false (Class any_char))
  @ Chr ch_tick @ Chr ch_tick @ Chr ch_tick.

(** [/ ` ( [^`]+ ) ` /g] *)
Definition inlineCodeRegex : regex :=
  Chr ch_tick @ Group 1 (Plus true (Class (not_char ch_tick))) @ Chr ch_tick.

(** [/ \*\* ( .*? ) \*\* /g] *)
Definition boldRegex : regex :=
  Chr ch_star @ Chr ch_star @ Group 1 (Star false (Class is_dot))
  @ Chr ch_star @ Chr ch_star.

(** [/ (?<! < [^>]* ) \* ( .*? ) \* (?! [^<]* > ) /g] *)
Definition italicRegex : regex :=
  NegLookbehind (Chr ch_lt @ Star true (Class (not_char ch_gt)))
  @ Chr ch_star @ Group 1 (Star false (Class is_dot)) @ Chr ch_star
  @ NegLookahead (Star true (Class (not_char ch_lt)) @ Chr ch_gt).

(** listRegex: [/( (?: ^ \s* [-*] \s+ .+ \n? )+ )/gm] *)
Definition listRegex : regex :=
  Group 1
    (Plus true
       (Bol @ Star true (Class is_space) @ Class is_bullet
        @ Plus true (Class is_space) @ Plus true (Class is_dot)
        @ Opt (Chr ch_nl))).

(** [/ ^ \s* [-*] \s+ ( .+ ) $ /gm] *)
Definition listItemRegex : regex :=
  Bol @ Star true (Class is_space) @ Class is_bullet
  @ Plus true (Class is_space) @ Group 1 (Plus true (Class is_dot)) @ Eol.

(** [/ ^ \s* [-*] \s+ /] *)
Definition listMarkerRegex : regex :=
  Bol @ Star true (Class is_space) @ Class is_bullet
  @ Plus true (Class is_space).

(** orderedListRegex: [/( (?: ^ \s* \d+ \. \s+ .+ \n? )+ )/gm] *)
Definition orderedListRegex : regex :=
  Group 1
    (Plus true
       (Bol @ Star true (Class is_space) @ Plus true (Class is_digit)
        @ Chr ch_dot @ Plus true (Class is_space) @ Plus true (Class is_dot)
        @ Opt (Chr ch_nl))).

(** [/ ^ \s* \d+ \. \s+ ( .+ ) $ /gm] *)
Definition orderedItemRegex : regex :=
  Bol @ Star true (Class is_space) @ Plus true (Class is_digit)
  @ Chr ch_dot @ Plus true (Class is_space)
  @ Group 1 (Plus true (Class is_dot)) @ Eol.

(** [/ ^ \s* \d+ \. \s+ /] *)
Definition orderedMarkerRegex : regex :=
  Bol @ Star true (Class is_space) @ Plus true (Class is_digit)
  @ Chr ch_dot @ Plus true (Class is_space).

(** [/ \n \s* \n /g] *)
Definition paragraphRegex : regex :=
  Chr ch_nl @ Star true (Class is_space) @ Chr ch_nl.

(** [/\n/g] *)
Definition newlineRegex : regex := Chr ch_nl.

Local Close Scope regex_scope.

(** ** formatMessage *)

(** The body of the two [forEach] callbacks over the cells of a row;
    [tag] is [th] or [td]. *)
Definition add_cell (tag : jsstring) (htmlTable column : jsstring)
    (index : nat) : jsstring :=
  if Nat.eqb index 0 && jsstring_eqb (trim column) (js "|") then htmlTable
  else
    let cellContent := trim (replace_str (js "|") [] column) in
    htmlTable ++ js "<" ++ tag ++ js ">" ++ cellContent
              ++ js "</" ++ tag ++ js ">".

(** What an [if (rowMatch) { ... }] block appends for one row. *)
Definition add_row (tag : jsstring) (htmlTable row : jsstring) : jsstring :=
  match match_all false cellRegex row with
  | Some rowMatch =>
      forEach (add_cell tag) rowMatch (htmlTable ++ js "<tr>") ++ js "</tr>"
  | None => htmlTable
  end.

(** The callback of the table replacement. *)
Definition table_to_html (table : jsstring) : result jsstring :=
  let rows :=
    filter (fun row => 0 <? length (trim row)) (split ch_nl table) in
  let htmlTable :=
    js "<table class=" ++ [ch_dquote]
       ++ js "table table-bordered table-dark table-sm" ++ [ch_dquote]
       ++ js "><thead>" in
  match nth_error rows 0 with
  | None => Throw TypeError            (* rows[0].match on undefined *)
  | Some header =>
      let htmlTable := add_row (js "th") htmlTable header in
      let htmlTable := htmlTable ++ js "</thead><tbody>" in
      let htmlTable := fold_left (add_row (js "td")) (skipn 2 rows) htmlTable in
      Ok (htmlTable ++ js "</tbody></table>")
  end.

(** The callback of the two list replacements. *)
Definition list_to_html (tag : jsstring) (itemRegex markerRegex : regex)
    (listBlock : jsstring) : result jsstring :=
  let htmlList := js "<" ++ tag ++ js ">" in
  let htmlList :=
    match match_all true itemRegex listBlock with
    | Some items =>
        fold_left
          (fun htmlList item =>
             let content := trim (replace_first false markerRegex [] item) in
             htmlList ++ js "<li>" ++ content ++ js "</li>")
          items htmlList
    | None => htmlList
    end in
  Ok (htmlList ++ js "</" ++ tag ++ js ">").

Definition pass_tables : jsstring -> result jsstring :=
  replace_all false tableRegex (fun table _ => table_to_html table).

Definition pass_code_blocks : jsstring -> result jsstring :=
  replace_all false codeBlockRegex
    (by_template [Lit (js "<pre><code>"); Ref 1; Lit (js "</code></pre>")]).

Definition pass_inline_code : jsstring -> result jsstring :=
  replace_all false inlineCodeRegex
    (by_template [Lit (js "<code>"); Ref 1; Lit (js "</code>")]).

Definition pass_bold : jsstring -> result jsstring :=
  replace_all false boldRegex
    (by_template [Lit (js "<strong>"); Ref 1; Lit (js "</strong>")]).

Definition pass_italic : jsstring -> result jsstring :=
  replace_all false italicRegex
    (by_template [Lit (js "<em>"); Ref 1; Lit (js "</em>")]).

Definition pass_lists : jsstring -> result jsstring :=
  replace_all true listRegex
    (fun listBlock _ =>
       list_to_html (js "ul") listItemRegex listMarkerRegex listBlock).

Definition pass_ordered_lists : jsstring -> result jsstring :=
  replace_all true orderedListRegex
    (fun listBlock _ =>
       list_to_html (js "ol") orderedItemRegex orderedMarkerRegex listBlock).

Definition pass_paragraphs : jsstring -> result jsstring :=
  replace_all false paragraphRegex (by_template [Lit (js "</p><p>")]).

Definition pass_line_breaks : jsstring -> result jsstring :=
  replace_all false newlineRegex (by_template [Lit (js "<br>")]).

(** [formattedMsg] just before the final [startsWith] test. *)
Definition rewrite_passes (message : jsstring) : result jsstring :=
  formattedMsg <- pass_tables message ;;
  formattedMsg <- pass_code_blocks formattedMsg ;;
  formattedMsg <- pass_inline_code formattedMsg ;;
  formattedMsg <- pass_bold formattedMsg ;;
  formattedMsg <- pass_italic formattedMsg ;;
  formattedMsg <- pass_lists formattedMsg ;;
  formattedMsg <- pass_ordered_lists formattedMsg ;;
  formattedMsg <- pass_paragraphs formattedMsg ;;
  pass_line_breaks formattedMsg.

Definition wrap_paragraph (formattedMsg : jsstring) : jsstring :=
  if negb (startsWith ch_lt formattedMsg)
  then js "<p>" ++ formattedMsg ++ js "</p>"
  else formattedMsg.

(** [message] is a string or [null]; [!message] holds of [null] and of
    the empty string. *)
Definition formatMessage (message : option jsstring) : result jsstring :=
  match message with
  | None => Ok []
  | Some [] => Ok []
  | Some s =>
      formattedMsg <- rewrite_passes s ;;
      Ok (wrap_paragraph formattedMsg)
  end.

(** ** Notions used in the statements *)

Definition has_char (a : jschar) (s : jsstring) : bool :=
  existsb (fun c => N.eqb c a) s.

(** A bullet marker: [-] or [*], then white space. *)
Definition bullet_prefix (s : jsstring) : bool :=
  match s with
  | c :: w :: _ => is_bullet c && is_space w
  | _ => false
  end.

(** The rest of a digit-dot prefix after its first digit: more digits,
    then a dot, then white space. *)
Fixpoint dot_after_digits (s : jsstring) : bool :=
  match s with
  | c :: s' =>
      if is_digit c then dot_after_digits s'
      else N.eqb c ch_dot
           && match s' with
              | w :: _ => is_space w
              | [] => false
              end
  | [] => false
  end.

(** A digit-dot prefix: digits, a dot, white space. *)
Definition numbered_prefix (s : jsstring) : bool :=
  match s with
  | c :: s' => is_digit c && dot_after_digits s'
  | [] => false
  end.

(** No line of [s] begins, after optional white space, with a prefix
    [P].  A line begins at the start of the input and after each line
    terminator; [lead] tells that only white space was read since the
    line began. *)
Fixpoint line_prefix_free (P : jsstring -> bool) (lead : bool)
    (s : jsstring) : bool :=
  (if lead then negb (P s) else true)
  && match s with
     | [] => true
     | c :: s' =>
         line_prefix_free P (is_line_terminator c || (lead && is_space c)) s'
     end.

(** White space up to a newline. *)
Fixpoint space_then_newline (s : jsstring) : bool :=
  match s with
  | c :: s' => N.eqb c ch_nl || (is_space c && space_then_newline s')
  | [] => false
  end.

(** A blank line: two newlines with only white space between them. *)
Fixpoint has_blank_line (s : jsstring) : bool :=
  match s with
  | c :: s' => (N.eqb c ch_nl && space_then_newline s') || has_blank_line s'
  | [] => false
  end.

(** Text with none of the markers the passes recognise: no [|], no
    backtick, no [*], no line that begins with a bullet or a digit-dot
    prefix, and no blank line. *)
Definition plain_text (s : jsstring) : bool :=
  negb (has_char ch_pipe s) && negb (has_char ch_tick s)
  && negb (has_char ch_star s)
  && line_prefix_free bullet_prefix true s
  && line_prefix_free numbered_prefix true s
  && negb (has_blank_line s).

(** The text with every newline replaced by a [br] tag. *)
Definition with_breaks (s : jsstring) : jsstring :=
  flat_map (fun c => if N.eqb c ch_nl then js "<br>" else [c]) s.

(** The table of three lines: a header, a separator and one data row. *)
Definition table_input : jsstring :=
  js "| A | B |" ++ [ch_nl] ++ js "|---|---|" ++ [ch_nl] ++ js "| 1 | 2 |".

(** The opening tag of every table the function writes. *)
Definition table_open : jsstring :=
  js "<table class=" ++ [ch_dquote]
     ++ js "table table-bordered table-dark table-sm" ++ [ch_dquote]
     ++ js ">".

(** A character that is no backtick, no asterisk and no line terminator. *)
Definition inert (c : jschar) : bool :=
  negb (N.eqb c ch_tick) && negb (N.eqb c ch_star)
  && negb (is_line_terminator c).


(** [pre] is a place where a line has just begun and only white space
    followed: either all of [pre] is white space and [lead] held before
    it, or [pre] ends with a line terminator and white space. *)
Definition leads (lead : bool) (pre : jsstring) : Prop :=
  (lead = true /\ forallb is_space pre = true)
  \/ (exists p1 c p2, pre = p1 ++ c :: p2 /\ is_line_terminator c = true
                      /\ forallb is_space p2 = true).

(** The only line terminators of [s] are newlines. *)
Definition breaks_are_newlines (s : jsstring) : bool :=
  forallb (fun c => is_dot c || N.eqb c ch_nl) s.

(** A line prefix that text beginning with [<] cannot complete. *)
Definition closed_by_angle (P : jsstring -> bool) : Prop :=
  forall u v, P (u ++ ch_lt :: v) = true -> P u = true.

(** How often [a] occurs in [s]. *)
Definition count_char (a : jschar) (s : jsstring) : nat :=
  length (filter (fun c => N.eqb c a) s).

(** One line of text without backtick and asterisk that does not begin
    with a list marker. *)
Definition plain_line (p : jsstring) : bool :=
  forallb inert p
  && line_prefix_free bullet_prefix true p
  && line_prefix_free numbered_prefix true p.

(** Text without the markers of the first seven passes: no [|], no
    backtick, no [*], and no line that begins with a bullet or a
    digit-dot prefix.  Blank lines are allowed. *)
Definition marker_free (s : jsstring) : bool :=
  negb (has_char ch_pipe s) && negb (has_char ch_tick s)
  && negb (has_char ch_star s)
  && line_prefix_free bullet_prefix true s
  && line_prefix_free numbered_prefix true s.

(** The white space a text begins with; [trimStart] is the rest. *)
Fixpoint leading_space (s : jsstring) : jsstring :=
  match s with
  | c :: s' => if is_space c then c :: leading_space s' else []
  | [] => []
  end.

(** The rows the table callback works on: the lines of the matched
    text that are not blank. *)
Definition table_rows (table : jsstring) : list jsstring :=
  filter (fun row => 0 <? length (trim row)) (split ch_nl table).

(** A text up to its first [|], and from it on. *)
Fixpoint run_to_pipe (s : jsstring) : jsstring :=
  match s with
  | c :: s' => if N.eqb c ch_pipe then [] else c :: run_to_pipe s'
  | [] => []
  end.

Fixpoint from_pipe (s : jsstring) : jsstring :=
  match s with
  | c :: s' => if N.eqb c ch_pipe then s else from_pipe s'
  | [] => []
  end.

(** The cells of a row, cut by hand: each [|] with the text up to the
    next one. *)
Fixpoint cells (s : jsstring) : list jsstring :=
  match s with
  | c :: s' =>
      if N.eqb c ch_pipe then (c :: run_to_pipe s') :: cells s'
      else cells s'
  | [] => []
  end.

Definition ch_space : jschar := 32%N.

(** A character of a list item: no backtick, asterisk, line terminator
    or [|]. *)
Definition item_char (c : jschar) : bool :=
  inert c && negb (N.eqb c ch_pipe).

(** The text of a list item: characters of items, not all of them white
    space. *)
Definition list_item (it : jsstring) : bool :=
  forallb item_char it && negb (forallb is_space it).

(** The digits of a numbered item. *)
Definition numeral (n : jsstring) : bool :=
  match n with
  | [] => false
  | _ :: _ => forallb is_digit n
  end.

(** Lines joined by newlines. *)
Fixpoint joined_lines (ls : list jsstring) : jsstring :=
  match ls with
  | [] => []
  | l :: ls' =>
      match ls' with
      | [] => l
      | _ :: _ => l ++ ch_nl :: joined_lines ls'
      end
  end.

(** A list line: the marker, a blank, the text. *)
Definition list_line (line : jsstring * jsstring) : jsstring :=
  fst line ++ ch_space :: snd line.

(** The [li] element of an item. *)
Definition li_html (it : jsstring) : jsstring :=
  js "<li>" ++ trim it ++ js "</li>".

(** The three expressions of a list pass differ between the two passes
    only in the part that reads the marker; [with_marker R] puts that
    part before the rest [R] of an expression. *)
Definition bullet_marker (R : regex) : regex := Seq (Class is_bullet) R.

Definition number_marker (R : regex) : regex :=
  Seq (Plus true (Class is_digit)) (Seq (Chr ch_dot) R).

(** One line of a list block. *)
Definition line_body (with_marker : regex -> regex) : regex :=
  Seq Bol
    (Seq (Star true (Class is_space))
       (with_marker
          (Seq (Plus true (Class is_space))
             (Seq (Plus true (Class is_dot)) (Opt (Chr ch_nl)))))).

Definition list_block_regex (with_marker : regex -> regex) : regex :=
  Group 1 (Plus true (line_body with_marker)).

Definition list_item_regex (with_marker : regex -> regex) : regex :=
  Seq Bol
    (Seq (Star true (Class is_space))
       (with_marker
          (Seq (Plus true (Class is_space))
             (Seq (Group 1 (Plus true (Class is_dot))) Eol)))).

Definition list_marker_regex (with_marker : regex -> regex) : regex :=
  Seq Bol
    (Seq (Star true (Class is_space))
       (with_marker (Plus true (Class is_space)))).

(** A line whose marker is one of the texts [is_mark] and whose text is
    that of an item. *)
Definition valid_line (is_mark : jsstring -> Prop)
    (line : jsstring * jsstring) : Prop :=
  is_mark (fst line) /\ list_item (snd line) = true.

(** The markers of the lines in the two list properties: a dash, and
    digits with a dot. *)
Definition is_dash_mark (mk : jsstring) : Prop := mk = [ch_dash].

Definition is_number_mark (mk : jsstring) : Prop :=
  exists n, numeral n = true /\ mk = n ++ [ch_dot].

(** A character that is no [|], backtick or [*]. *)
Definition text_char (c : jschar) : bool :=
  negb (N.eqb c ch_pipe) && negb (N.eqb c ch_tick)
  && negb (N.eqb c ch_star).





(** ** Notions used in the proofs *)

(** [moved d x y]: [y] is [x] after reading some text [w] in direction
    [d]; the input as a whole is the same. *)
Definition moved (d : direction) (x y : mstate) : Prop :=
  match d with
  | Forward =>
      exists w, after x = w ++ after y /\ before y = rev w ++ before x
  | Backward =>
      exists w, before x = w ++ before y /\ after y = rev w ++ after x
  end.

(** A matcher succeeds only through its continuation, called on a state
    further along in its direction. *)
Definition reaches (d : direction)
    (body : mstate -> cont -> option mstate) : Prop :=
  forall x k z, body x k = Some z -> exists y, moved d x y /\ k y = Some z.

(** * Properties *)

(** ** The matcher *)

Lemma moved_refl (d : direction) (x : mstate) : moved d x x.
Proof. destruct d; exists []; split; reflexivity. Qed.

Lemma moved_trans (d : direction) (x y z : mstate) :
  moved d x y -> moved d y z -> moved d x z.
Proof.
  destruct d; intros [w1 [H1 H2]] [w2 [H3 H4]]; exists (w1 ++ w2);
    rewrite H1, H4, H3, H2, rev_app_distr, <- !app_assoc; auto.
Qed.

Lemma moved_set_cap (d d' : direction) (n : nat) (x x' y : mstate) :
  moved d x y -> moved d x (set_cap n d' x' y).
Proof. destruct d; intros [w H]; exists w; exact H. Qed.

Lemma step_char_reaches (p : jschar -> bool) (d : direction) :
  reaches d (step_char p d).
Proof.
  intros [b a cs] k z; destruct d; simpl.
  - destruct a as [|c a]; [discriminate|].
    destruct (p c); [|discriminate]. intros H.
    eexists; split; [|exact H]. exists [c]; split; reflexivity.
  - destruct b as [|c b]; [discriminate|].
    destruct (p c); [|discriminate]. intros H.
    eexists; split; [|exact H]. exists [c]; split; reflexivity.
Qed.

Lemma repeat_reaches (body : mstate -> cont -> option mstate)
    (greedy : bool) (d : direction) (k : cont) :
  reaches d body ->
  forall n x z, repeat body greedy d k n x = Some z ->
    exists y, moved d x y /\ k y = Some z.
Proof.
  intros Hb; induction n as [|n IH]; intros x z; simpl.
  - intros H; exists x; split; [apply moved_refl | exact H].
  - assert (Hit : forall z',
      body x (fun y => if room d y <? room d x
                       then repeat body greedy d k n y else None) = Some z' ->
      exists y, moved d x y /\ k y = Some z').
    { intros z' H. apply Hb in H. destruct H as [y [Hxy H]].
      destruct (room d y <? room d x); [|discriminate].
      apply IH in H. destruct H as [y' [Hyy' H]].
      exists y'; split; [eapply moved_trans; eauto | exact H]. }
    destruct greedy.
    + destruct (body x _) as [z'|] eqn:E.
      * intros H; inversion H; subst. apply Hit; reflexivity.
      * intros H; exists x; split; [apply moved_refl | exact H].
    + destruct (k x) as [z'|] eqn:E.
      * intros H; inversion H; subst.
        exists x; split; [apply moved_refl | exact E].
      * apply Hit.
Qed.

Lemma rmatch_reaches (ml : bool) (r : regex) (d : direction) :
  reaches d (rmatch ml r d).
Proof.
  revert d; induction r as
    [a | p | r1 IH1 r2 IH2 | g r1 IH1 | g r1 IH1 | r1 IH1 | n r1 IH1
     | | | r1 IH1 | r1 IH1]; intros d x k z; simpl.
  - apply step_char_reaches.
  - apply step_char_reaches.
  - destruct d; intros H.
    + apply IH1 in H; destruct H as [y [Hxy H]].
      apply IH2 in H; destruct H as [y' [Hyy' H]].
      exists y'; split; [eapply moved_trans; eauto | exact H].
    + apply IH2 in H; destruct H as [y [Hxy H]].
      apply IH1 in H; destruct H as [y' [Hyy' H]].
      exists y'; split; [eapply moved_trans; eauto | exact H].
  - apply repeat_reaches, IH1.
  - intros H. apply IH1 in H; destruct H as [y [Hxy H]].
    apply repeat_reaches in H; [|apply IH1]. destruct H as [y' [Hyy' H]].
    exists y'; split; [eapply moved_trans; eauto | exact H].
  - destruct (rmatch ml r1 d x _) as [z'|] eqn:E.
    + intros H; inversion H; subst.
      apply IH1 in E; destruct E as [y [Hxy E]].
      destruct (room d y <? room d x); [|discriminate].
      exists y; split; assumption.
    + intros H; exists x; split; [apply moved_refl | exact H].
  - intros H. apply IH1 in H; destruct H as [y [Hxy H]].
    exists (set_cap n d x y); split; [apply moved_set_cap, Hxy | exact H].
  - destruct (at_bol ml x); [|discriminate].
    intros H; exists x; split; [apply moved_refl | exact H].
  - destruct (at_eol ml x); [|discriminate].
    intros H; exists x; split; [apply moved_refl | exact H].
  - destruct (rmatch ml r1 Forward x _); [discriminate|].
    intros H; exists x; split; [apply moved_refl | exact H].
  - destruct (rmatch ml r1 Backward x _); [discriminate|].
    intros H; exists x; split; [apply moved_refl | exact H].
Qed.

(** ** The iteration counter of [repeat] is never exhausted *)

(** Along its direction a matcher only loses room, and it has strictly
    less room exactly when its position has changed: the test of
    [repeat] is the test on end indices of ECMA-262. *)
Lemma moved_room (d : direction) (x y : mstate) :
  moved d x y ->
  room d y <= room d x
  /\ (room d y <? room d x) = negb (pos y =? pos x).
Proof.
  destruct d; intros [w [H1 H2]]; unfold room, pos.
  - assert (L1 : length (after x) = length w + length (after y))
      by (rewrite H1, length_app; lia).
    assert (L2 : length (before y) = length w + length (before x))
      by (rewrite H2, length_app, length_rev; lia).
    split; [lia|].
    destruct (Nat.ltb_spec (length (after y)) (length (after x)));
      destruct (Nat.eqb_spec (length (before y)) (length (before x)));
      simpl; try reflexivity; lia.
  - assert (L1 : length (before x) = length w + length (before y))
      by (rewrite H1, length_app; lia).
    split; [lia|].
    destruct (Nat.ltb_spec (length (before y)) (length (before x)));
      destruct (Nat.eqb_spec (length (before y)) (length (before x)));
      simpl; try reflexivity; lia.
Qed.

Lemma repeat_ext (body body' : mstate -> cont -> option mstate)
    (g : bool) (d : direction) (k k' : cont) :
  (forall x k1 k2, (forall y, k1 y = k2 y) -> body x k1 = body' x k2) ->
  (forall y, k y = k' y) ->
  forall n x, repeat body g d k n x = repeat body' g d k' n x.
Proof.
  intros Hb Hk. induction n as [|n IH]; intros x; cbn [repeat]; [apply Hk|].
  rewrite (Hb x _ (fun y => if room d y <? room d x
                            then repeat body' g d k' n y else None)),
          (Hk x); [reflexivity|].
  intros y. destruct (room d y <? room d x); [apply IH | reflexivity].
Qed.

(** The result of a matcher depends on its continuation pointwise. *)
Lemma rmatch_ext (ml : bool) (r : regex) :
  forall d x k k', (forall y, k y = k' y) ->
                   rmatch ml r d x k = rmatch ml r d x k'.
Proof.
  induction r as
    [a | p | r1 IH1 r2 IH2 | g r1 IH1 | g r1 IH1 | r1 IH1 | n r1 IH1
     | | | r1 IH1 | r1 IH1]; intros d x k k' Hk; cbn [rmatch].
  - unfold step_char. destruct d;
      [destruct (after x) | destruct (before x)]; try reflexivity;
      destruct (is_char a _); auto.
  - unfold step_char. destruct d;
      [destruct (after x) | destruct (before x)]; try reflexivity;
      destruct (p _); auto.
  - destruct d; [apply IH1; intros y; now apply IH2
                | apply IH2; intros y; now apply IH1].
  - apply repeat_ext; [|exact Hk]. intros x0 k1 k2 H. now apply IH1.
  - apply IH1. intros y. apply repeat_ext; [|exact Hk].
    intros x0 k1 k2 H. now apply IH1.
  - rewrite (IH1 d x _ (fun y => if room d y <? room d x then k' y else None)),
            (Hk x); [reflexivity|].
    intros y. destruct (room d y <? room d x); [apply Hk | reflexivity].
  - apply IH1. intros y. apply Hk.
  - now rewrite Hk.
  - now rewrite Hk.
  - now rewrite Hk.
  - now rewrite Hk.
Qed.

Section Counter.

Variable body : mstate -> cont -> option mstate.
Variable g : bool.
Variable d : direction.
Variable k : cont.

Hypothesis body_reaches : reaches d body.
Hypothesis body_ext :
  forall x k1 k2, (forall y, k1 y = k2 y) -> body x k1 = body x k2.

Lemma body_no_room (x : mstate) (k1 : cont) :
  room d x = 0 ->
  body x (fun y => if room d y <? room d x then k1 y else None) = None.
Proof.
  intros H0. destruct (body x _) as [z|] eqn:E; [|reflexivity].
  apply body_reaches in E. destruct E as [y [_ E]].
  rewrite H0 in E. discriminate E.
Qed.

(** One more unit on the counter changes nothing once it covers the
    room. *)
Lemma repeat_succ :
  forall n x, room d x <= n ->
              repeat body g d k n x = repeat body g d k (S n) x.
Proof.
  induction n as [|n IH]; intros x Hx.
  - cbn [repeat]. rewrite body_no_room by lia.
    destruct g; [reflexivity | now destruct (k x)].
  - cbn [repeat] in *.
    rewrite (body_ext x _
               (fun y => if room d y <? room d x
                         then repeat body g d k (S n) y else None));
      [reflexivity|].
    intros y. destruct (Nat.ltb_spec (room d y) (room d x));
      [|reflexivity].
    apply IH. lia.
Qed.

Lemma repeat_enough (n m : nat) (x : mstate) :
  room d x <= n -> n <= m -> repeat body g d k n x = repeat body g d k m x.
Proof.
  intros Hx Hnm. induction Hnm as [|m Hnm IH]; [reflexivity|].
  rewrite IH. apply repeat_succ. lia.
Qed.

End Counter.

(** The star obeys the recursion of RepeatMatcher: one iteration that
    advances, then the star again, or the continuation; greedy and lazy
    differ in the order.  The counter does not show. *)
Theorem star_unfold (ml g : bool) (r : regex) (d : direction) (x : mstate)
    (k : cont) :
  rmatch ml (Star g r) d x k
  = let again (y : mstate) :=
      if room d y <? room d x then rmatch ml (Star g r) d y k else None in
    if g then
      match rmatch ml r d x again with
      | Some z => Some z
      | None => k x
      end
    else
      match k x with
      | Some z => Some z
      | None => rmatch ml r d x again
      end.
Proof.
  cbn [rmatch]. cbv zeta.
  destruct (room d x) as [|n] eqn:En.
  - cbn [repeat].
    pose proof (body_no_room (rmatch ml r d) d (rmatch_reaches ml r d) x
                  (fun y => repeat (rmatch ml r d) g d k (room d y) y) En)
      as H0.
    rewrite En in H0. rewrite H0.
    destruct g; [reflexivity | now destruct (k x)].
  - cbn [repeat]. rewrite En.
    rewrite (rmatch_ext ml r d x _
               (fun y => if room d y <? S n
                         then repeat (rmatch ml r d) g d k (room d y) y
                         else None)); [reflexivity|].
    intros y. destruct (Nat.ltb_spec (room d y) (S n)); [|reflexivity].
    symmetry. apply repeat_enough; try lia.
    + apply rmatch_reaches.
    + intros x0 k1 k2 H1. now apply rmatch_ext.
Qed.

Lemma ltb_succ (n : nat) : (n <? S n) = true.
Proof. apply Nat.ltb_lt; lia. Qed.

Section MatcherEquations.

Variable ml : bool.

Lemma rmatch_seq (r1 r2 : regex) (x : mstate) (k : cont) :
  rmatch ml (Seq r1 r2) Forward x k
  = rmatch ml r1 Forward x (fun y => rmatch ml r2 Forward y k).
Proof. reflexivity. Qed.

Lemma rmatch_plus (g : bool) (r : regex) (d : direction) (x : mstate)
    (k : cont) :
  rmatch ml (Plus g r) d x k
  = rmatch ml r d x (fun y => rmatch ml (Star g r) d y k).
Proof. reflexivity. Qed.

Lemma rmatch_group (n : nat) (r : regex) (d : direction) (x : mstate)
    (k : cont) :
  rmatch ml (Group n r) d x k
  = rmatch ml r d x (fun y => k (set_cap n d x y)).
Proof. reflexivity. Qed.

Lemma rmatch_chr (a : jschar) (b s : jsstring) cs (k : cont) :
  rmatch ml (Chr a) Forward (MState b s cs) k
  = match s with
    | c :: rest => if N.eqb c a then k (MState (c :: b) rest cs) else None
    | [] => None
    end.
Proof. reflexivity. Qed.

Lemma rmatch_class (p : jschar -> bool) (b s : jsstring) cs (k : cont) :
  rmatch ml (Class p) Forward (MState b s cs) k
  = match s with
    | c :: rest => if p c then k (MState (c :: b) rest cs) else None
    | [] => None
    end.
Proof. reflexivity. Qed.

Lemma rmatch_bol (d : direction) (x : mstate) (k : cont) :
  rmatch ml Bol d x k = if at_bol ml x then k x else None.
Proof. reflexivity. Qed.

Lemma rmatch_neg_lookbehind (r : regex) (d : direction) (x : mstate)
    (k : cont) :
  rmatch ml (NegLookbehind r) d x k
  = match rmatch ml r Backward x (fun y => Some y) with
    | Some _ => None
    | None => k x
    end.
Proof. reflexivity. Qed.

(** The star of a one-character class, unfolded once. *)
Lemma star_class_nil (g : bool) (p : jschar -> bool) (b : jsstring) cs
    (k : cont) :
  rmatch ml (Star g (Class p)) Forward (MState b [] cs) k
  = k (MState b [] cs).
Proof. reflexivity. Qed.

Lemma star_class_greedy (p : jschar -> bool) (b : jsstring) (c : jschar)
    (s : jsstring) cs (k : cont) :
  rmatch ml (Star true (Class p)) Forward (MState b (c :: s) cs) k
  = if p c then
      match rmatch ml (Star true (Class p)) Forward
              (MState (c :: b) s cs) k with
      | Some z => Some z
      | None => k (MState b (c :: s) cs)
      end
    else k (MState b (c :: s) cs).
Proof.
  simpl. destruct (p c); [|reflexivity].
  rewrite ltb_succ. reflexivity.
Qed.

Lemma star_class_lazy (p : jschar -> bool) (b : jsstring) (c : jschar)
    (s : jsstring) cs (k : cont) :
  rmatch ml (Star false (Class p)) Forward (MState b (c :: s) cs) k
  = match k (MState b (c :: s) cs) with
    | Some z => Some z
    | None =>
        if p c then
          rmatch ml (Star false (Class p)) Forward (MState (c :: b) s cs) k
        else None
    end.
Proof.
  simpl. destruct (k _); [reflexivity|].
  destruct (p c); [|reflexivity].
  rewrite ltb_succ. reflexivity.
Qed.

(** A star of a class fails when its continuation fails after every
    run of the class it can read. *)
Lemma star_class_none (g : bool) (p : jschar -> bool) cs (k : cont) :
  forall (s b : jsstring),
    (forall w rest, s = w ++ rest -> forallb p w = true ->
       k (MState (rev w ++ b) rest cs) = None) ->
    rmatch ml (Star g (Class p)) Forward (MState b s cs) k = None.
Proof.
  induction s as [|c s IH]; intros b H.
  - rewrite star_class_nil. apply (H [] []); reflexivity.
  - assert (Hk : k (MState b (c :: s) cs) = None)
      by (apply (H [] (c :: s)); reflexivity).
    assert (Hrec : p c = true ->
              rmatch ml (Star g (Class p)) Forward (MState (c :: b) s cs) k
              = None).
    { intros Hc. apply IH. intros w rest E Hw.
      specialize (H (c :: w) rest). cbn [app rev forallb] in H.
      rewrite <- app_assoc in H. apply H; [now rewrite E|].
      now rewrite Hc, Hw. }
    destruct g.
    + rewrite star_class_greedy. destruct (p c); [|exact Hk].
      rewrite Hrec by reflexivity. exact Hk.
    + rewrite star_class_lazy, Hk. destruct (p c); [|reflexivity].
      apply Hrec; reflexivity.
Qed.

(** A lazy star of a class stops at the first place where its
    continuation succeeds. *)
Lemma star_class_lazy_stops (p : jschar -> bool) cs (k : cont)
    (rest : jsstring) (z : mstate) :
  forall (w b : jsstring),
    forallb p w = true ->
    (forall w1 c w2, w = w1 ++ c :: w2 ->
       k (MState (rev w1 ++ b) (c :: w2 ++ rest) cs) = None) ->
    k (MState (rev w ++ b) rest cs) = Some z ->
    rmatch ml (Star false (Class p)) Forward (MState b (w ++ rest) cs) k
    = Some z.
Proof.
  induction w as [|c w IH]; intros b Hp Hfail Hk;
    cbn [app rev forallb] in *.
  - destruct rest as [|c rest].
    + rewrite star_class_nil. exact Hk.
    + rewrite star_class_lazy, Hk. reflexivity.
  - apply andb_prop in Hp. destruct Hp as [Hc Hw].
    rewrite star_class_lazy.
    pose proof (Hfail [] c w eq_refl) as H0. cbn [app rev] in H0.
    rewrite H0, Hc.
    apply IH; [exact Hw| |now rewrite <- app_assoc in Hk].
    intros w1 c' w2 E. specialize (Hfail (c :: w1) c' w2).
    cbn [app rev] in Hfail.
    rewrite <- app_assoc in Hfail. apply Hfail. now rewrite E.
Qed.

(** A sequence succeeds only if its tail succeeds somewhere further on. *)
Lemma rmatch_seq_reaches (r1 r2 : regex) (x : mstate) (k : cont)
    (z : mstate) :
  rmatch ml (Seq r1 r2) Forward x k = Some z ->
  exists y, moved Forward x y /\ rmatch ml r2 Forward y k = Some z.
Proof. rewrite rmatch_seq. apply (rmatch_reaches ml r1 Forward). Qed.

(** A regular expression that begins with a literal character fails
    where the input does not have it. *)
Lemma seq_chr_none (a : jschar) (r : regex) (b s : jsstring) cs
    (k : cont) :
  startsWith a s = false ->
  rmatch ml (Seq (Chr a) r) Forward (MState b s cs) k = None.
Proof.
  intros H. rewrite rmatch_seq, rmatch_chr.
  destruct s as [|c s]; [reflexivity|]. simpl in H. now rewrite H.
Qed.

End MatcherEquations.

(** ** The global scan and [replace] *)

Lemma firstn_length_app (A : Type) (l1 l2 : list A) :
  firstn (length l1) (l1 ++ l2) = l1.
Proof. induction l1 as [|a l1 IH]; simpl; [reflexivity | now rewrite IH]. Qed.

Lemma text_between_rev (b a a' w : jsstring) cs cs' :
  text_between (MState b a cs) (MState (rev w ++ b) a' cs') = w.
Proof.
  unfold text_between, pos; simpl.
  rewrite length_app, length_rev.
  replace (length w + length b - length b) with (length (rev w))
    by (rewrite length_rev; lia).
  rewrite firstn_length_app. apply rev_involutive.
Qed.

Lemma render_kept f (s : jsstring) : render f (map Kept s) = Ok s.
Proof. induction s as [|c s IH]; simpl; [reflexivity | now rewrite IH]. Qed.

Lemma render_kept_app f (p : jsstring) (ps : list piece) :
  render f (map Kept p ++ ps) = out <- render f ps ;; Ok (p ++ out).
Proof.
  induction p as [|c p IH]; simpl.
  - destruct (render f ps); reflexivity.
  - rewrite IH. destruct (render f ps); reflexivity.
Qed.

Section ScanFacts.

Variable ml : bool.
Variable r : regex.

(** A match at a position covers a text [w] that the input continues
    with, and ends right after it. *)
Lemma match_here_text (b a : jsstring) (y : mstate) :
  match_here ml r b a = Some y ->
  exists w, a = w ++ after y /\ before y = rev w ++ b
            /\ text_between (MState b a []) y = w.
Proof.
  intros H. apply rmatch_reaches in H.
  destruct H as [y' [[w [H1 H2]] H]]. inversion H; subst y'.
  cbn [before after] in *.
  exists w; repeat split; try assumption.
  destruct y as [by_ ay cy]; cbn [before] in H2; subst by_.
  apply text_between_rev.
Qed.

Lemma pieces_skip (w : jsstring) :
  forall b rest,
    pieces ml r (length w) b (w ++ rest) = pieces ml r 0 (rev w ++ b) rest.
Proof.
  induction w as [|c w IH]; intros b rest; [reflexivity|].
  cbn [length app rev pieces]. rewrite IH, <- app_assoc. reflexivity.
Qed.

Lemma pieces_miss_cons (c : jschar) (b rest : jsstring) :
  match_here ml r b (c :: rest) = None ->
  pieces ml r 0 b (c :: rest) = Kept c :: pieces ml r 0 (c :: b) rest.
Proof. intros H. cbn [pieces]. now rewrite H. Qed.

Lemma pieces_miss_nil (b : jsstring) :
  match_here ml r b [] = None -> pieces ml r 0 b [] = [].
Proof. intros H. cbn [pieces]. now rewrite H. Qed.

(** At a match of a non-empty text the scan records it and goes on
    after it. *)
Lemma pieces_hit (w rest b : jsstring) (y : mstate) :
  match_here ml r b (w ++ rest) = Some y ->
  before y = rev w ++ b ->
  w <> [] ->
  pieces ml r 0 b (w ++ rest)
  = Hit w (caps y) :: pieces ml r 0 (rev w ++ b) rest.
Proof.
  intros H Hb Hw.
  assert (Ht : text_between (MState b (w ++ rest) []) y = w).
  { destruct y as [by_ ay cy]; cbn [before] in Hb; subst by_.
    apply text_between_rev. }
  destruct w as [|c w]; [contradiction|].
  cbn [app] in H, Ht. cbn [app pieces]. rewrite H, Ht.
  cbn [length rev]. rewrite pieces_skip, <- app_assoc. reflexivity.
Qed.

(** Where no match starts, the input is kept as it is. *)
Lemma pieces_kept_prefix (p : jsstring) :
  forall b rest,
    (forall p1 c p2, p = p1 ++ c :: p2 ->
       match_here ml r (rev p1 ++ b) (c :: p2 ++ rest) = None) ->
    pieces ml r 0 b (p ++ rest)
    = map Kept p ++ pieces ml r 0 (rev p ++ b) rest.
Proof.
  induction p as [|c p IH]; intros b rest H; [reflexivity|].
  cbn [app map rev]. rewrite pieces_miss_cons by (apply (H [] c p eq_refl)).
  rewrite IH, <- app_assoc; [reflexivity|].
  intros p1 c' p2 E. specialize (H (c :: p1) c' p2).
  cbn [app rev] in H. rewrite <- app_assoc in H. apply H. now rewrite E.
Qed.

Lemma pieces_no_match (s : jsstring) :
  forall b,
    (forall p1 p2, s = p1 ++ p2 ->
       match_here ml r (rev p1 ++ b) p2 = None) ->
    pieces ml r 0 b s = map Kept s.
Proof.
  intros b H. rewrite <- (app_nil_r s) at 1.
  rewrite pieces_kept_prefix.
  - rewrite pieces_miss_nil; [apply app_nil_r|].
    apply H. now rewrite app_nil_r.
  - intros p1 c p2 E. rewrite app_nil_r. apply H. exact E.
Qed.

(** A [replace] whose regular expression matches nowhere returns its
    input. *)
Lemma replace_all_no_match f (s : jsstring) :
  (forall p1 p2, s = p1 ++ p2 -> match_here ml r (rev p1) p2 = None) ->
  replace_all ml r f s = Ok s.
Proof.
  intros H. unfold replace_all. rewrite pieces_no_match.
  - apply render_kept.
  - intros p1 p2 E. rewrite app_nil_r. now apply H.
Qed.

(** A [replace] that finds no match at index 0 keeps the first
    character. *)
Lemma replace_all_keeps_head f (c : jschar) (s out : jsstring) :
  match_here ml r [] (c :: s) = None ->
  replace_all ml r f (c :: s) = Ok out ->
  exists out', out = c :: out'.
Proof.
  intros H. unfold replace_all. rewrite pieces_miss_cons by exact H.
  cbn [render]. destruct (render f _) as [o|e]; simpl; [|discriminate].
  intros E; inversion E. now exists o.
Qed.

(** Every match the scan records is a match of the regular expression
    at some position. *)
Lemma pieces_hits (P : jsstring -> Prop) :
  (forall b a y, match_here ml r b a = Some y ->
     P (text_between (MState b a []) y)) ->
  forall a skip b,
    Forall (fun pc => match pc with Hit t _ => P t | Kept _ => True end)
           (pieces ml r skip b a).
Proof.
  intros HP. induction a as [|c a IH]; intros skip b.
  - destruct skip; cbn [pieces]; [|constructor].
    destruct (match_here ml r b []) eqn:E; constructor; [|constructor].
    now apply HP.
  - destruct skip; cbn [pieces]; [|apply IH].
    destruct (match_here ml r b (c :: a)) eqn:E.
    + constructor; [now apply HP|].
      destruct (length _); [constructor; [exact I|]|]; apply IH.
    + constructor; [exact I | apply IH].
Qed.

End ScanFacts.

(** [render] succeeds when the callback succeeds on every match. *)
Lemma render_total f (ps : list piece) :
  Forall (fun pc => match pc with
                    | Hit t cs => exists s, f t cs = Ok s
                    | Kept _ => True
                    end) ps ->
  exists out, render f ps = Ok out.
Proof.
  induction 1 as [|pc ps Hpc _ IH]; simpl; [now eexists|].
  destruct IH as [out IH]. destruct pc as [c|t cs].
  - rewrite IH. simpl. now eexists.
  - destruct Hpc as [s Hs]. rewrite Hs, IH. simpl. now eexists.
Qed.

Lemma replace_all_total ml r f (s : jsstring) :
  (forall t cs, exists out, f t cs = Ok out) ->
  exists out, replace_all ml r f s = Ok out.
Proof.
  intros Hf. apply render_total.
  induction (pieces ml r 0 [] s) as [|pc ps IH]; constructor; [|exact IH].
  destruct pc; [exact I | apply Hf].
Qed.

(** ** The table callback never meets an empty row list *)

Lemma trimStart_last_nonspace (l : jsstring) (c : jschar) :
  is_space c = false -> trimStart (l ++ [c]) <> [].
Proof.
  intros Hc. induction l as [|a l IH]; simpl.
  - rewrite Hc. discriminate.
  - destruct (is_space a); [exact IH | discriminate].
Qed.

Lemma trim_head_nonspace (c : jschar) (h : jsstring) :
  is_space c = false -> (0 <? length (trim (c :: h))) = true.
Proof.
  intros Hc. unfold trim. cbn [trimStart]. rewrite Hc. cbn [rev].
  apply Nat.ltb_lt. rewrite length_rev.
  pose proof (trimStart_last_nonspace (rev h) c Hc) as H.
  destruct (trimStart (rev h ++ [c])); [contradiction | simpl; lia].
Qed.

Lemma split_head (sep c : jschar) (s : jsstring) :
  N.eqb c sep = false ->
  exists h tl, split sep (c :: s) = (c :: h) :: tl.
Proof.
  intros H. cbn [split]. rewrite H.
  destruct (split sep s) as [|h tl]; eauto.
Qed.

Lemma table_to_html_total (t : jsstring) :
  exists out, table_to_html (ch_pipe :: t) = Ok out.
Proof.
  unfold table_to_html.
  destruct (split_head ch_nl ch_pipe t eq_refl) as [h [tl E]].
  rewrite E. cbn [filter].
  rewrite (trim_head_nonspace ch_pipe h eq_refl). cbn [nth_error].
  eexists; reflexivity.
Qed.

(** Every match of [tableRegex] begins with its first [|]. *)
Lemma tableRegex_match_head (b a : jsstring) (y : mstate) :
  match_here false tableRegex b a = Some y ->
  exists t, text_between (MState b a []) y = ch_pipe :: t.
Proof.
  unfold match_here, tableRegex.
  rewrite rmatch_group, rmatch_seq, rmatch_chr.
  destruct a as [|c rest]; [discriminate|].
  destruct (N.eqb c ch_pipe) eqn:Ec; [|discriminate].
  apply N.eqb_eq in Ec; subst c. intros H.
  apply rmatch_reaches in H. destruct H as [y1 [[w [H1 H2]] H]].
  inversion H; subst y. exists w. cbn [before after] in H1, H2.
  unfold set_cap. rewrite H2.
  change (rev w ++ ch_pipe :: b) with (rev w ++ [ch_pipe] ++ b).
  rewrite app_assoc. change (rev w ++ [ch_pipe]) with (rev (ch_pipe :: w)).
  apply text_between_rev.
Qed.

Lemma pass_tables_total (s : jsstring) : exists out, pass_tables s = Ok out.
Proof.
  apply render_total.
  eapply Forall_impl;
    [|apply (pieces_hits false tableRegex
               (fun t => exists t', t = ch_pipe :: t')),
            tableRegex_match_head].
  intros [c|t cs]; [trivial|]. intros [t' E]; subst t.
  apply table_to_html_total.
Qed.

Lemma rewrite_passes_total (s : jsstring) :
  exists out, rewrite_passes s = Ok out.
Proof.
  unfold rewrite_passes.
  destruct (pass_tables_total s) as [s1 E1]; rewrite E1; cbn [bind].
  destruct (replace_all_total false codeBlockRegex
    (by_template [Lit (js "<pre><code>"); Ref 1; Lit (js "</code></pre>")])
    s1) as [s2 E2]; [now eexists|].
  unfold pass_code_blocks; rewrite E2; cbn [bind].
  destruct (replace_all_total false inlineCodeRegex
    (by_template [Lit (js "<code>"); Ref 1; Lit (js "</code>")])
    s2) as [s3 E3]; [now eexists|].
  unfold pass_inline_code; rewrite E3; cbn [bind].
  destruct (replace_all_total false boldRegex
    (by_template [Lit (js "<strong>"); Ref 1; Lit (js "</strong>")])
    s3) as [s4 E4]; [now eexists|].
  unfold pass_bold; rewrite E4; cbn [bind].
  destruct (replace_all_total false italicRegex
    (by_template [Lit (js "<em>"); Ref 1; Lit (js "</em>")])
    s4) as [s5 E5]; [now eexists|].
  unfold pass_italic; rewrite E5; cbn [bind].
  destruct (replace_all_total true listRegex
    (fun listBlock _ =>
       list_to_html (js "ul") listItemRegex listMarkerRegex listBlock)
    s5) as [s6 E6]; [now eexists|].
  unfold pass_lists; rewrite E6; cbn [bind].
  destruct (replace_all_total true orderedListRegex
    (fun listBlock _ =>
       list_to_html (js "ol") orderedItemRegex orderedMarkerRegex listBlock)
    s6) as [s7 E7]; [now eexists|].
  unfold pass_ordered_lists; rewrite E7; cbn [bind].
  destruct (replace_all_total false paragraphRegex
    (by_template [Lit (js "</p><p>")]) s7) as [s8 E8]; [now eexists|].
  unfold pass_paragraphs; rewrite E8; cbn [bind].
  apply replace_all_total. now eexists.
Qed.

(** C2. For every input, a string or null, formatMessage returns a
    string: the only operation in it that can throw, the call of a
    method on [rows[0]], always finds a first row, since every match of
    the table expression begins with a [|]. *)
Theorem formatMessage_never_throws (message : option jsstring) :
  exists html, formatMessage message = Ok html.
Proof.
  destruct message as [[|c s]|]; cbn [formatMessage];
    [now eexists| |now eexists].
  destruct (rewrite_passes_total (c :: s)) as [out E]. rewrite E.
  cbn [bind]. now eexists.
Qed.

(** ** Worked inputs *)

(** C1. On the three-line table the result is not the table the claim
    describes.  The greedy [\s*] after the separator row reads the
    newline that the group for the data rows needs, so the match ends
    there: the table has an empty body and the data row is left behind
    as text.  The closing [|] of the header row yields a third, empty
    header cell. *)
Theorem formatMessage_table_input :
  formatMessage (Some table_input)
  = Ok (table_open
        ++ js "<thead><tr><th>A</th><th>B</th><th></th></tr></thead>"
        ++ js "<tbody></tbody></table>| 1 | 2 |").
Proof. vm_compute. reflexivity. Qed.

(** Malformed markdown is rewritten as far as the expressions match: an
    unterminated fence stays as text, and a lone pair of asterisks left
    of it becomes an empty [em]. *)
Example formatMessage_unterminated_fence :
  formatMessage (Some (js "```unterminated **b"))
  = Ok (js "<p>```unterminated <em></em>b</p>").
Proof. vm_compute. reflexivity. Qed.

Example formatMessage_half_table :
  formatMessage (Some (js "| a | b" ++ [ch_nl] ++ js "|---"))
  = Ok (js "<p>| a | b<br>|---</p>").
Proof. vm_compute. reflexivity. Qed.

(** C3. formatMessage(null) and formatMessage("") are both the empty
    string. *)
Theorem formatMessage_null_and_empty :
  formatMessage None = Ok [] /\ formatMessage (Some (js "")) = Ok (js "").
Proof. split; reflexivity. Qed.

(** C5. Inline code becomes a [code] element and a fenced block a
    [pre]/[code] pair. *)
Theorem formatMessage_code :
  formatMessage (Some (js "`x`")) = Ok (js "<code>x</code>")
  /\ formatMessage (Some (js "```y```")) = Ok (js "<pre><code>y</code></pre>").
Proof. split; vm_compute; reflexivity. Qed.

(** C6. Double asterisks give [strong], single asterisks give [em]. *)
Theorem formatMessage_emphasis :
  formatMessage (Some (js "**bold**")) = Ok (js "<strong>bold</strong>")
  /\ formatMessage (Some (js "*italic*")) = Ok (js "<em>italic</em>").
Proof. split; vm_compute; reflexivity. Qed.

(** C7. Two bullet lines become one [ul] with the two items. *)
Theorem formatMessage_bullets :
  formatMessage (Some (js "- a" ++ [ch_nl] ++ js "- b"))
  = Ok (js "<ul><li>a</li><li>b</li></ul>").
Proof. vm_compute. reflexivity. Qed.

(** C8. Two numbered lines become one [ol] with the two items. *)
Theorem formatMessage_numbered :
  formatMessage (Some (js "1. a" ++ [ch_nl] ++ js "2. b"))
  = Ok (js "<ol><li>a</li><li>b</li></ol>").
Proof. vm_compute. reflexivity. Qed.

(** ** The final test on the first character *)

Lemma replace_all_head_kept ml r f (c : jschar) (s : jsstring) :
  match_here ml r [] (c :: s) = None ->
  (exists out, replace_all ml r f (c :: s) = Ok out) ->
  exists out, replace_all ml r f (c :: s) = Ok (c :: out).
Proof.
  intros Hm [out E]. destruct (replace_all_keeps_head ml r f c s out Hm E)
    as [out' E']. subst out. now exists out'.
Qed.

Ltac pass_keeps_angle p :=
  let out := fresh "s" in
  let E := fresh "E" in
  unfold p;
  match goal with
  | |- context [replace_all ?ml ?r ?f (ch_lt :: ?s)] =>
      destruct (replace_all_head_kept ml r f ch_lt s eq_refl) as [out E];
      [try (apply replace_all_total; intros; now eexists)
      | rewrite E; cbn [bind]]
  end.

(** No rewriting pass touches a leading [<]. *)
Lemma rewrite_passes_keep_angle (s : jsstring) :
  exists body, rewrite_passes (ch_lt :: s) = Ok (ch_lt :: body).
Proof.
  unfold rewrite_passes.
  pass_keeps_angle pass_tables; [apply pass_tables_total|].
  pass_keeps_angle pass_code_blocks.
  pass_keeps_angle pass_inline_code.
  pass_keeps_angle pass_bold.
  pass_keeps_angle pass_italic.
  pass_keeps_angle pass_lists.
  pass_keeps_angle pass_ordered_lists.
  pass_keeps_angle pass_paragraphs.
  pass_keeps_angle pass_line_breaks.
  now eexists.
Qed.

(** C10. The last step looks at the first character only.  Whenever the
    rewritten string begins with [<], it is returned as it is, without
    the [p] pair; this covers every raw input that begins with [<],
    which no pass rewrites at its first character, such as ["<x"]. *)
Theorem formatMessage_leading_angle :
  (forall s body : jsstring,
      rewrite_passes s = Ok body -> startsWith ch_lt body = true ->
      formatMessage (Some s) = Ok body)
  /\ (forall s : jsstring,
        exists body,
          rewrite_passes (ch_lt :: s) = Ok (ch_lt :: body)
          /\ formatMessage (Some (ch_lt :: s)) = Ok (ch_lt :: body))
  /\ formatMessage (Some (js "<x")) = Ok (js "<x").
Proof.
  split; [|split].
  - intros [|c s] body Hp Hb.
    + vm_compute in Hp. inversion Hp; subst body. discriminate.
    + cbn [formatMessage]. rewrite Hp. cbn [bind].
      unfold wrap_paragraph. now rewrite Hb.
  - intros s. destruct (rewrite_passes_keep_angle s) as [body E].
    exists body. split; [exact E|].
    cbn [formatMessage]. rewrite E. reflexivity.
  - vm_compute. reflexivity.
Qed.

Lemma formatMessage_leading_angle_witness :
  formatMessage (Some (js "<x")) = Ok (js "<x").
Proof.
  apply (proj1 formatMessage_leading_angle (js "<x") (js "<x"));
    vm_compute; reflexivity.
Defined.

(** ** Text without markers *)

Lemma has_char_suffix (a : jschar) (s p1 p2 : jsstring) :
  has_char a s = false -> s = p1 ++ p2 -> startsWith a p2 = false.
Proof.
  intros H E. subst s. unfold has_char in H. rewrite existsb_app in H.
  apply orb_false_elim in H. destruct H as [_ H].
  destruct p2 as [|c p2]; [reflexivity|]. simpl in H.
  apply orb_false_elim in H. apply H.
Qed.

Lemma line_prefix_free_at (P : jsstring -> bool) :
  forall (pre : jsstring) (lead : bool) (s rest : jsstring),
    line_prefix_free P lead s = true -> s = pre ++ rest -> leads lead pre ->
    P rest = false.
Proof.
  induction pre as [|a pre IH]; intros lead s rest Hs E Hl.
  - cbn [app] in E. subst s. destruct Hl as [[Hlead _]|[p1 [c [p2 [E _]]]]].
    + subst lead. destruct rest; simpl in Hs;
        apply andb_prop in Hs; destruct Hs as [Hs _];
        now apply negb_true_iff in Hs.
    + destruct p1; discriminate.
  - cbn [app] in E. subst s. cbn [line_prefix_free] in Hs.
    apply andb_prop in Hs. destruct Hs as [_ Hs].
    apply (IH _ _ rest Hs eq_refl).
    destruct Hl as [[Hlead Hsp]|[p1 [c [p2 [E [Hc Hsp]]]]]].
    + cbn [forallb] in Hsp. apply andb_prop in Hsp. destruct Hsp as [Ha Hsp].
      left. subst lead. rewrite Ha. split; [apply orb_true_r | exact Hsp].
    + destruct p1 as [|a' p1]; cbn [app] in E; inversion E; subst.
      * left. rewrite Hc. split; [reflexivity | exact Hsp].
      * right. exists p1, c, p2. auto.
Qed.

Section LineStart.

Variable P : jsstring -> bool.
Variable r_after : regex.

Hypothesis r_after_needs_prefix :
  forall b rest cs k,
    P rest = false -> rmatch true r_after Forward (MState b rest cs) k = None.

(** At no place of a text free of the prefix [P] does a line-anchored
    expression for [P] match. *)
Lemma line_start_none (s p1 p2 : jsstring) (k : cont) :
  line_prefix_free P true s = true -> s = p1 ++ p2 ->
  rmatch true (Seq Bol (Seq (Star true (Class is_space)) r_after)) Forward
    (MState (rev p1) p2 []) k = None.
Proof.
  intros Hs E. rewrite rmatch_seq, rmatch_bol.
  destruct (at_bol true (MState (rev p1) p2 [])) eqn:Hbol; [|reflexivity].
  rewrite rmatch_seq. apply star_class_none. intros w rest Ep Hw.
  apply r_after_needs_prefix.
  apply (line_prefix_free_at P (p1 ++ w) true s rest Hs).
  - subst p2. now rewrite <- app_assoc.
  - unfold at_bol in Hbol. cbn [before] in Hbol.
    destruct (rev p1) as [|c b'] eqn:Er.
    + left. apply (f_equal (@rev jschar)) in Er.
      rewrite rev_involutive in Er. subst p1. auto.
    + right. apply (f_equal (@rev jschar)) in Er.
      rewrite rev_involutive in Er. cbn [rev] in Er. subst p1.
      exists (rev b'), c, w. rewrite <- app_assoc. auto.
Qed.

End LineStart.

Lemma bullet_needs_prefix (r : regex) (b rest : jsstring) cs (k : cont) :
  bullet_prefix rest = false ->
  rmatch true
    (Seq (Class is_bullet) (Seq (Plus true (Class is_space)) r))
    Forward (MState b rest cs) k = None.
Proof.
  intros H. rewrite rmatch_seq, rmatch_class.
  destruct rest as [|c rest]; [reflexivity|].
  destruct (is_bullet c) eqn:Hc; [|reflexivity].
  rewrite rmatch_seq, rmatch_plus, rmatch_class.
  destruct rest as [|w rest]; [reflexivity|].
  cbn [bullet_prefix] in H. rewrite Hc in H. cbn [andb] in H. now rewrite H.
Qed.

Lemma dot_after_digits_app (w rest : jsstring) :
  forallb is_digit w = true ->
  dot_after_digits (w ++ rest) = dot_after_digits rest.
Proof.
  induction w as [|c w IH]; intros H; [reflexivity|].
  cbn [forallb] in H. apply andb_prop in H. destruct H as [Hc Hw].
  cbn [app dot_after_digits]. rewrite Hc. now apply IH.
Qed.

Lemma numbered_needs_prefix (r : regex) (b rest : jsstring) cs (k : cont) :
  numbered_prefix rest = false ->
  rmatch true
    (Seq (Plus true (Class is_digit))
       (Seq (Chr ch_dot) (Seq (Plus true (Class is_space)) r)))
    Forward (MState b rest cs) k = None.
Proof.
  intros H. rewrite rmatch_seq, rmatch_plus, rmatch_class.
  destruct rest as [|c rest]; [reflexivity|].
  destruct (is_digit c) eqn:Hc; [|reflexivity].
  cbn [numbered_prefix] in H. rewrite Hc in H. cbn [andb] in H.
  apply star_class_none. intros w rest2 E Hw. subst rest.
  rewrite dot_after_digits_app in H by exact Hw.
  rewrite rmatch_seq, rmatch_chr.
  destruct rest2 as [|c2 rest2]; [reflexivity|].
  destruct (N.eqb c2 ch_dot) eqn:Hdot; [|reflexivity].
  apply N.eqb_eq in Hdot. subst c2.
  rewrite rmatch_seq, rmatch_plus, rmatch_class.
  destruct rest2 as [|sp rest2]; [reflexivity|].
  cbn in H. now rewrite H.
Qed.

Lemma pass_tables_no_pipe (s : jsstring) :
  has_char ch_pipe s = false -> pass_tables s = Ok s.
Proof.
  intros H. apply replace_all_no_match. intros p1 p2 E.
  unfold match_here, tableRegex. rewrite rmatch_group.
  apply seq_chr_none. exact (has_char_suffix ch_pipe s p1 p2 H E).
Qed.

Lemma pass_code_blocks_no_tick (s : jsstring) :
  has_char ch_tick s = false -> pass_code_blocks s = Ok s.
Proof.
  intros H. apply replace_all_no_match. intros p1 p2 E.
  apply seq_chr_none. exact (has_char_suffix ch_tick s p1 p2 H E).
Qed.

Lemma pass_inline_code_no_tick (s : jsstring) :
  has_char ch_tick s = false -> pass_inline_code s = Ok s.
Proof.
  intros H. apply replace_all_no_match. intros p1 p2 E.
  apply seq_chr_none. exact (has_char_suffix ch_tick s p1 p2 H E).
Qed.

Lemma pass_bold_no_star (s : jsstring) :
  has_char ch_star s = false -> pass_bold s = Ok s.
Proof.
  intros H. apply replace_all_no_match. intros p1 p2 E.
  apply seq_chr_none. exact (has_char_suffix ch_star s p1 p2 H E).
Qed.

Lemma pass_italic_no_star (s : jsstring) :
  has_char ch_star s = false -> pass_italic s = Ok s.
Proof.
  intros H. apply replace_all_no_match. intros p1 p2 E.
  unfold match_here, italicRegex. rewrite rmatch_seq, rmatch_neg_lookbehind.
  destruct (rmatch false _ Backward _ _); [reflexivity|].
  apply seq_chr_none. exact (has_char_suffix ch_star s p1 p2 H E).
Qed.

Lemma pass_lists_no_bullet (s : jsstring) :
  line_prefix_free bullet_prefix true s = true -> pass_lists s = Ok s.
Proof.
  intros H. apply replace_all_no_match. intros p1 p2 E.
  unfold match_here, listRegex. rewrite rmatch_group, rmatch_plus.
  apply (line_start_none bullet_prefix) with (s := s); try assumption.
  intros b rest cs k. apply bullet_needs_prefix.
Qed.

Lemma pass_ordered_lists_no_number (s : jsstring) :
  line_prefix_free numbered_prefix true s = true ->
  pass_ordered_lists s = Ok s.
Proof.
  intros H. apply replace_all_no_match. intros p1 p2 E.
  unfold match_here, orderedListRegex. rewrite rmatch_group, rmatch_plus.
  apply (line_start_none numbered_prefix) with (s := s); try assumption.
  intros b rest cs k. apply numbered_needs_prefix.
Qed.

Lemma space_then_newline_app (w rest : jsstring) :
  forallb is_space w = true ->
  space_then_newline (w ++ ch_nl :: rest) = true.
Proof.
  induction w as [|c w IH]; intros H; [reflexivity|].
  cbn [forallb] in H. apply andb_prop in H. destruct H as [Hc Hw].
  cbn [app space_then_newline]. rewrite Hc, IH by exact Hw.
  apply orb_true_r.
Qed.

Lemma has_blank_line_app (p l : jsstring) :
  has_blank_line l = true -> has_blank_line (p ++ l) = true.
Proof.
  intros H. induction p as [|c p IH]; [exact H|].
  cbn [app has_blank_line]. rewrite IH. apply orb_true_r.
Qed.

Lemma pass_paragraphs_no_blank_line (s : jsstring) :
  has_blank_line s = false -> pass_paragraphs s = Ok s.
Proof.
  intros H. apply replace_all_no_match. intros p1 p2 E.
  unfold match_here, paragraphRegex. rewrite rmatch_seq, rmatch_chr.
  destruct p2 as [|c rest]; [reflexivity|].
  destruct (N.eqb c ch_nl) eqn:Hc; [|reflexivity].
  apply N.eqb_eq in Hc. subst c.
  rewrite rmatch_seq. apply star_class_none. intros w rest' Er Hw.
  rewrite rmatch_chr. destruct rest' as [|c rest']; [reflexivity|].
  destruct (N.eqb c ch_nl) eqn:Hc; [|reflexivity].
  apply N.eqb_eq in Hc. subst c. exfalso.
  assert (Hb : has_blank_line s = true); [|congruence].
  subst s rest. apply has_blank_line_app.
  cbn [has_blank_line]. rewrite space_then_newline_app by exact Hw.
  reflexivity.
Qed.

(** The last pass replaces each newline by a [br] tag. *)
Lemma pass_line_breaks_spec (s : jsstring) :
  pass_line_breaks s = Ok (with_breaks s).
Proof.
  unfold pass_line_breaks, replace_all. generalize (@nil jschar) as b.
  induction s as [|c s IH]; intros b; [reflexivity|].
  destruct (N.eqb c ch_nl) eqn:Hc.
  - change (c :: s) with ([c] ++ s).
    rewrite pieces_hit with (y := MState (c :: b) s []).
    + cbn [render rev app caps]. rewrite IH. cbn [bind with_breaks flat_map].
      rewrite Hc. reflexivity.
    + unfold match_here, newlineRegex. cbn [app]. rewrite rmatch_chr.
      now rewrite Hc.
    + reflexivity.
    + discriminate.
  - rewrite pieces_miss_cons.
    + cbn [render]. rewrite IH. cbn [bind with_breaks flat_map].
      rewrite Hc. reflexivity.
    + unfold match_here, newlineRegex. rewrite rmatch_chr. now rewrite Hc.
Qed.

Lemma rewrite_passes_plain_text (s : jsstring) :
  plain_text s = true -> rewrite_passes s = Ok (with_breaks s).
Proof.
  unfold plain_text. intros H.
  repeat (apply andb_prop in H; destruct H as [H ?]).
  repeat match goal with
         | Hn : negb _ = true |- _ => apply negb_true_iff in Hn
         end.
  unfold rewrite_passes.
  rewrite pass_tables_no_pipe by assumption. cbn [bind].
  rewrite pass_code_blocks_no_tick by assumption. cbn [bind].
  rewrite pass_inline_code_no_tick by assumption. cbn [bind].
  rewrite pass_bold_no_star by assumption. cbn [bind].
  rewrite pass_italic_no_star by assumption. cbn [bind].
  rewrite pass_lists_no_bullet by assumption. cbn [bind].
  rewrite pass_ordered_lists_no_number by assumption. cbn [bind].
  rewrite pass_paragraphs_no_blank_line by assumption. cbn [bind].
  apply pass_line_breaks_spec.
Qed.

Lemma startsWith_with_breaks (s : jsstring) :
  startsWith ch_lt (with_breaks s)
  = startsWith ch_lt s || startsWith ch_nl s.
Proof.
  destruct s as [|c s]; [reflexivity|].
  cbn [with_breaks flat_map startsWith].
  destruct (N.eqb c ch_nl) eqn:Hc.
  - apply N.eqb_eq in Hc. subst c. reflexivity.
  - cbn [app startsWith]. now rewrite orb_false_r.
Qed.

(** C4, as the code has it.  For a non-empty text with no [|], backtick
    or [*], no line that begins with a bullet or a digit-dot prefix and
    no blank line, the result is the text with each newline replaced by
    a [br] tag; it is wrapped in one [p] pair unless the text begins
    with [<] or with a newline, in which case the rewritten string
    begins with [<] and is returned unwrapped. *)
Theorem formatMessage_plain_text (s : jsstring) :
  s <> [] -> plain_text s = true ->
  formatMessage (Some s)
  = Ok (if startsWith ch_lt s || startsWith ch_nl s
        then with_breaks s
        else js "<p>" ++ with_breaks s ++ js "</p>").
Proof.
  intros Hne Hp. destruct s as [|c s]; [contradiction|].
  cbn [formatMessage]. rewrite rewrite_passes_plain_text by exact Hp.
  cbn [bind]. unfold wrap_paragraph. rewrite startsWith_with_breaks.
  destruct (startsWith ch_lt (c :: s) || startsWith ch_nl (c :: s));
    reflexivity.
Qed.

Lemma formatMessage_plain_text_witness :
  formatMessage (Some (js "hello" ++ [ch_nl] ++ js "world"))
  = Ok (js "<p>hello<br>world</p>").
Proof.
  apply (formatMessage_plain_text (js "hello" ++ [ch_nl] ++ js "world"));
    [discriminate | vm_compute; reflexivity].
Defined.

(** The claim C4 as it is stated fails on plain text that begins with
    [<]: it is returned without the [p] pair. *)
Lemma formatMessage_plain_text_unwrapped :
  ~ (forall s : jsstring,
       s <> [] -> plain_text s = true ->
       formatMessage (Some s) = Ok (js "<p>" ++ with_breaks s ++ js "</p>")).
Proof.
  intros H.
  assert (Hx := H (js "<x") ltac:(discriminate) ltac:(vm_compute; reflexivity)).
  vm_compute in Hx. discriminate Hx.
Qed.

(** ** Bold markers inside a fenced block *)

Lemma forallb_weaken (p q : jschar -> bool) (s : jsstring) :
  (forall c, p c = true -> q c = true) ->
  forallb p s = true -> forallb q s = true.
Proof.
  intros Hpq. induction s as [|c s IH]; [reflexivity|].
  cbn [forallb]. intros H. apply andb_prop in H. destruct H as [Hc Hs].
  now rewrite (Hpq c Hc), IH.
Qed.

Lemma forallb_no_char (p : jschar -> bool) (a : jschar) (s : jsstring) :
  p a = false -> forallb p s = true -> has_char a s = false.
Proof.
  intros Ha. induction s as [|c s IH]; [reflexivity|].
  cbn [forallb]. intros H. apply andb_prop in H. destruct H as [Hc Hs].
  unfold has_char in *. cbn [existsb]. rewrite IH by exact Hs.
  destruct (N.eqb c a) eqn:E; [|reflexivity].
  apply N.eqb_eq in E. subst c. congruence.
Qed.

Lemma has_char_app (a : jschar) (s t : jsstring) :
  has_char a (s ++ t) = has_char a s || has_char a t.
Proof. apply existsb_app. Qed.

Lemma has_char_moved (a : jschar) (s : jsstring) (x y : mstate) :
  moved Forward x y -> has_char a (after x) = false ->
  has_char a (after y) = false.
Proof.
  intros [w [H _]] Hx. rewrite H, has_char_app in Hx.
  now apply orb_false_elim in Hx.
Qed.

(** A table needs a newline. *)
Lemma pass_tables_no_newline (s : jsstring) :
  has_char ch_nl s = false -> pass_tables s = Ok s.
Proof.
  intros H. apply replace_all_no_match. intros p1 p2 E.
  assert (H2 : has_char ch_nl p2 = false).
  { subst s. rewrite has_char_app in H. now apply orb_false_elim in H. }
  destruct (match_here false tableRegex (rev p1) p2) as [z|] eqn:Hm;
    [exfalso | reflexivity].
  unfold match_here, tableRegex in Hm. rewrite rmatch_group in Hm.
  apply rmatch_seq_reaches in Hm. destruct Hm as [y1 [M1 Hm]].
  apply rmatch_seq_reaches in Hm. destruct Hm as [y2 [M2 Hm]].
  apply rmatch_seq_reaches in Hm. destruct Hm as [y3 [M3 Hm]].
  apply rmatch_seq_reaches in Hm. destruct Hm as [y4 [M4 Hm]].
  pose proof (moved_trans _ _ _ _ (moved_trans _ _ _ _
                (moved_trans _ _ _ _ M1 M2) M3) M4) as M.
  apply (has_char_moved ch_nl s) in M; [|exact H2].
  destruct y4 as [b4 a4 c4]. cbn [after] in M.
  rewrite seq_chr_none in Hm; [discriminate|].
  destruct a4 as [|c a4]; [reflexivity|]. unfold has_char in M.
  cbn [existsb] in M. apply orb_false_elim in M. apply M.
Qed.

Lemma forallb_any_char (s : jsstring) : forallb any_char s = true.
Proof. induction s as [|c s IH]; [reflexivity | exact IH]. Qed.

Lemma forallb_middle (p : jschar -> bool) (w1 w2 : jsstring) (c : jschar) :
  forallb p (w1 ++ c :: w2) = true -> p c = true.
Proof.
  rewrite forallb_app. cbn [forallb]. intros H.
  apply andb_prop in H. destruct H as [_ H].
  apply andb_prop in H. apply H.
Qed.

(** The fenced-block expression matches a whole block without inner
    backticks and captures its content. *)
Lemma codeBlockRegex_match (content : jsstring) :
  forallb (not_char ch_tick) content = true ->
  exists y,
    match_here false codeBlockRegex []
      (js "```" ++ content ++ js "```") = Some y
    /\ before y = rev (js "```" ++ content ++ js "```") ++ []
    /\ caps y = [(1, content)].
Proof.
  intros H. eexists. split; [|split].
  - unfold match_here, codeBlockRegex.
    change (js "```" ++ content ++ js "```")
      with (ch_tick :: ch_tick :: ch_tick :: content ++ js "```").
    do 3 (rewrite rmatch_seq, rmatch_chr; rewrite N.eqb_refl).
    rewrite rmatch_seq, rmatch_group.
    apply star_class_lazy_stops.
    + apply forallb_any_char.
    + intros w1 c w2 E. subst content. apply forallb_middle in H.
      apply seq_chr_none. cbn [set_cap after startsWith].
      unfold not_char in H. now apply negb_true_iff in H.
    + unfold set_cap. cbn [before after caps].
      rewrite text_between_rev. reflexivity.
  - cbn [before]. change (js "```") with [ch_tick; ch_tick; ch_tick].
    rewrite app_nil_r, !rev_app_distr. reflexivity.
  - reflexivity.
Qed.

Lemma pass_code_blocks_fenced (content : jsstring) :
  forallb (not_char ch_tick) content = true ->
  pass_code_blocks (js "```" ++ content ++ js "```")
  = Ok (js "<pre><code>" ++ content ++ js "</code></pre>").
Proof.
  intros H. destruct (codeBlockRegex_match content H) as [y [Hm [Hb Hc]]].
  unfold pass_code_blocks, replace_all.
  rewrite <- (app_nil_r (js "```" ++ content ++ js "```")) in Hm |- *.
  rewrite (pieces_hit _ _ _ _ _ _ Hm Hb) by discriminate.
  rewrite Hc, pieces_miss_nil by reflexivity.
  cbn [render by_template expand get_cap Nat.eqb bind].
  now rewrite !app_nil_r.
Qed.

(** The bold expression matches a marked text without inner asterisks
    and line terminators, and captures it. *)
Lemma boldRegex_match (b x rest : jsstring) :
  forallb is_dot x = true ->
  forallb (not_char ch_star) x = true ->
  exists y,
    match_here false boldRegex b ((js "**" ++ x ++ js "**") ++ rest) = Some y
    /\ before y = rev (js "**" ++ x ++ js "**") ++ b
    /\ caps y = [(1, x)].
Proof.
  intros Hdot H. eexists. split; [|split].
  - unfold match_here, boldRegex.
    replace ((js "**" ++ x ++ js "**") ++ rest)
      with (ch_star :: ch_star :: x ++ js "**" ++ rest)
      by (now rewrite <- !app_assoc).
    do 2 (rewrite rmatch_seq, rmatch_chr; rewrite N.eqb_refl).
    rewrite rmatch_seq, rmatch_group.
    apply star_class_lazy_stops.
    + exact Hdot.
    + intros w1 c w2 E. subst x. apply forallb_middle in H.
      apply seq_chr_none. cbn [set_cap after startsWith].
      unfold not_char in H. now apply negb_true_iff in H.
    + unfold set_cap. cbn [before after caps].
      rewrite text_between_rev. reflexivity.
  - cbn [before]. change (js "**") with [ch_star; ch_star].
    rewrite !rev_app_distr. cbn [rev app]. rewrite <- !app_assoc.
    reflexivity.
  - reflexivity.
Qed.

Lemma boldRegex_none (b s : jsstring) :
  startsWith ch_star s = false -> match_here false boldRegex b s = None.
Proof. apply seq_chr_none. Qed.

Lemma pass_bold_marked (P x Q : jsstring) :
  has_char ch_star P = false ->
  forallb is_dot x = true ->
  forallb (not_char ch_star) x = true ->
  has_char ch_star Q = false ->
  pass_bold (P ++ (js "**" ++ x ++ js "**") ++ Q)
  = Ok (P ++ (js "<strong>" ++ x ++ js "</strong>") ++ Q).
Proof.
  intros HP Hdot Hx HQ.
  destruct (boldRegex_match (rev P ++ []) x Q Hdot Hx) as [y [Hm [Hb Hc]]].
  unfold pass_bold, replace_all.
  rewrite pieces_kept_prefix.
  - rewrite (pieces_hit _ _ _ _ _ _ Hm Hb) by discriminate.
    rewrite Hc, pieces_no_match.
    + rewrite render_kept_app. cbn [render].
      rewrite render_kept.
      cbn [by_template expand get_cap Nat.eqb bind].
      now rewrite !app_nil_r, <- !app_assoc.
    + intros q1 q2 E. apply boldRegex_none.
      exact (has_char_suffix ch_star Q q1 q2 HQ E).
  - intros p1 c p2 E. apply boldRegex_none.
    exact (has_char_suffix ch_star P p1 (c :: p2) HP E).
Qed.

(** A list needs a line start: in a text of one line that begins with
    [<] no list expression matches. *)
Lemma bol_none_mid_line (r : regex) (c : jschar) (b a : jsstring) cs
    (k : cont) :
  is_line_terminator c = false ->
  rmatch true (Group 1 (Plus true (Seq Bol r))) Forward
    (MState (c :: b) a cs) k = None.
Proof.
  intros H. rewrite rmatch_group, rmatch_plus, rmatch_seq, rmatch_bol.
  unfold at_bol. cbn [before]. now rewrite H.
Qed.

Lemma rev_head (p1 : jsstring) (c : jschar) (b : jsstring) :
  rev p1 = c :: b -> p1 = rev b ++ [c].
Proof.
  intros E. apply (f_equal (@rev jschar)) in E.
  now rewrite rev_involutive in E.
Qed.

Lemma one_line_no_list (r : regex) f (s : jsstring) :
  match_here true (Group 1 (Plus true (Seq Bol r))) [] (ch_lt :: s) = None ->
  forallb is_dot (ch_lt :: s) = true ->
  replace_all true (Group 1 (Plus true (Seq Bol r))) f (ch_lt :: s)
  = Ok (ch_lt :: s).
Proof.
  intros H0 Hs. apply replace_all_no_match. intros p1 p2 E.
  destruct (rev p1) as [|c b] eqn:Er.
  - apply (f_equal (@rev jschar)) in Er. rewrite rev_involutive in Er.
    subst p1. cbn [app rev] in E. subst p2. exact H0.
  - apply rev_head in Er. subst p1. rewrite <- app_assoc in E.
    rewrite E in Hs. apply forallb_middle in Hs.
    apply bol_none_mid_line. unfold is_dot in Hs.
    now apply negb_true_iff in Hs.
Qed.

Lemma pass_lists_one_line (s : jsstring) :
  forallb is_dot (ch_lt :: s) = true ->
  pass_lists (ch_lt :: s) = Ok (ch_lt :: s).
Proof. apply one_line_no_list. reflexivity. Qed.

Lemma pass_ordered_lists_one_line (s : jsstring) :
  forallb is_dot (ch_lt :: s) = true ->
  pass_ordered_lists (ch_lt :: s) = Ok (ch_lt :: s).
Proof. apply one_line_no_list. reflexivity. Qed.

Lemma pass_paragraphs_no_newline (s : jsstring) :
  has_char ch_nl s = false -> pass_paragraphs s = Ok s.
Proof.
  intros H. apply replace_all_no_match. intros p1 p2 E.
  apply seq_chr_none. exact (has_char_suffix ch_nl s p1 p2 H E).
Qed.

Lemma with_breaks_no_newline (s : jsstring) :
  has_char ch_nl s = false -> with_breaks s = s.
Proof.
  unfold has_char. induction s as [|c s IH]; [reflexivity|].
  cbn [existsb with_breaks flat_map]. intros H.
  apply orb_false_elim in H. destruct H as [Hc Hs].
  rewrite Hc. cbn [app]. f_equal. now apply IH.
Qed.

Lemma inert_is_dot (c : jschar) : inert c = true -> is_dot c = true.
Proof.
  unfold inert, is_dot. intros H. apply andb_prop in H. apply H.
Qed.

Lemma inert_not_star (c : jschar) :
  inert c = true -> not_char ch_star c = true.
Proof.
  unfold inert, not_char. intros H. apply andb_prop in H.
  destruct H as [H _]. apply andb_prop in H. apply H.
Qed.

Lemma inert_not_tick (c : jschar) :
  inert c = true -> not_char ch_tick c = true.
Proof.
  unfold inert, not_char. intros H. apply andb_prop in H.
  destruct H as [H _]. apply andb_prop in H. apply H.
Qed.

Lemma formatMessage_nonempty (c : jschar) (s : jsstring) :
  formatMessage (Some (c :: s))
  = formattedMsg <- rewrite_passes (c :: s) ;; Ok (wrap_paragraph formattedMsg).
Proof. reflexivity. Qed.

(** Splits a [forallb] over concatenations; the literal parts compute
    and the variable parts follow from [inert]. *)
Ltac all_chars :=
  rewrite ?forallb_app;
  repeat (apply andb_true_intro; split);
  first
    [ reflexivity
    | assumption
    | eapply forallb_weaken; [|eassumption]; intros ? ?;
      first [ now apply inert_is_dot
            | now apply inert_not_star
            | now apply inert_not_tick ] ].




(** * Further properties *)

(** ** What every result looks like *)

Lemma rewrite_passes_breaks (s body : jsstring) :
  rewrite_passes s = Ok body -> exists t, body = with_breaks t.
Proof.
  unfold rewrite_passes.
  destruct (pass_tables s) as [s1|]; [|discriminate]. cbn [bind].
  destruct (pass_code_blocks s1) as [s2|]; [|discriminate]. cbn [bind].
  destruct (pass_inline_code s2) as [s3|]; [|discriminate]. cbn [bind].
  destruct (pass_bold s3) as [s4|]; [|discriminate]. cbn [bind].
  destruct (pass_italic s4) as [s5|]; [|discriminate]. cbn [bind].
  destruct (pass_lists s5) as [s6|]; [|discriminate]. cbn [bind].
  destruct (pass_ordered_lists s6) as [s7|]; [|discriminate]. cbn [bind].
  destruct (pass_paragraphs s7) as [s8|]; [|discriminate]. cbn [bind].
  rewrite pass_line_breaks_spec. intros E. inversion E. now exists s8.
Qed.

Lemma with_breaks_has_no_newline (t : jsstring) :
  has_char ch_nl (with_breaks t) = false.
Proof.
  induction t as [|c t IH]; [reflexivity|].
  cbn [with_breaks flat_map]. fold (with_breaks t).
  rewrite has_char_app, IH, orb_false_r.
  destruct (N.eqb c ch_nl) eqn:E; [reflexivity|].
  unfold has_char. cbn [existsb]. now rewrite E.
Qed.

(** X1. The result never contains a newline: the last pass turns every
    one into a [br] tag, and nothing is added after it but the [p]
    pair. *)
Theorem formatMessage_no_newline (message : option jsstring) :
  exists html,
    formatMessage message = Ok html /\ has_char ch_nl html = false.
Proof.
  destruct message as [[|c s]|]; [now eexists| |now eexists].
  rewrite formatMessage_nonempty.
  destruct (rewrite_passes_total (c :: s)) as [body E]. rewrite E.
  cbn [bind]. eexists. split; [reflexivity|].
  destruct (rewrite_passes_breaks _ _ E) as [t Et]. subst body.
  unfold wrap_paragraph. destruct (negb _).
  - rewrite !has_char_app, with_breaks_has_no_newline. reflexivity.
  - apply with_breaks_has_no_newline.
Qed.

(** X2. For a non-empty string the result begins with [<]; in
    particular it is not empty. *)
Theorem formatMessage_begins_with_angle (c : jschar) (s : jsstring) :
  exists html, formatMessage (Some (c :: s)) = Ok (ch_lt :: html).
Proof.
  rewrite formatMessage_nonempty.
  destruct (rewrite_passes_total (c :: s)) as [body E]. rewrite E.
  cbn [bind]. unfold wrap_paragraph.
  destruct body as [|c0 body]; [now eexists|].
  cbn [startsWith]. destruct (N.eqb c0 ch_lt) eqn:E0; cbn [negb].
  - apply N.eqb_eq in E0. subst c0. now eexists.
  - now eexists.
Qed.

(** ** One line of markup is left alone *)

Lemma inert_no_tick (s : jsstring) :
  forallb inert s = true -> has_char ch_tick s = false.
Proof. apply (forallb_no_char inert). reflexivity. Qed.

Lemma inert_no_star (s : jsstring) :
  forallb inert s = true -> has_char ch_star s = false.
Proof. apply (forallb_no_char inert). reflexivity. Qed.

Lemma inert_no_newline (s : jsstring) :
  forallb inert s = true -> has_char ch_nl s = false.
Proof. apply (forallb_no_char inert). reflexivity. Qed.

Lemma inert_all_dot (s : jsstring) :
  forallb inert s = true -> forallb is_dot s = true.
Proof. apply forallb_weaken. exact inert_is_dot. Qed.

(** The passes after the two code passes leave a line that begins with
    [<] and has no asterisk as it is. *)
Lemma late_passes_html_line (s : jsstring) :
  forallb inert (ch_lt :: s) = true ->
  (x <- pass_bold (ch_lt :: s) ;;
   x <- pass_italic x ;;
   x <- pass_lists x ;;
   x <- pass_ordered_lists x ;;
   x <- pass_paragraphs x ;;
   pass_line_breaks x) = Ok (ch_lt :: s).
Proof.
  intros H.
  rewrite pass_bold_no_star by now apply inert_no_star. cbn [bind].
  rewrite pass_italic_no_star by now apply inert_no_star. cbn [bind].
  rewrite pass_lists_one_line by now apply inert_all_dot. cbn [bind].
  rewrite pass_ordered_lists_one_line by now apply inert_all_dot.
  cbn [bind].
  rewrite pass_paragraphs_no_newline by now apply inert_no_newline.
  cbn [bind].
  rewrite pass_line_breaks_spec, with_breaks_no_newline
    by now apply inert_no_newline.
  reflexivity.
Qed.

Lemma rewrite_passes_html_line (s : jsstring) :
  forallb inert (ch_lt :: s) = true ->
  rewrite_passes (ch_lt :: s) = Ok (ch_lt :: s).
Proof.
  intros H. unfold rewrite_passes.
  rewrite pass_tables_no_newline by now apply inert_no_newline.
  cbn [bind].
  rewrite pass_code_blocks_no_tick by now apply inert_no_tick. cbn [bind].
  rewrite pass_inline_code_no_tick by now apply inert_no_tick. cbn [bind].
  now apply late_passes_html_line.
Qed.

(** X3. A single line that begins with [<] and has no backtick and no
    asterisk is returned as it is: markup the function has written, or
    that the caller has written, passes through. *)
Theorem formatMessage_html_line (s : jsstring) :
  forallb inert (ch_lt :: s) = true ->
  formatMessage (Some (ch_lt :: s)) = Ok (ch_lt :: s).
Proof.
  intros H. rewrite formatMessage_nonempty, rewrite_passes_html_line by exact H.
  reflexivity.
Qed.

Lemma formatMessage_html_line_witness :
  formatMessage (Some (js "<b>1 | 2 - 3</b>")) = Ok (js "<b>1 | 2 - 3</b>").
Proof.
  apply (formatMessage_html_line (js "b>1 | 2 - 3</b>")). reflexivity.
Defined.

(** ** Formatting twice *)

Lemma with_breaks_inert (s : jsstring) :
  has_char ch_tick s = false -> has_char ch_star s = false ->
  breaks_are_newlines s = true ->
  forallb inert (with_breaks s) = true.
Proof.
  unfold has_char, breaks_are_newlines.
  induction s as [|c s IH]; [reflexivity|].
  cbn [existsb forallb with_breaks flat_map]. fold (with_breaks s).
  intros Ht Hs Hb.
  apply orb_false_elim in Ht. destruct Ht as [Ht1 Ht2].
  apply orb_false_elim in Hs. destruct Hs as [Hs1 Hs2].
  apply andb_prop in Hb. destruct Hb as [Hb1 Hb2].
  rewrite forallb_app, IH by assumption. rewrite andb_true_r.
  destruct (N.eqb c ch_nl) eqn:E; [reflexivity|].
  rewrite orb_false_r in Hb1. unfold is_dot in Hb1.
  cbn [forallb]. unfold inert. now rewrite Ht1, Hs1, Hb1.
Qed.

(** X4. On text without markers whose line breaks are newlines the
    function is idempotent: its result is one line of markup, which a
    second call returns as it is. *)
Theorem formatMessage_twice_plain_text (s : jsstring) :
  s <> [] -> plain_text s = true -> breaks_are_newlines s = true ->
  exists html,
    formatMessage (Some s) = Ok html /\ formatMessage (Some html) = Ok html.
Proof.
  intros Hne Hp Hb. destruct s as [|c s]; [contradiction|].
  rewrite formatMessage_nonempty, rewrite_passes_plain_text by exact Hp.
  cbn [bind]. eexists. split; [reflexivity|].
  assert (Hi : forallb inert (with_breaks (c :: s)) = true).
  { unfold plain_text in Hp.
    repeat (apply andb_prop in Hp; destruct Hp as [Hp ?]).
    repeat match goal with
           | Hn : negb _ = true |- _ => apply negb_true_iff in Hn
           end.
    now apply with_breaks_inert. }
  unfold wrap_paragraph.
  destruct (with_breaks (c :: s)) as [|c0 t] eqn:Ew.
  - reflexivity.
  - cbn [startsWith]. destruct (N.eqb c0 ch_lt) eqn:E0; cbn [negb].
    + apply N.eqb_eq in E0. subst c0.
      rewrite formatMessage_nonempty, rewrite_passes_html_line by exact Hi.
      reflexivity.
    + change (js "<p>" ++ (c0 :: t) ++ js "</p>")
        with (ch_lt :: js "p>" ++ (c0 :: t) ++ js "</p>").
      rewrite formatMessage_nonempty, rewrite_passes_html_line; [reflexivity|].
      change (ch_lt :: js "p>" ++ (c0 :: t) ++ js "</p>")
        with (js "<p>" ++ (c0 :: t) ++ js "</p>").
      rewrite !forallb_app, Hi. reflexivity.
Qed.

Lemma formatMessage_twice_plain_text_witness :
  exists html,
    formatMessage (Some (js "hello" ++ [ch_nl] ++ js "world")) = Ok html
    /\ formatMessage (Some html) = Ok html.
Proof.
  apply (formatMessage_twice_plain_text (js "hello" ++ [ch_nl] ++ js "world"));
    [discriminate | reflexivity | reflexivity].
Defined.

(** ** Line prefixes next to markup *)

Lemma bullet_prefix_closed : closed_by_angle bullet_prefix.
Proof.
  intros [|c [|w u]] v; cbn [app bullet_prefix]; try discriminate.
  - destruct v; discriminate.
  - rewrite andb_false_r. discriminate.
  - trivial.
Qed.

Lemma dot_after_digits_closed (u v : jsstring) :
  dot_after_digits (u ++ ch_lt :: v) = true -> dot_after_digits u = true.
Proof.
  induction u as [|c u IH]; cbn [app dot_after_digits].
  - discriminate.
  - destruct (is_digit c); [exact IH|].
    destruct (N.eqb c ch_dot); [|discriminate]. cbn [andb].
    destruct u as [|w u]; cbn [app]; [discriminate | trivial].
Qed.

Lemma numbered_prefix_closed : closed_by_angle numbered_prefix.
Proof.
  intros [|c u] v; cbn [app numbered_prefix]; [discriminate|].
  destruct (is_digit c); [apply dot_after_digits_closed | discriminate].
Qed.

Lemma line_prefix_free_mid_line (P : jsstring -> bool) (v : jsstring) :
  forallb is_dot v = true -> line_prefix_free P false v = true.
Proof.
  induction v as [|c v IH]; [reflexivity|].
  cbn [forallb line_prefix_free]. intros H.
  apply andb_prop in H. destruct H as [Hc Hv].
  unfold is_dot in Hc. apply negb_true_iff in Hc. rewrite Hc.
  cbn [andb orb]. now apply IH.
Qed.

Lemma line_prefix_free_any_lead (P : jsstring -> bool) (s : jsstring) :
  forall lead, line_prefix_free P true s = true ->
               line_prefix_free P lead s = true.
Proof.
  assert (G : forall s l1 l2, (l2 = true -> l1 = true) ->
                line_prefix_free P l1 s = true ->
                line_prefix_free P l2 s = true).
  { clear s. induction s as [|c s IH]; intros l1 l2 Hl H.
    - destruct l2; [|reflexivity]. now rewrite Hl in H.
    - cbn [line_prefix_free] in *. apply andb_prop in H.
      destruct H as [H1 H2]. apply andb_true_intro. split.
      + destruct l2; [|reflexivity]. now rewrite Hl in H1.
      + eapply IH; [|exact H2]. intros E.
        apply orb_prop in E. destruct E as [E|E]; [now rewrite E|].
        apply andb_prop in E. destruct E as [E1 E2].
        rewrite (Hl E1), E2. apply orb_true_r. }
  intros lead. apply G. trivial.
Qed.

(** Markup of one line after a text adds no line prefix to it. *)
Lemma line_prefix_free_app_angle (P : jsstring -> bool) (v : jsstring) :
  closed_by_angle P -> P [] = false -> forallb is_dot v = true ->
  forall t lead,
    line_prefix_free P lead t = true ->
    line_prefix_free P lead (t ++ ch_lt :: v) = true.
Proof.
  intros HP H0 Hv. induction t as [|c t IH]; intros lead H.
  - cbn [app line_prefix_free].
    replace (is_line_terminator ch_lt || lead && is_space ch_lt) with false
      by (now destruct lead).
    rewrite line_prefix_free_mid_line by exact Hv. rewrite andb_true_r.
    destruct lead; [|reflexivity].
    destruct (P (ch_lt :: v)) eqn:E; [|reflexivity].
    apply (HP [] v) in E. congruence.
  - cbn [app line_prefix_free] in *. apply andb_prop in H.
    destruct H as [H1 H2]. rewrite IH by exact H2. rewrite andb_true_r.
    destruct lead; [|reflexivity].
    destruct (P (c :: t ++ ch_lt :: v)) eqn:E; [|reflexivity].
    apply (HP (c :: t) v) in E. now rewrite E in H1.
Qed.

Lemma has_char_false_forallb (a : jschar) (s : jsstring) :
  has_char a s = false -> forallb (not_char a) s = true.
Proof.
  unfold has_char, not_char. induction s as [|c s IH]; [reflexivity|].
  cbn [existsb forallb]. intros H. apply orb_false_elim in H.
  destruct H as [H1 H2]. now rewrite H1, IH.
Qed.

Lemma space_then_newline_no_newline (s : jsstring) :
  has_char ch_nl s = false -> space_then_newline s = false.
Proof.
  unfold has_char. induction s as [|c s IH]; [reflexivity|].
  cbn [existsb space_then_newline]. intros H. apply orb_false_elim in H.
  destruct H as [H1 H2]. now rewrite H1, IH, andb_false_r.
Qed.

Lemma space_then_newline_app_line (t post : jsstring) :
  has_char ch_nl post = false ->
  space_then_newline (t ++ post) = space_then_newline t.
Proof.
  intros H. induction t as [|c t IH]; cbn [app space_then_newline].
  - now apply space_then_newline_no_newline.
  - now rewrite IH.
Qed.

Lemma has_blank_line_no_newline (s : jsstring) :
  has_char ch_nl s = false -> has_blank_line s = false.
Proof.
  unfold has_char. induction s as [|c s IH]; [reflexivity|].
  cbn [existsb has_blank_line]. intros H. apply orb_false_elim in H.
  destruct H as [H1 H2]. now rewrite H1, IH.
Qed.

Lemma has_blank_line_between (pre t post : jsstring) :
  has_char ch_nl pre = false -> has_char ch_nl post = false ->
  has_blank_line (pre ++ t ++ post) = has_blank_line t.
Proof.
  intros Hpre Hpost. induction pre as [|c pre IH].
  - cbn [app]. clear Hpre. induction t as [|c t IH]; cbn [app has_blank_line].
    + now apply has_blank_line_no_newline.
    + now rewrite IH, space_then_newline_app_line.
  - unfold has_char in Hpre. cbn [existsb] in Hpre.
    apply orb_false_elim in Hpre. destruct Hpre as [H1 H2].
    cbn [app has_blank_line]. rewrite H1. now apply IH.
Qed.

Lemma with_breaks_app (s t : jsstring) :
  with_breaks (s ++ t) = with_breaks s ++ with_breaks t.
Proof. apply flat_map_app. Qed.

(** X5. A fenced block whose content has no markers, on one line or on
    several, becomes a [pre]/[code] pair around the content; the code is
    not protected from the last pass, which turns each of its newlines
    into a [br] tag. *)
Theorem formatMessage_fenced_block (t : jsstring) :
  plain_text t = true ->
  formatMessage (Some (js "```" ++ t ++ js "```"))
  = Ok (js "<pre><code>" ++ with_breaks t ++ js "</code></pre>").
Proof.
  intros Hp. unfold plain_text in Hp.
  repeat (apply andb_prop in Hp; destruct Hp as [Hp ?]).
  repeat match goal with
         | Hn : negb _ = true |- _ => apply negb_true_iff in Hn
         end.
  change (js "```" ++ t ++ js "```")
    with (ch_tick :: js "``" ++ t ++ js "```").
  rewrite formatMessage_nonempty.
  change (ch_tick :: js "``" ++ t ++ js "```")
    with (js "```" ++ t ++ js "```").
  unfold rewrite_passes.
  rewrite pass_tables_no_pipe
    by (rewrite !has_char_app, Hp; reflexivity).
  cbn [bind].
  rewrite pass_code_blocks_fenced by now apply has_char_false_forallb.
  cbn [bind].
  rewrite pass_inline_code_no_tick
    by (rewrite !has_char_app; now match goal with
                                   | Ht : has_char ch_tick t = false |- _ =>
                                       rewrite Ht
                                   end).
  cbn [bind].
  assert (Hstar : has_char ch_star (js "<pre><code>" ++ t ++ js "</code></pre>")
                  = false).
  { rewrite !has_char_app.
    now match goal with
        | Hs : has_char ch_star t = false |- _ => rewrite Hs
        end. }
  rewrite pass_bold_no_star by exact Hstar. cbn [bind].
  rewrite pass_italic_no_star by exact Hstar. cbn [bind].
  rewrite pass_lists_no_bullet.
  2:{ change (js "</code></pre>") with (ch_lt :: js "/code></pre>").
      change (line_prefix_free bullet_prefix true
                (js "<pre><code>" ++ t ++ ch_lt :: js "/code></pre>"))
        with (line_prefix_free bullet_prefix false
                (t ++ ch_lt :: js "/code></pre>")).
      apply line_prefix_free_app_angle;
        [apply bullet_prefix_closed | reflexivity | reflexivity|].
      now apply line_prefix_free_any_lead. }
  cbn [bind].
  rewrite pass_ordered_lists_no_number.
  2:{ change (js "</code></pre>") with (ch_lt :: js "/code></pre>").
      change (line_prefix_free numbered_prefix true
                (js "<pre><code>" ++ t ++ ch_lt :: js "/code></pre>"))
        with (line_prefix_free numbered_prefix false
                (t ++ ch_lt :: js "/code></pre>")).
      apply line_prefix_free_app_angle;
        [apply numbered_prefix_closed | reflexivity | reflexivity|].
      now apply line_prefix_free_any_lead. }
  cbn [bind].
  rewrite pass_paragraphs_no_blank_line
    by (now rewrite has_blank_line_between).
  cbn [bind].
  rewrite pass_line_breaks_spec, !with_breaks_app. reflexivity.
Qed.

Lemma formatMessage_fenced_block_witness :
  formatMessage
    (Some (js "```" ++ (js "x = 1" ++ [ch_nl] ++ js "y = x - 2") ++ js "```"))
  = Ok (js "<pre><code>x = 1<br>y = x - 2</code></pre>").
Proof.
  apply (formatMessage_fenced_block (js "x = 1" ++ [ch_nl] ++ js "y = x - 2")).
  reflexivity.
Defined.

(** ** One match in a line *)

Lemma rmatch_seq_backward (ml : bool) (r1 r2 : regex) (x : mstate)
    (k : cont) :
  rmatch ml (Seq r1 r2) Backward x k
  = rmatch ml r2 Backward x (fun y => rmatch ml r1 Backward y k).
Proof. reflexivity. Qed.

Lemma rmatch_neg_lookahead (ml : bool) (r : regex) (d : direction)
    (x : mstate) (k : cont) :
  rmatch ml (NegLookahead r) d x k
  = match rmatch ml r Forward x (fun y => Some y) with
    | Some _ => None
    | None => k x
    end.
Proof. reflexivity. Qed.

(** A greedy star of a class stops at the longest run after which its
    continuation succeeds. *)
Lemma star_class_greedy_stops (ml : bool) (p : jschar -> bool) cs (k : cont)
    (rest : jsstring) (z : mstate) :
  forall (w b : jsstring),
    forallb p w = true ->
    (forall c v, rest = c :: v -> p c = true ->
       rmatch ml (Star true (Class p)) Forward
         (MState (c :: rev w ++ b) v cs) k = None) ->
    k (MState (rev w ++ b) rest cs) = Some z ->
    rmatch ml (Star true (Class p)) Forward (MState b (w ++ rest) cs) k
    = Some z.
Proof.
  induction w as [|c w IH]; intros b Hp Hlong Hk; cbn [app rev forallb] in *.
  - destruct rest as [|c v]; [now rewrite star_class_nil|].
    rewrite star_class_greedy. destruct (p c) eqn:Hc; [|exact Hk].
    now rewrite (Hlong c v eq_refl Hc).
  - apply andb_prop in Hp. destruct Hp as [Hc Hw].
    rewrite star_class_greedy, Hc, (IH (c :: b)); [reflexivity|exact Hw| |].
    + intros c' v E Hc'. rewrite <- app_assoc in Hlong.
      now apply Hlong.
    + now rewrite <- app_assoc in Hk.
Qed.

Lemma star_class_greedy_max (ml : bool) (p : jschar -> bool) cs (k : cont)
    (rest : jsstring) (z : mstate) (w b : jsstring) :
  forallb p w = true ->
  (forall c v, rest = c :: v -> p c = false) ->
  k (MState (rev w ++ b) rest cs) = Some z ->
  rmatch ml (Star true (Class p)) Forward (MState b (w ++ rest) cs) k
  = Some z.
Proof.
  intros Hw Hr. apply star_class_greedy_stops; [exact Hw|].
  intros c v E Hc. rewrite (Hr c v E) in Hc. discriminate.
Qed.

Section OneHit.

Variable ml : bool.
Variable r : regex.
Variable f : jsstring -> list (nat * jsstring) -> result jsstring.

(** A [replace] with exactly one match, of the text [w] between [P]
    and [Q]. *)
Lemma replace_all_one_hit (P w Q out : jsstring) (y : mstate) :
  (forall p1 c p2, P = p1 ++ c :: p2 ->
     match_here ml r (rev p1) (c :: p2 ++ w ++ Q) = None) ->
  match_here ml r (rev P) (w ++ Q) = Some y ->
  before y = rev w ++ rev P ->
  w <> [] ->
  (forall q1 q2, Q = q1 ++ q2 ->
     match_here ml r (rev q1 ++ rev w ++ rev P) q2 = None) ->
  f w (caps y) = Ok out ->
  replace_all ml r f (P ++ w ++ Q) = Ok (P ++ out ++ Q).
Proof.
  intros HP Hm Hb Hw HQ Hf. unfold replace_all.
  rewrite pieces_kept_prefix.
  - rewrite app_nil_r, (pieces_hit _ _ _ _ _ _ Hm Hb Hw), pieces_no_match.
    + rewrite render_kept_app. cbn [render]. rewrite Hf, render_kept.
      reflexivity.
    + exact HQ.
  - intros p1 c p2 E. rewrite app_nil_r. now apply HP.
Qed.

End OneHit.

(** ** How many markers an expression needs *)

Lemma count_char_app (a : jschar) (s t : jsstring) :
  count_char a (s ++ t) = count_char a s + count_char a t.
Proof. unfold count_char. now rewrite filter_app, length_app. Qed.

Lemma count_char_cons (a c : jschar) (s : jsstring) :
  count_char a (c :: s)
  = (if N.eqb c a then 1 else 0) + count_char a s.
Proof. unfold count_char. cbn [filter]. now destruct (N.eqb c a). Qed.

Lemma count_char_none (a : jschar) (s : jsstring) :
  has_char a s = false -> count_char a s = 0.
Proof.
  unfold has_char. induction s as [|c s IH]; [reflexivity|].
  cbn [existsb]. intros H. apply orb_false_elim in H. destruct H as [H1 H2].
  now rewrite count_char_cons, H1, IH.
Qed.

Lemma count_char_moved (a : jschar) (x y : mstate) :
  moved Forward x y -> count_char a (after y) <= count_char a (after x).
Proof. intros [w [H _]]. rewrite H, count_char_app. lia. Qed.

(** A fenced block needs six backticks. *)
Lemma codeBlockRegex_needs_ticks (b a : jsstring) (y : mstate) :
  match_here false codeBlockRegex b a = Some y -> 6 <= count_char ch_tick a.
Proof.
  unfold match_here, codeBlockRegex. intros H.
  do 3 (rewrite rmatch_seq, rmatch_chr in H;
        destruct a as [|? a]; [discriminate|];
        destruct (N.eqb _ ch_tick) eqn:?; [|discriminate];
        rewrite count_char_cons;
        match goal with E : N.eqb _ ch_tick = true |- _ => rewrite E; clear E end).
  apply rmatch_seq_reaches in H. destruct H as [y1 [M H]].
  apply count_char_moved with (a := ch_tick) in M. cbn [after] in M.
  destruct y1 as [b1 a1 c1]. cbn [after] in M.
  do 3 (rewrite ?rmatch_seq, rmatch_chr in H;
        destruct a1 as [|? a1]; [discriminate|];
        destruct (N.eqb _ ch_tick) eqn:?; [|discriminate];
        rewrite count_char_cons in M;
        match goal with E : N.eqb _ ch_tick = true |- _ => rewrite E in M; clear E end).
  lia.
Qed.

Lemma count_char_suffix (a : jschar) (s p1 p2 : jsstring) :
  s = p1 ++ p2 -> count_char a p2 <= count_char a s.
Proof. intros E. subst s. rewrite count_char_app. lia. Qed.

Lemma pass_code_blocks_few_ticks (s : jsstring) :
  count_char ch_tick s < 6 -> pass_code_blocks s = Ok s.
Proof.
  intros H. apply replace_all_no_match. intros p1 p2 E.
  destruct (match_here false codeBlockRegex (rev p1) p2) eqn:Hm;
    [|reflexivity].
  apply codeBlockRegex_needs_ticks in Hm.
  pose proof (count_char_suffix ch_tick s p1 p2 E). lia.
Qed.

(** Bold text needs four asterisks. *)
Lemma boldRegex_needs_stars (b a : jsstring) (y : mstate) :
  match_here false boldRegex b a = Some y -> 4 <= count_char ch_star a.
Proof.
  unfold match_here, boldRegex. intros H.
  do 2 (rewrite rmatch_seq, rmatch_chr in H;
        destruct a as [|? a]; [discriminate|];
        destruct (N.eqb _ ch_star) eqn:?; [|discriminate];
        rewrite count_char_cons;
        match goal with E : N.eqb _ ch_star = true |- _ => rewrite E; clear E end).
  apply rmatch_seq_reaches in H. destruct H as [y1 [M H]].
  apply count_char_moved with (a := ch_star) in M. cbn [after] in M.
  destruct y1 as [b1 a1 c1]. cbn [after] in M.
  do 2 (rewrite ?rmatch_seq, rmatch_chr in H;
        destruct a1 as [|? a1]; [discriminate|];
        destruct (N.eqb _ ch_star) eqn:?; [|discriminate];
        rewrite count_char_cons in M;
        match goal with E : N.eqb _ ch_star = true |- _ => rewrite E in M; clear E end).
  lia.
Qed.

Lemma pass_bold_few_stars (s : jsstring) :
  count_char ch_star s < 4 -> pass_bold s = Ok s.
Proof.
  intros H. apply replace_all_no_match. intros p1 p2 E.
  destruct (match_here false boldRegex (rev p1) p2) eqn:Hm; [|reflexivity].
  apply boldRegex_needs_stars in Hm.
  pose proof (count_char_suffix ch_star s p1 p2 E). lia.
Qed.

Lemma plus_class_greedy_max (ml : bool) (p : jschar -> bool) cs (k : cont)
    (rest : jsstring) (z : mstate) (w b : jsstring) :
  w <> [] ->
  forallb p w = true ->
  (forall c v, rest = c :: v -> p c = false) ->
  k (MState (rev w ++ b) rest cs) = Some z ->
  rmatch ml (Plus true (Class p)) Forward (MState b (w ++ rest) cs) k
  = Some z.
Proof.
  intros Hne Hw Hr Hk. destruct w as [|c w]; [contradiction|].
  cbn [forallb] in Hw. apply andb_prop in Hw. destruct Hw as [Hc Hw].
  cbn [app]. rewrite rmatch_plus, rmatch_class, Hc.
  apply star_class_greedy_max; [exact Hw | exact Hr|].
  cbn [rev] in Hk. now rewrite <- app_assoc in Hk.
Qed.

Section Marked.

Variable ml : bool.
Variable r : regex.
Variable f : jsstring -> list (nat * jsstring) -> result jsstring.
Variable a : jschar.

Hypothesis r_begins_with_a :
  forall b s, startsWith a s = false -> match_here ml r b s = None.

(** A [replace] whose expression begins with the character [a], in a
    text where [a] occurs only in the one match [w]. *)
Lemma replace_all_marked (P w Q out : jsstring) (y : mstate) :
  has_char a P = false -> has_char a Q = false ->
  match_here ml r (rev P) (w ++ Q) = Some y ->
  before y = rev w ++ rev P ->
  w <> [] ->
  f w (caps y) = Ok out ->
  replace_all ml r f (P ++ w ++ Q) = Ok (P ++ out ++ Q).
Proof.
  intros HP HQ Hm Hb Hw Hf.
  apply (replace_all_one_hit ml r f P w Q out y); try assumption.
  - intros p1 c p2 E. apply r_begins_with_a.
    exact (has_char_suffix a P p1 (c :: p2) HP E).
  - intros q1 q2 E. apply r_begins_with_a.
    exact (has_char_suffix a Q q1 q2 HQ E).
Qed.

End Marked.

Lemma formatMessage_bind (s : jsstring) :
  s <> [] ->
  formatMessage (Some s)
  = formattedMsg <- rewrite_passes s ;; Ok (wrap_paragraph formattedMsg).
Proof. destruct s; [contradiction | reflexivity]. Qed.

Lemma app_marker_nonempty (p m rest : jsstring) :
  m <> [] -> p ++ m ++ rest <> [].
Proof. destruct p, m; try discriminate. contradiction. Qed.

(** ** The passes after the emphasis passes, on one line *)

Lemma plain_line_parts (p : jsstring) :
  plain_line p = true ->
  forallb inert p = true
  /\ line_prefix_free bullet_prefix true p = true
  /\ line_prefix_free numbered_prefix true p = true.
Proof.
  unfold plain_line. intros H.
  apply andb_prop in H. destruct H as [H H3].
  apply andb_prop in H. destruct H as [H1 H2]. auto.
Qed.

Lemma list_passes_plain_line (p v : jsstring) :
  plain_line p = true -> forallb inert v = true ->
  (x <- pass_lists (p ++ ch_lt :: v) ;;
   x <- pass_ordered_lists x ;;
   x <- pass_paragraphs x ;;
   pass_line_breaks x) = Ok (p ++ ch_lt :: v).
Proof.
  intros Hp Hv. apply plain_line_parts in Hp. destruct Hp as [Hi [Hb Hn]].
  assert (Hnl : has_char ch_nl (p ++ ch_lt :: v) = false).
  { apply inert_no_newline. rewrite forallb_app, Hi. exact Hv. }
  rewrite pass_lists_no_bullet
    by (apply line_prefix_free_app_angle;
        [apply bullet_prefix_closed | reflexivity
        | now apply inert_all_dot | exact Hb]).
  cbn [bind].
  rewrite pass_ordered_lists_no_number
    by (apply line_prefix_free_app_angle;
        [apply numbered_prefix_closed | reflexivity
        | now apply inert_all_dot | exact Hn]).
  cbn [bind].
  rewrite pass_paragraphs_no_newline by exact Hnl. cbn [bind].
  now rewrite pass_line_breaks_spec, with_breaks_no_newline.
Qed.

Lemma emphasis_passes_plain_line (p v : jsstring) :
  plain_line p = true -> forallb inert v = true ->
  (x <- pass_bold (p ++ ch_lt :: v) ;;
   x <- pass_italic x ;;
   x <- pass_lists x ;;
   x <- pass_ordered_lists x ;;
   x <- pass_paragraphs x ;;
   pass_line_breaks x) = Ok (p ++ ch_lt :: v).
Proof.
  intros Hp Hv.
  assert (Hs : has_char ch_star (p ++ ch_lt :: v) = false).
  { apply inert_no_star. apply plain_line_parts in Hp.
    destruct Hp as [Hi _]. rewrite forallb_app, Hi. exact Hv. }
  rewrite pass_bold_no_star by exact Hs. cbn [bind].
  rewrite pass_italic_no_star by exact Hs. cbn [bind].
  now apply list_passes_plain_line.
Qed.

(** ** Inline code in a line *)

Lemma inlineCodeRegex_none (b s : jsstring) :
  startsWith ch_tick s = false -> match_here false inlineCodeRegex b s = None.
Proof. apply seq_chr_none. Qed.

Lemma inlineCodeRegex_match (b t rest : jsstring) :
  t <> [] ->
  forallb (not_char ch_tick) t = true ->
  exists y,
    match_here false inlineCodeRegex b ((js "`" ++ t ++ js "`") ++ rest)
    = Some y
    /\ before y = rev (js "`" ++ t ++ js "`") ++ b
    /\ caps y = [(1, t)].
Proof.
  intros Hne H. eexists. split; [|split].
  - unfold match_here, inlineCodeRegex.
    replace ((js "`" ++ t ++ js "`") ++ rest)
      with (ch_tick :: t ++ ch_tick :: rest)
      by (cbn [js list_ascii_of_string map app]; now rewrite <- app_assoc).
    rewrite rmatch_seq, rmatch_chr, N.eqb_refl, rmatch_seq, rmatch_group.
    apply plus_class_greedy_max; [exact Hne | exact H | |].
    + intros c v E. inversion E. reflexivity.
    + unfold set_cap. cbn [before after caps].
      rewrite text_between_rev. reflexivity.
  - cbn [before]. change (js "`") with [ch_tick].
    rewrite !rev_app_distr. cbn [rev app]. rewrite <- !app_assoc.
    reflexivity.
  - reflexivity.
Qed.

Lemma pass_inline_code_marked (P t Q : jsstring) :
  has_char ch_tick P = false -> t <> [] ->
  forallb (not_char ch_tick) t = true -> has_char ch_tick Q = false ->
  pass_inline_code (P ++ (js "`" ++ t ++ js "`") ++ Q)
  = Ok (P ++ (js "<code>" ++ t ++ js "</code>") ++ Q).
Proof.
  intros HP Hne Ht HQ.
  destruct (inlineCodeRegex_match (rev P) t Q Hne Ht) as [y [Hm [Hb Hc]]].
  apply (replace_all_marked false inlineCodeRegex _ ch_tick
           inlineCodeRegex_none P _ Q _ y HP HQ Hm Hb).
  - discriminate.
  - rewrite Hc. reflexivity.
Qed.

(** The passes on a line with inline code, up to the test of the first
    character. *)
Lemma inline_code_line_passes (p t q : jsstring) :
  plain_line p = true -> t <> [] -> forallb inert t = true ->
  forallb inert q = true ->
  formatMessage (Some (p ++ js "`" ++ t ++ js "`" ++ q))
  = Ok (wrap_paragraph (p ++ js "<code>" ++ t ++ js "</code>" ++ q)).
Proof.
  intros Hp Hne Ht Hq.
  destruct (plain_line_parts p Hp) as [Hi _].
  rewrite formatMessage_bind by (apply app_marker_nonempty; discriminate).
  unfold rewrite_passes.
  rewrite pass_tables_no_newline
    by (apply (forallb_no_char is_dot); [reflexivity | all_chars]).
  cbn [bind].
  rewrite pass_code_blocks_few_ticks.
  2:{ rewrite !count_char_app, (count_char_none ch_tick p),
        (count_char_none ch_tick t), (count_char_none ch_tick q)
        by (now apply inert_no_tick).
      cbn. lia. }
  cbn [bind].
  replace (p ++ js "`" ++ t ++ js "`" ++ q)
    with (p ++ (js "`" ++ t ++ js "`") ++ q)
    by (now rewrite <- !app_assoc).
  rewrite pass_inline_code_marked;
    [ | now apply inert_no_tick | exact Hne | all_chars
      | now apply inert_no_tick].
  cbn [bind].
  replace (p ++ (js "<code>" ++ t ++ js "</code>") ++ q)
    with (p ++ ch_lt :: js "code>" ++ t ++ js "</code>" ++ q)
    by (now rewrite <- !app_assoc).
  rewrite emphasis_passes_plain_line; [reflexivity | exact Hp | all_chars].
Qed.

(** X6. Inline code in a line of text: the backticks and the text
    between them become a [code] element and the rest of the line is
    kept.  The line is put in a [p] pair when text that does not begin
    with [<] comes before the code; a line that begins with the code
    itself or with [<] is returned without the pair. *)
Theorem formatMessage_inline_code_in_line (p t q : jsstring) :
  plain_line p = true -> t <> [] -> forallb inert t = true ->
  forallb inert q = true ->
  formatMessage (Some (p ++ js "`" ++ t ++ js "`" ++ q))
  = Ok (match p with
        | [] => js "<code>" ++ t ++ js "</code>" ++ q
        | c :: _ =>
            if N.eqb c ch_lt
            then p ++ js "<code>" ++ t ++ js "</code>" ++ q
            else js "<p>" ++ p ++ js "<code>" ++ t ++ js "</code>" ++ q
                   ++ js "</p>"
        end).
Proof.
  intros Hp Hne Ht Hq.
  rewrite inline_code_line_passes by assumption. unfold wrap_paragraph.
  destruct p as [|c p]; [reflexivity|]. cbn [app startsWith].
  destruct (N.eqb c ch_lt); cbn [negb]; [reflexivity|].
  cbn [app]. now rewrite <- !app_assoc.
Qed.

Lemma formatMessage_inline_code_in_line_witness :
  formatMessage (Some (js "run `make -j4` first"))
  = Ok (js "<p>run <code>make -j4</code> first</p>").
Proof.
  apply (formatMessage_inline_code_in_line
           (js "run ") (js "make -j4") (js " first"));
    [reflexivity | discriminate | reflexivity | reflexivity].
Defined.

(** ** Bold text in a line *)

(** The passes on a line with bold text, up to the test of the first
    character. *)
Lemma bold_line_passes (p t q : jsstring) :
  plain_line p = true -> forallb inert t = true -> forallb inert q = true ->
  formatMessage (Some (p ++ js "**" ++ t ++ js "**" ++ q))
  = Ok (wrap_paragraph (p ++ js "<strong>" ++ t ++ js "</strong>" ++ q)).
Proof.
  intros Hp Ht Hq.
  destruct (plain_line_parts p Hp) as [Hi _].
  rewrite formatMessage_bind by (apply app_marker_nonempty; discriminate).
  unfold rewrite_passes.
  rewrite pass_tables_no_newline
    by (apply (forallb_no_char is_dot); [reflexivity | all_chars]).
  cbn [bind].
  rewrite pass_code_blocks_no_tick
    by (apply (forallb_no_char (not_char ch_tick)); [reflexivity | all_chars]).
  cbn [bind].
  rewrite pass_inline_code_no_tick
    by (apply (forallb_no_char (not_char ch_tick)); [reflexivity | all_chars]).
  cbn [bind].
  replace (p ++ js "**" ++ t ++ js "**" ++ q)
    with (p ++ (js "**" ++ t ++ js "**") ++ q)
    by (now rewrite <- !app_assoc).
  rewrite pass_bold_marked;
    [ | now apply inert_no_star | all_chars | all_chars
      | now apply inert_no_star].
  cbn [bind].
  rewrite pass_italic_no_star
    by (apply (forallb_no_char (not_char ch_star)); [reflexivity | all_chars]).
  cbn [bind].
  replace (p ++ (js "<strong>" ++ t ++ js "</strong>") ++ q)
    with (p ++ ch_lt :: js "strong>" ++ t ++ js "</strong>" ++ q)
    by (now rewrite <- !app_assoc).
  rewrite list_passes_plain_line; [reflexivity | exact Hp | all_chars].
Qed.

(** X7. Bold text in a line: the two pairs of asterisks and the text
    between them, which may be empty, become a [strong] element and the
    rest of the line is kept.  The line is put in a [p] pair when text
    that does not begin with [<] comes before the markers; a line that
    begins with the markers or with [<] is returned without the
    pair. *)
Theorem formatMessage_bold_in_line (p t q : jsstring) :
  plain_line p = true -> forallb inert t = true -> forallb inert q = true ->
  formatMessage (Some (p ++ js "**" ++ t ++ js "**" ++ q))
  = Ok (match p with
        | [] => js "<strong>" ++ t ++ js "</strong>" ++ q
        | c :: _ =>
            if N.eqb c ch_lt
            then p ++ js "<strong>" ++ t ++ js "</strong>" ++ q
            else js "<p>" ++ p ++ js "<strong>" ++ t ++ js "</strong>" ++ q
                   ++ js "</p>"
        end).
Proof.
  intros Hp Ht Hq.
  rewrite bold_line_passes by assumption. unfold wrap_paragraph.
  destruct p as [|c p]; [reflexivity|]. cbn [app startsWith].
  destruct (N.eqb c ch_lt); cbn [negb]; [reflexivity|].
  cbn [app]. now rewrite <- !app_assoc.
Qed.

Lemma formatMessage_bold_in_line_witness :
  formatMessage (Some (js "this is **very** important"))
  = Ok (js "<p>this is <strong>very</strong> important</p>").
Proof.
  apply (formatMessage_bold_in_line
           (js "this is ") (js "very") (js " important")); reflexivity.
Defined.

(** ** Italic text in a line *)

Lemma has_char_rev (a : jschar) (s : jsstring) :
  has_char a (rev s) = has_char a s.
Proof.
  induction s as [|c s IH]; [reflexivity|].
  cbn [rev]. rewrite has_char_app, IH. unfold has_char. cbn [existsb].
  rewrite orb_false_r. apply orb_comm.
Qed.

Lemma has_char_here (a : jschar) (s t : jsstring) :
  has_char a (s ++ a :: t) = true.
Proof.
  rewrite has_char_app. unfold has_char at 2. cbn [existsb].
  rewrite N.eqb_refl. apply orb_true_r.
Qed.

(** The lookbehind of the italic expression lets a position pass when
    no [<] is before it. *)
Lemma italic_lookbehind_passes (b s : jsstring) cs (k : cont) :
  has_char ch_lt b = false ->
  rmatch false
    (NegLookbehind (Seq (Chr ch_lt) (Star true (Class (not_char ch_gt)))))
    Forward (MState b s cs) k
  = k (MState b s cs).
Proof.
  intros H. rewrite rmatch_neg_lookbehind.
  destruct (rmatch false _ Backward _ _) as [z|] eqn:E; [exfalso|reflexivity].
  rewrite rmatch_seq_backward in E. apply rmatch_reaches in E.
  destruct E as [y [[w [H1 _]] E]]. cbn [before] in H1.
  cbn [rmatch] in E. unfold step_char in E.
  destruct (before y) as [|c by_]; [discriminate|].
  destruct (is_char ch_lt c) eqn:Ec; [|discriminate].
  unfold is_char in Ec. apply N.eqb_eq in Ec. subst c.
  rewrite H1, has_char_here in H. discriminate.
Qed.

(** Its lookahead lets a match pass when no [>] follows. *)
Lemma italic_lookahead_passes (b s : jsstring) cs (k : cont) :
  has_char ch_gt s = false ->
  rmatch false
    (NegLookahead (Seq (Star true (Class (not_char ch_lt))) (Chr ch_gt)))
    Forward (MState b s cs) k
  = k (MState b s cs).
Proof.
  intros H. rewrite rmatch_neg_lookahead.
  destruct (rmatch false _ Forward _ _) as [z|] eqn:E; [exfalso|reflexivity].
  apply rmatch_seq_reaches in E. destruct E as [y [[w [H1 _]] E]].
  cbn [after] in H1. destruct y as [by_ ay cy]. rewrite rmatch_chr in E.
  cbn [after] in H1. destruct ay as [|c ay]; [discriminate|].
  destruct (N.eqb c ch_gt) eqn:Ec; [|discriminate].
  apply N.eqb_eq in Ec. subst c.
  rewrite H1, has_char_here in H. discriminate.
Qed.

Lemma italicRegex_none (b s : jsstring) :
  startsWith ch_star s = false -> match_here false italicRegex b s = None.
Proof.
  intros H. unfold match_here, italicRegex.
  rewrite rmatch_seq, rmatch_neg_lookbehind.
  destruct (rmatch false _ Backward _ _); [reflexivity|].
  now apply seq_chr_none.
Qed.

Lemma italicRegex_match (b t rest : jsstring) :
  has_char ch_lt b = false ->
  forallb is_dot t = true ->
  forallb (not_char ch_star) t = true ->
  has_char ch_gt rest = false ->
  exists y,
    match_here false italicRegex b ((js "*" ++ t ++ js "*") ++ rest) = Some y
    /\ before y = rev (js "*" ++ t ++ js "*") ++ b
    /\ caps y = [(1, t)].
Proof.
  intros Hb Hdot Ht Hrest. eexists. split; [|split].
  - unfold match_here, italicRegex.
    rewrite rmatch_seq, italic_lookbehind_passes by exact Hb.
    replace ((js "*" ++ t ++ js "*") ++ rest)
      with (ch_star :: t ++ ch_star :: rest)
      by (cbn [js list_ascii_of_string map app]; now rewrite <- app_assoc).
    rewrite rmatch_seq, rmatch_chr, N.eqb_refl, rmatch_seq, rmatch_group.
    apply star_class_lazy_stops.
    + exact Hdot.
    + intros w1 c w2 E. subst t. apply forallb_middle in Ht.
      apply seq_chr_none. cbn [set_cap after startsWith].
      unfold not_char in Ht. now apply negb_true_iff in Ht.
    + unfold set_cap. cbn [before after caps].
      rewrite text_between_rev, rmatch_seq, rmatch_chr, N.eqb_refl.
      rewrite italic_lookahead_passes by exact Hrest. reflexivity.
  - cbn [before]. change (js "*") with [ch_star].
    rewrite !rev_app_distr. cbn [rev app]. rewrite <- !app_assoc.
    reflexivity.
  - reflexivity.
Qed.

Lemma pass_italic_marked (P t Q : jsstring) :
  has_char ch_star P = false -> has_char ch_lt P = false ->
  forallb is_dot t = true -> forallb (not_char ch_star) t = true ->
  has_char ch_star Q = false -> has_char ch_gt Q = false ->
  pass_italic (P ++ (js "*" ++ t ++ js "*") ++ Q)
  = Ok (P ++ (js "<em>" ++ t ++ js "</em>") ++ Q).
Proof.
  intros HP HPlt Hdot Ht HQ HQgt.
  destruct (italicRegex_match (rev P) t Q) as [y [Hm [Hb Hc]]];
    try assumption; [now rewrite has_char_rev|].
  apply (replace_all_marked false italicRegex _ ch_star
           italicRegex_none P _ Q _ y HP HQ Hm Hb).
  - discriminate.
  - rewrite Hc. reflexivity.
Qed.

(** The passes on a line with italic text, up to the test of the
    first character. *)
Lemma italic_line_passes (p t q : jsstring) :
  plain_line p = true -> has_char ch_lt p = false ->
  forallb inert t = true ->
  forallb inert q = true -> has_char ch_gt q = false ->
  formatMessage (Some (p ++ js "*" ++ t ++ js "*" ++ q))
  = Ok (wrap_paragraph (p ++ js "<em>" ++ t ++ js "</em>" ++ q)).
Proof.
  intros Hp Hlt Ht Hq Hgt.
  destruct (plain_line_parts p Hp) as [Hi _].
  rewrite formatMessage_bind by (apply app_marker_nonempty; discriminate).
  unfold rewrite_passes.
  rewrite pass_tables_no_newline
    by (apply (forallb_no_char is_dot); [reflexivity | all_chars]).
  cbn [bind].
  rewrite pass_code_blocks_no_tick
    by (apply (forallb_no_char (not_char ch_tick)); [reflexivity | all_chars]).
  cbn [bind].
  rewrite pass_inline_code_no_tick
    by (apply (forallb_no_char (not_char ch_tick)); [reflexivity | all_chars]).
  cbn [bind].
  rewrite pass_bold_few_stars.
  2:{ rewrite !count_char_app, (count_char_none ch_star p),
        (count_char_none ch_star t), (count_char_none ch_star q)
        by (now apply inert_no_star).
      cbn. lia. }
  cbn [bind].
  replace (p ++ js "*" ++ t ++ js "*" ++ q)
    with (p ++ (js "*" ++ t ++ js "*") ++ q)
    by (now rewrite <- !app_assoc).
  rewrite pass_italic_marked;
    [ | now apply inert_no_star | exact Hlt | all_chars | all_chars
      | now apply inert_no_star | exact Hgt].
  cbn [bind].
  replace (p ++ (js "<em>" ++ t ++ js "</em>") ++ q)
    with (p ++ ch_lt :: js "em>" ++ t ++ js "</em>" ++ q)
    by (now rewrite <- !app_assoc).
  rewrite list_passes_plain_line; [reflexivity | exact Hp | all_chars].
Qed.

(** X8. Italic text in a line with no [<] before it and no [>] after
    it: the two asterisks and the text between them, which may be
    empty, become an [em] element and the rest of the line is kept.
    The line is put in a [p] pair when text comes before the markers; a
    line that begins with the markers is returned without the pair. *)
Theorem formatMessage_italic_in_line (p t q : jsstring) :
  plain_line p = true -> has_char ch_lt p = false ->
  forallb inert t = true ->
  forallb inert q = true -> has_char ch_gt q = false ->
  formatMessage (Some (p ++ js "*" ++ t ++ js "*" ++ q))
  = Ok (match p with
        | [] => js "<em>" ++ t ++ js "</em>" ++ q
        | _ :: _ =>
            js "<p>" ++ p ++ js "<em>" ++ t ++ js "</em>" ++ q ++ js "</p>"
        end).
Proof.
  intros Hp Hlt Ht Hq Hgt.
  rewrite italic_line_passes by assumption. unfold wrap_paragraph.
  destruct p as [|c p]; [reflexivity|]. cbn [app startsWith].
  unfold has_char in Hlt. cbn [existsb] in Hlt.
  apply orb_false_elim in Hlt. destruct Hlt as [Hc _]. rewrite Hc.
  cbn [negb app]. now rewrite <- !app_assoc.
Qed.

Lemma formatMessage_italic_in_line_witness :
  formatMessage (Some (js "a *small* step"))
  = Ok (js "<p>a <em>small</em> step</p>").
Proof.
  apply (formatMessage_italic_in_line (js "a ") (js "small") (js " step"));
    reflexivity.
Defined.

(** ** A blank line between two lines *)

Lemma marker_free_parts (s : jsstring) :
  marker_free s = true ->
  has_char ch_pipe s = false /\ has_char ch_tick s = false
  /\ has_char ch_star s = false
  /\ line_prefix_free bullet_prefix true s = true
  /\ line_prefix_free numbered_prefix true s = true.
Proof.
  unfold marker_free. intros H.
  repeat (apply andb_prop in H; destruct H as [H ?]).
  repeat match goal with
         | Hn : negb _ = true |- _ => apply negb_true_iff in Hn
         end.
  auto.
Qed.

(** The first seven passes keep text without their markers. *)
Lemma early_passes_marker_free (s : jsstring) :
  marker_free s = true ->
  rewrite_passes s = (x <- pass_paragraphs s ;; pass_line_breaks x).
Proof.
  intros H. apply marker_free_parts in H.
  destruct H as [H1 [H2 [H3 [H4 H5]]]]. unfold rewrite_passes.
  rewrite pass_tables_no_pipe by assumption. cbn [bind].
  rewrite pass_code_blocks_no_tick by assumption. cbn [bind].
  rewrite pass_inline_code_no_tick by assumption. cbn [bind].
  rewrite pass_bold_no_star by assumption. cbn [bind].
  rewrite pass_italic_no_star by assumption. cbn [bind].
  rewrite pass_lists_no_bullet by assumption. cbn [bind].
  rewrite pass_ordered_lists_no_number by assumption. reflexivity.
Qed.

Lemma paragraphRegex_none (b s : jsstring) :
  startsWith ch_nl s = false -> match_here false paragraphRegex b s = None.
Proof. apply seq_chr_none. Qed.

(** The paragraph expression matches a newline, white space and the
    last newline before a line without one. *)
Lemma paragraphRegex_match (b ws q : jsstring) :
  forallb is_space ws = true -> has_char ch_nl q = false ->
  match_here false paragraphRegex b ((ch_nl :: ws ++ [ch_nl]) ++ q)
  = Some (MState (rev (ch_nl :: ws ++ [ch_nl]) ++ b) q []).
Proof.
  intros Hws Hq. unfold match_here, paragraphRegex.
  cbn [app]. rewrite <- app_assoc. cbn [app].
  rewrite rmatch_seq, rmatch_chr, N.eqb_refl, rmatch_seq.
  apply star_class_greedy_stops.
  - exact Hws.
  - intros c v E _. inversion E; subst c v. apply star_class_none.
    intros w rest E' _. rewrite rmatch_chr.
    pose proof (has_char_suffix ch_nl q w rest Hq E') as Hs.
    destruct rest as [|c rest]; [reflexivity|]. cbn [startsWith] in Hs.
    now rewrite Hs.
  - rewrite rmatch_chr, N.eqb_refl. cbn [rev]. rewrite !rev_app_distr.
    cbn [rev app]. rewrite <- !app_assoc. reflexivity.
Qed.

(** X9. Two lines of text with a blank line between them, which may
    hold white space, become two paragraphs: the blank line is replaced
    by the closing and the opening tag, and the [p] pair around the
    whole closes the first and opens the second. *)
Theorem formatMessage_paragraph_break (p ws q : jsstring) :
  marker_free (p ++ [ch_nl] ++ ws ++ [ch_nl] ++ q) = true ->
  p <> [] -> startsWith ch_lt p = false ->
  has_char ch_nl p = false -> forallb is_space ws = true ->
  has_char ch_nl q = false ->
  formatMessage (Some (p ++ [ch_nl] ++ ws ++ [ch_nl] ++ q))
  = Ok (js "<p>" ++ p ++ js "</p><p>" ++ q ++ js "</p>").
Proof.
  intros Hm Hne Hlt Hp Hws Hq.
  rewrite formatMessage_bind by (destruct p; [contradiction | discriminate]).
  rewrite early_passes_marker_free by exact Hm.
  replace (p ++ [ch_nl] ++ ws ++ [ch_nl] ++ q)
    with (p ++ (ch_nl :: ws ++ [ch_nl]) ++ q)
    by (cbn [app]; now rewrite <- !app_assoc).
  unfold pass_paragraphs.
  rewrite (replace_all_marked false paragraphRegex _ ch_nl
             paragraphRegex_none p _ q (js "</p><p>") _ Hp Hq
             (paragraphRegex_match (rev p) ws q Hws Hq));
    [ | reflexivity | discriminate | reflexivity].
  cbn [bind].
  rewrite pass_line_breaks_spec, with_breaks_no_newline
    by (rewrite !has_char_app, Hp, Hq; reflexivity).
  cbn [bind]. unfold wrap_paragraph.
  destruct p as [|c p]; [contradiction|]. cbn [app startsWith] in *.
  rewrite Hlt. cbn [negb]. now rewrite <- !app_assoc.
Qed.

Lemma formatMessage_paragraph_break_witness :
  formatMessage (Some (js "one" ++ [ch_nl] ++ js "  " ++ [ch_nl] ++ js "two"))
  = Ok (js "<p>one</p><p>two</p>").
Proof.
  apply (formatMessage_paragraph_break (js "one") (js "  ") (js "two"));
    [reflexivity | discriminate | reflexivity | reflexivity | reflexivity
    | reflexivity].
Defined.

(** ** What a quantifier over a class reads *)

Lemma star_class_consumes (ml g : bool) (p : jschar -> bool) cs (k : cont)
    (z : mstate) :
  forall s b,
    rmatch ml (Star g (Class p)) Forward (MState b s cs) k = Some z ->
    exists w rest,
      s = w ++ rest /\ forallb p w = true
      /\ k (MState (rev w ++ b) rest cs) = Some z.
Proof.
  induction s as [|c s IH]; intros b H.
  - rewrite star_class_nil in H. now exists [], [].
  - assert (Hrec : rmatch ml (Star g (Class p)) Forward
                     (MState (c :: b) s cs) k = Some z ->
                   p c = true ->
                   exists w rest,
                     c :: s = w ++ rest /\ forallb p w = true
                     /\ k (MState (rev w ++ b) rest cs) = Some z).
    { intros Hs Hc. apply IH in Hs. destruct Hs as [w [rest [E [Hw Hk]]]].
      exists (c :: w), rest. cbn [app rev forallb].
      rewrite <- app_assoc, Hc, Hw, E. auto. }
    destruct g.
    + rewrite star_class_greedy in H. destruct (p c) eqn:Hc.
      * destruct (rmatch ml _ Forward _ k) as [z'|] eqn:Hs.
        -- inversion H; subst z'. now apply Hrec.
        -- now exists [], (c :: s).
      * now exists [], (c :: s).
    + rewrite star_class_lazy in H.
      destruct (k (MState b (c :: s) cs)) as [z'|] eqn:Hk.
      * inversion H; subst z'. now exists [], (c :: s).
      * destruct (p c) eqn:Hc; [now apply Hrec | discriminate].
Qed.

Lemma plus_class_consumes (ml g : bool) (p : jschar -> bool) cs (k : cont)
    (z : mstate) (s b : jsstring) :
  rmatch ml (Plus g (Class p)) Forward (MState b s cs) k = Some z ->
  exists w rest,
    s = w ++ rest /\ w <> [] /\ forallb p w = true
    /\ k (MState (rev w ++ b) rest cs) = Some z.
Proof.
  rewrite rmatch_plus, rmatch_class. destruct s as [|c s]; [discriminate|].
  destruct (p c) eqn:Hc; [|discriminate]. intros H.
  apply star_class_consumes in H. destruct H as [w [rest [E [Hw Hk]]]].
  exists (c :: w), rest. cbn [app rev forallb].
  rewrite <- app_assoc, Hc, Hw, E. repeat split; auto. discriminate.
Qed.

Lemma chr_consumes (ml : bool) (a : jschar) cs (k : cont) (z : mstate)
    (s b : jsstring) :
  rmatch ml (Chr a) Forward (MState b s cs) k = Some z ->
  exists rest, s = a :: rest /\ k (MState (a :: b) rest cs) = Some z.
Proof.
  rewrite rmatch_chr. destruct s as [|c s]; [discriminate|].
  destruct (N.eqb c a) eqn:E; [|discriminate]. apply N.eqb_eq in E. subst c.
  intros H. now exists s.
Qed.

Lemma leading_space_trimStart (s : jsstring) :
  s = leading_space s ++ trimStart s.
Proof.
  induction s as [|c s IH]; [reflexivity|]. cbn [leading_space trimStart].
  destruct (is_space c); [|reflexivity]. cbn [app]. now f_equal.
Qed.

Lemma leading_space_all (s : jsstring) :
  forallb is_space (leading_space s) = true.
Proof.
  induction s as [|c s IH]; [reflexivity|]. cbn [leading_space].
  destruct (is_space c) eqn:E; [|reflexivity]. cbn [forallb].
  now rewrite E, IH.
Qed.

Lemma trimStart_head (s : jsstring) (c : jschar) (rest : jsstring) :
  trimStart s = c :: rest -> is_space c = false.
Proof.
  induction s as [|d s IH]; [discriminate|]. cbn [trimStart].
  destruct (is_space d) eqn:E; [exact IH|]. intros H. inversion H. now subst.
Qed.

(** A greedy star of white space before a continuation that cannot
    fail reads all the white space there is. *)
Lemma star_space_reads_all (ml : bool) cs (k : cont) :
  (forall y, exists z, k y = Some z) ->
  forall s b,
    rmatch ml (Star true (Class is_space)) Forward (MState b s cs) k
    = k (MState (rev (leading_space s) ++ b) (trimStart s) cs).
Proof.
  intros Hk. induction s as [|c s IH]; intros b.
  - now rewrite star_class_nil.
  - rewrite star_class_greedy. cbn [leading_space trimStart].
    destruct (is_space c); [|reflexivity].
    rewrite IH. cbn [rev]. rewrite <- app_assoc. cbn [app].
    destruct (Hk (MState (rev (leading_space s) ++ c :: b) (trimStart s) cs))
      as [z Hz].
    now rewrite Hz.
Qed.

(** ** The text of a table match *)

Lemma star_total (ml : bool) (r : regex) (k : cont) :
  (forall y, exists z, k y = Some z) ->
  forall y, exists z, rmatch ml (Star true r) Forward y k = Some z.
Proof.
  intros Hk y. rewrite star_unfold. cbv zeta.
  destruct (rmatch ml r Forward y _) as [z|]; [now exists z | apply Hk].
Qed.

Lemma star_seq_chr_stuck (ml : bool) (a : jschar) (r : regex)
    (b s : jsstring) cs (k : cont) :
  startsWith a s = false ->
  rmatch ml (Star true (Seq (Chr a) r)) Forward (MState b s cs) k
  = k (MState b s cs).
Proof.
  intros H. rewrite star_unfold. cbv zeta.
  now rewrite seq_chr_none.
Qed.

Lemma trimStart_no_newline_head (s : jsstring) :
  startsWith ch_nl (trimStart s) = false.
Proof.
  destruct (trimStart s) as [|c rest] eqn:E; [reflexivity|].
  apply trimStart_head in E. cbn [startsWith].
  destruct (N.eqb c ch_nl) eqn:Ec; [|reflexivity].
  apply N.eqb_eq in Ec. subst c. discriminate.
Qed.

(** The shape of every match of the table expression: a header line,
    white space with a newline, a separator line, and the white space
    after it.  The group of the data rows never takes part. *)
Lemma tableRegex_match_shape (b a : jsstring) (y : mstate) :
  match_here false tableRegex b a = Some y ->
  exists w1 ws1 w2 w3 rest,
    text_between (MState b a []) y
    = (ch_pipe :: w1 ++ ch_pipe :: ws1)
        ++ ch_nl :: ch_pipe :: (w2 ++ ch_pipe :: w3) ++ ch_pipe
                             :: leading_space rest
    /\ a = text_between (MState b a []) y ++ trimStart rest
    /\ forallb (not_char ch_nl) w1 = true
    /\ forallb is_space ws1 = true
    /\ forallb is_sep_char w2 = true
    /\ forallb (not_char ch_nl) w3 = true.
Proof.
  unfold match_here, tableRegex. rewrite rmatch_group. intros H.
  rewrite rmatch_seq in H. apply chr_consumes in H.
  destruct H as [a1 [E0 H]]. subst a.
  rewrite rmatch_seq in H. apply plus_class_consumes in H.
  destruct H as [w1 [a2 [E1 [_ [Hw1 H]]]]]. subst a1.
  rewrite rmatch_seq in H. apply chr_consumes in H.
  destruct H as [a3 [E2 H]]. subst a2.
  rewrite rmatch_seq in H. apply star_class_consumes in H.
  destruct H as [ws1 [a4 [E3 [Hws1 H]]]]. subst a3.
  rewrite rmatch_seq in H. apply chr_consumes in H.
  destruct H as [a5 [E4 H]]. subst a4.
  rewrite rmatch_seq in H. apply chr_consumes in H.
  destruct H as [a6 [E5 H]]. subst a5.
  rewrite rmatch_seq in H. apply plus_class_consumes in H.
  destruct H as [w2 [a7 [E6 [_ [Hw2 H]]]]]. subst a6.
  rewrite rmatch_seq in H. apply chr_consumes in H.
  destruct H as [a8 [E7 H]]. subst a7.
  rewrite rmatch_seq in H. apply plus_class_consumes in H.
  destruct H as [w3 [a9 [E8 [_ [Hw3 H]]]]]. subst a8.
  rewrite rmatch_seq in H. apply chr_consumes in H.
  destruct H as [rest [E9 H]]. subst a9.
  rewrite rmatch_seq, star_space_reads_all in H
    by (apply star_total; intros y0; now eexists).
  rewrite star_seq_chr_stuck in H by apply trimStart_no_newline_head.
  inversion H as [Hy]. clear H Hy.
  exists w1, ws1, w2, w3, rest.
  assert (Et : text_between
                 (MState b (ch_pipe :: w1 ++ ch_pipe :: ws1 ++ ch_nl :: ch_pipe
                              :: w2 ++ ch_pipe :: w3 ++ ch_pipe :: rest) [])
                 (set_cap 1 Forward
                    (MState b (ch_pipe :: w1 ++ ch_pipe :: ws1 ++ ch_nl
                                 :: ch_pipe :: w2 ++ ch_pipe :: w3 ++ ch_pipe
                                 :: rest) [])
                    (MState
                       (rev (leading_space rest) ++ ch_pipe :: rev w3
                          ++ ch_pipe :: rev w2 ++ ch_pipe :: ch_nl :: rev ws1
                          ++ ch_pipe :: rev w1 ++ ch_pipe :: b)
                       (trimStart rest) []))
               = (ch_pipe :: w1 ++ ch_pipe :: ws1)
                   ++ ch_nl :: ch_pipe :: (w2 ++ ch_pipe :: w3) ++ ch_pipe
                                        :: leading_space rest).
  { unfold set_cap. cbn [before after caps].
    match goal with
    | |- text_between ?x (MState ?bb ?aa ?cc) = ?W =>
        replace bb with (rev W ++ b);
        [apply text_between_rev|]
    end.
    repeat first [ rewrite rev_app_distr | rewrite <- app_assoc
                 | progress cbn [rev app] ].
    reflexivity. }
  rewrite Et. repeat split; try assumption.
  repeat first [ rewrite <- app_assoc | progress cbn [app] ].
  now rewrite <- leading_space_trimStart.
Qed.

(** ** The rows of a table match *)

Lemma split_nonempty (sep : jschar) (s : jsstring) : split sep s <> [].
Proof.
  destruct s as [|c s]; cbn [split]; [discriminate|].
  destruct (N.eqb c sep); [discriminate|].
  destruct (split sep s); discriminate.
Qed.

Lemma split_app_sep (sep : jschar) (a s : jsstring) :
  split sep (a ++ sep :: s) = split sep a ++ split sep s.
Proof.
  induction a as [|c a IH]; cbn [app split].
  - now rewrite N.eqb_refl.
  - destruct (N.eqb c sep); [now rewrite IH|].
    rewrite IH. destruct (split sep a) as [|h t] eqn:E; [|reflexivity].
    now apply split_nonempty in E.
Qed.

Lemma split_line_app (sep : jschar) (L s : jsstring) :
  has_char sep L = false ->
  split sep (L ++ s)
  = (L ++ hd [] (split sep s)) :: tl (split sep s).
Proof.
  unfold has_char. induction L as [|c L IH]; intros H; cbn [app].
  - destruct (split sep s) as [|h t] eqn:E; [|reflexivity].
    now apply split_nonempty in E.
  - cbn [existsb] in H. apply orb_false_elim in H. destruct H as [H1 H2].
    cbn [split]. rewrite H1, IH by exact H2. reflexivity.
Qed.

Lemma split_all_space (s : jsstring) :
  forallb is_space s = true ->
  Forall (fun l => forallb is_space l = true) (split ch_nl s).
Proof.
  induction s as [|c s IH]; intros H; cbn [split].
  - repeat constructor.
  - cbn [forallb] in H. apply andb_prop in H. destruct H as [Hc Hs].
    specialize (IH Hs). destruct (N.eqb c ch_nl).
    + constructor; [reflexivity | exact IH].
    + destruct (split ch_nl s) as [|h t].
      * constructor; [|constructor]. cbn [forallb]. now rewrite Hc.
      * inversion IH; subst. constructor; [|assumption].
        cbn [forallb]. now rewrite Hc.
Qed.

Lemma trimStart_all_space (l : jsstring) :
  forallb is_space l = true -> trimStart l = [].
Proof.
  induction l as [|c l IH]; [reflexivity|]. cbn [forallb trimStart].
  intros H. apply andb_prop in H. destruct H as [Hc Hl].
  rewrite Hc. now apply IH.
Qed.

Lemma trim_all_space (l : jsstring) :
  forallb is_space l = true -> trim l = [].
Proof. intros H. unfold trim. now rewrite (trimStart_all_space l H). Qed.

Lemma blank_lines_dropped (ls : list jsstring) :
  Forall (fun l => forallb is_space l = true) ls ->
  filter (fun row => 0 <? length (trim row)) ls = [].
Proof.
  induction 1 as [|l ls Hl _ IH]; [reflexivity|].
  cbn [filter]. now rewrite trim_all_space, IH.
Qed.

Lemma Forall_hd_tl (A : Type) (P : A -> Prop) (d : A) (ls : list A) :
  P d -> Forall P ls -> P (hd d ls) /\ Forall P (tl ls).
Proof. intros Hd H. destruct H; cbn; auto. Qed.

(** The rows of a line that begins with [|], followed by white space:
    the line, with the white space up to the first newline. *)
Lemma table_rows_line (L ws : jsstring) :
  has_char ch_nl (ch_pipe :: L) = false -> forallb is_space ws = true ->
  exists h,
    forallb is_space h = true /\ has_char ch_nl h = false
    /\ table_rows ((ch_pipe :: L) ++ ws) = [(ch_pipe :: L) ++ h].
Proof.
  intros HL Hws. exists (hd [] (split ch_nl ws)).
  destruct (Forall_hd_tl _ (fun l => forallb is_space l = true) []
              (split ch_nl ws) eq_refl (split_all_space ws Hws)) as [Hh Ht].
  split; [exact Hh|]. split.
  - clear. induction ws as [|c ws IH]; [reflexivity|]. cbn [split].
    destruct (N.eqb c ch_nl) eqn:E; [reflexivity|].
    destruct (split ch_nl ws) as [|h t]; unfold has_char; cbn [hd existsb];
      rewrite E; [reflexivity | exact IH].
  - unfold table_rows. rewrite split_line_app by exact HL.
    cbn [filter app]. rewrite trim_head_nonspace by reflexivity.
    now rewrite blank_lines_dropped.
Qed.

Lemma table_rows_app_newline (a s : jsstring) :
  table_rows (a ++ ch_nl :: s) = table_rows a ++ table_rows s.
Proof. unfold table_rows. now rewrite split_app_sep, filter_app. Qed.

Lemma sep_char_not_newline (w : jsstring) :
  forallb is_sep_char w = true -> forallb (not_char ch_nl) w = true.
Proof.
  apply forallb_weaken. intros c. unfold is_sep_char, not_char.
  destruct (N.eqb c ch_nl) eqn:E; [|reflexivity].
  apply N.eqb_eq in E. subst c. discriminate.
Qed.

Lemma no_newline_has_char (w : jsstring) :
  forallb (not_char ch_nl) w = true -> has_char ch_nl w = false.
Proof. apply (forallb_no_char (not_char ch_nl)). reflexivity. Qed.

(** The two rows of a table match, with the header row spelled out: it
    ends with a [|] and white space. *)
Lemma tableRegex_match_rows (b a : jsstring) (y : mstate) :
  match_here false tableRegex b a = Some y ->
  exists w1 h1 separator,
    table_rows (text_between (MState b a []) y)
    = [(ch_pipe :: w1) ++ ch_pipe :: h1; separator]
    /\ forallb is_space h1 = true
    /\ startsWith ch_pipe separator = true.
Proof.
  intros H. apply tableRegex_match_shape in H.
  destruct H as [w1 [ws1 [w2 [w3 [rest [Et [_ [H1 [H2 [H3 H4]]]]]]]]]].
  rewrite Et, table_rows_app_newline.
  change (ch_pipe :: w1 ++ ch_pipe :: ws1)
    with ((ch_pipe :: w1) ++ ch_pipe :: ws1).
  replace ((ch_pipe :: w1) ++ ch_pipe :: ws1)
    with ((ch_pipe :: w1 ++ [ch_pipe]) ++ ws1)
    by (cbn [app]; now rewrite <- app_assoc).
  replace (ch_pipe :: (w2 ++ ch_pipe :: w3) ++ ch_pipe :: leading_space rest)
    with ((ch_pipe :: (w2 ++ ch_pipe :: w3) ++ [ch_pipe])
            ++ leading_space rest)
    by (cbn [app]; now rewrite <- !app_assoc).
  destruct (table_rows_line (w1 ++ [ch_pipe]) ws1) as [h1 [Hh1 [_ E1]]];
    [|exact H2|].
  { change (ch_pipe :: w1 ++ [ch_pipe]) with ([ch_pipe] ++ w1 ++ [ch_pipe]).
    rewrite !has_char_app, (no_newline_has_char w1 H1). reflexivity. }
  destruct (table_rows_line ((w2 ++ ch_pipe :: w3) ++ [ch_pipe])
              (leading_space rest)) as [h2 [_ [_ E2]]];
    [|apply leading_space_all|].
  { change (ch_pipe :: (w2 ++ ch_pipe :: w3) ++ [ch_pipe])
      with ([ch_pipe] ++ (w2 ++ [ch_pipe] ++ w3) ++ [ch_pipe]).
    rewrite !has_char_app, (no_newline_has_char w3 H4),
      (no_newline_has_char w2 (sep_char_not_newline w2 H3)). reflexivity. }
  rewrite E1, E2. exists w1, h1. eexists. split; [|split].
  - cbn [app]. rewrite <- app_assoc. reflexivity.
  - exact Hh1.
  - reflexivity.
Qed.

(** X10. A match of the table expression never has a data row: the rows
    the callback works on are two, the header line and the separator
    line.  (The white space after the separator line is read greedily
    and takes the newline that a data row would have to begin with.) *)
Theorem tableRegex_match_two_rows (b a : jsstring) (y : mstate) :
  match_here false tableRegex b a = Some y ->
  exists header separator,
    table_rows (text_between (MState b a []) y) = [header; separator]
    /\ startsWith ch_pipe header = true
    /\ startsWith ch_pipe separator = true.
Proof.
  intros H. apply tableRegex_match_rows in H.
  destruct H as [w1 [h1 [separator [E [_ Hs]]]]].
  rewrite E. eexists. eexists. split; [reflexivity|]. split; [reflexivity|].
  exact Hs.
Qed.

Lemma tableRegex_match_two_rows_witness :
  exists header separator,
    table_rows (js "| A | B |" ++ [ch_nl] ++ js "|---|---|" ++ [ch_nl])
    = [header; separator]
    /\ startsWith ch_pipe header = true
    /\ startsWith ch_pipe separator = true.
Proof.
  apply (tableRegex_match_two_rows [] table_input
           (MState (rev (js "| A | B |" ++ [ch_nl] ++ js "|---|---|"
                            ++ [ch_nl]))
                   (js "| 1 | 2 |")
                   [(1, js "| A | B |" ++ [ch_nl] ++ js "|---|---|"
                           ++ [ch_nl])])).
  vm_compute. reflexivity.
Defined.

(** ** The cells of a row *)

Lemma run_from_pipe (s : jsstring) : s = run_to_pipe s ++ from_pipe s.
Proof.
  induction s as [|c s IH]; [reflexivity|]. cbn [run_to_pipe from_pipe].
  destruct (N.eqb c ch_pipe); [reflexivity|]. cbn [app]. now f_equal.
Qed.

Lemma run_to_pipe_no_pipe (s : jsstring) :
  forallb (not_char ch_pipe) (run_to_pipe s) = true.
Proof.
  induction s as [|c s IH]; [reflexivity|]. cbn [run_to_pipe].
  destruct (N.eqb c ch_pipe) eqn:E; [reflexivity|]. cbn [forallb].
  unfold not_char at 1. now rewrite E, IH.
Qed.

Lemma from_pipe_head (s : jsstring) (c : jschar) (v : jsstring) :
  from_pipe s = c :: v -> not_char ch_pipe c = false.
Proof.
  induction s as [|d s IH]; [discriminate|]. cbn [from_pipe].
  destruct (N.eqb d ch_pipe) eqn:E; [|exact IH].
  intros H. inversion H; subst. unfold not_char. now rewrite E.
Qed.

Lemma from_pipe_length (s : jsstring) : length (from_pipe s) <= length s.
Proof.
  induction s as [|c s IH]; [reflexivity|]. cbn [from_pipe].
  destruct (N.eqb c ch_pipe); cbn [length]; lia.
Qed.

Lemma cells_from_pipe (s : jsstring) : cells (from_pipe s) = cells s.
Proof.
  induction s as [|c s IH]; [reflexivity|]. cbn [from_pipe cells].
  destruct (N.eqb c ch_pipe) eqn:E; [|exact IH]. cbn [cells]. now rewrite E.
Qed.

Lemma cellRegex_none (b s : jsstring) :
  startsWith ch_pipe s = false -> match_here false cellRegex b s = None.
Proof. apply seq_chr_none. Qed.

(** At a [|] the cell expression matches it and the text up to the
    next one. *)
Lemma cellRegex_match (b s : jsstring) :
  match_here false cellRegex b ((ch_pipe :: run_to_pipe s) ++ from_pipe s)
  = Some (MState (rev (ch_pipe :: run_to_pipe s) ++ b) (from_pipe s)
            [(1, run_to_pipe s)]).
Proof.
  unfold match_here, cellRegex. cbn [app].
  rewrite rmatch_seq, rmatch_chr, N.eqb_refl, rmatch_group.
  rewrite (star_class_greedy_max false (not_char ch_pipe) [] _
             (from_pipe s)
             (MState (rev (ch_pipe :: run_to_pipe s) ++ b) (from_pipe s)
                [(1, run_to_pipe s)])).
  - reflexivity.
  - apply run_to_pipe_no_pipe.
  - intros c v. apply from_pipe_head.
  - unfold set_cap. cbn [before after caps].
    rewrite text_between_rev. cbn [rev]. now rewrite <- app_assoc.
Qed.

Lemma cellRegex_hits :
  forall n s b, length s <= n ->
                hits (pieces false cellRegex 0 b s) = cells s.
Proof.
  induction n as [|n IH]; intros s b Hn.
  - destruct s; [|cbn [length] in Hn; lia].
    now rewrite pieces_miss_nil.
  - destruct s as [|c s]; [now rewrite pieces_miss_nil|].
    cbn [length] in Hn. cbn [cells].
    destruct (N.eqb c ch_pipe) eqn:E.
    + apply N.eqb_eq in E. subst c.
      rewrite (run_from_pipe s) at 1.
      change (ch_pipe :: run_to_pipe s ++ from_pipe s)
        with ((ch_pipe :: run_to_pipe s) ++ from_pipe s).
      rewrite (pieces_hit _ _ _ _ _ _ (cellRegex_match b s))
        by (reflexivity || discriminate).
      cbn [hits]. rewrite IH, cells_from_pipe; [reflexivity|].
      pose proof (from_pipe_length s). lia.
    + rewrite pieces_miss_cons
        by (apply cellRegex_none; cbn [startsWith]; exact E).
      cbn [hits]. apply IH. lia.
Qed.

Lemma match_all_cells_lemma (row : jsstring) :
  match_all false cellRegex row
  = match cells row with
    | [] => None
    | c :: cs => Some (c :: cs)
    end.
Proof.
  unfold match_all. now rewrite (cellRegex_hits (length row)).
Qed.

(** X11. The cell expression cuts a row at its pipes: the matches are
    each [|] with the text up to the next [|], in order, and the
    result is null when the row has no [|]. *)
Theorem match_all_cellRegex (row : jsstring) :
  match_all false cellRegex row
  = match cells row with
    | [] => None
    | c :: cs => Some (c :: cs)
    end.
Proof. apply match_all_cells_lemma. Qed.

(** ** The header row of a table *)

Lemma run_to_pipe_app_pipe (X h : jsstring) :
  run_to_pipe (X ++ ch_pipe :: h) = run_to_pipe X.
Proof.
  induction X as [|c X IH]; cbn [app run_to_pipe].
  - now rewrite N.eqb_refl.
  - destruct (N.eqb c ch_pipe); [reflexivity | now rewrite IH].
Qed.

Lemma run_to_pipe_all (h : jsstring) :
  has_char ch_pipe h = false -> run_to_pipe h = h.
Proof.
  unfold has_char. induction h as [|c h IH]; [reflexivity|].
  cbn [existsb run_to_pipe]. intros H. apply orb_false_elim in H.
  destruct H as [H1 H2]. now rewrite H1, IH.
Qed.

Lemma cells_no_pipe (h : jsstring) :
  has_char ch_pipe h = false -> cells h = [].
Proof.
  unfold has_char. induction h as [|c h IH]; [reflexivity|].
  cbn [existsb cells]. intros H. apply orb_false_elim in H.
  destruct H as [H1 H2]. now rewrite H1, IH.
Qed.

(** A closing [|] is a cell of its own. *)
Lemma cells_app_last (X h : jsstring) :
  has_char ch_pipe h = false ->
  cells (X ++ ch_pipe :: h) = cells X ++ [ch_pipe :: h].
Proof.
  intros H. induction X as [|c X IH]; cbn [app cells].
  - now rewrite N.eqb_refl, run_to_pipe_all, cells_no_pipe.
  - destruct (N.eqb c ch_pipe); [|exact IH].
    now rewrite run_to_pipe_app_pipe, IH.
Qed.

Lemma forEach_from_app (A : Type) (f : jsstring -> A -> nat -> jsstring)
    (l1 l2 : list A) :
  forall i acc,
    forEach_from f i (l1 ++ l2) acc
    = forEach_from f (i + length l1) l2 (forEach_from f i l1 acc).
Proof.
  induction l1 as [|x l1 IH]; intros i acc; cbn [app forEach_from length].
  - now rewrite Nat.add_0_r.
  - rewrite IH. f_equal. lia.
Qed.

Lemma forEach_add_cell_extends (tag : jsstring) (cs : list jsstring) :
  forall i acc, exists X, forEach_from (add_cell tag) i cs acc = acc ++ X.
Proof.
  induction cs as [|c cs IH]; intros i acc; cbn [forEach_from].
  - exists []. now rewrite app_nil_r.
  - unfold add_cell at 2.
    destruct (Nat.eqb i 0 && jsstring_eqb (trim c) (js "|")); [apply IH|].
    destruct (IH (S i)
                (acc ++ js "<" ++ tag ++ js ">"
                     ++ trim (replace_str (js "|") [] c)
                     ++ js "</" ++ tag ++ js ">")) as [X E].
    rewrite E. eexists. rewrite <- app_assoc. reflexivity.
Qed.

(** The cell written for a closing [|] followed by white space. *)
Lemma add_cell_closing_pipe (tag acc h : jsstring) (i : nat) :
  forallb is_space h = true ->
  add_cell tag acc (ch_pipe :: h) (S i)
  = acc ++ js "<" ++ tag ++ js "></" ++ tag ++ js ">".
Proof.
  intros H. unfold add_cell. cbn [Nat.eqb andb].
  change (replace_str (js "|") [] (ch_pipe :: h)) with h.
  rewrite trim_all_space by exact H. reflexivity.
Qed.

Lemma space_no_pipe (h : jsstring) :
  forallb is_space h = true -> has_char ch_pipe h = false.
Proof. apply (forallb_no_char is_space). reflexivity. Qed.

(** A row that ends with [|] and white space gets an empty last cell. *)
Lemma add_row_closing_pipe (tag acc w h : jsstring) :
  forallb is_space h = true ->
  exists X,
    add_row tag acc ((ch_pipe :: w) ++ ch_pipe :: h)
    = acc ++ js "<tr>" ++ X ++ js "<" ++ tag ++ js "></" ++ tag ++ js ">"
          ++ js "</tr>".
Proof.
  intros H. unfold add_row.
  rewrite match_all_cells_lemma.
  rewrite cells_app_last by now apply space_no_pipe.
  cbn [app cells]. rewrite N.eqb_refl.
  remember (cells w) as C eqn:EC. cbn [app].
  change ((ch_pipe :: run_to_pipe w) :: C ++ [ch_pipe :: h])
    with (((ch_pipe :: run_to_pipe w) :: C) ++ [ch_pipe :: h]).
  unfold forEach. rewrite forEach_from_app.
  destruct (forEach_add_cell_extends tag
              ((ch_pipe :: run_to_pipe w) :: C) 0 (acc ++ js "<tr>"))
    as [X E].
  unfold jsstring in *. rewrite E. cbn [length Nat.add forEach_from].
  rewrite add_cell_closing_pipe by exact H.
  exists X. now rewrite <- !app_assoc.
Qed.

(** X12. Every table the function writes has the same defects: its
    header row ends with an empty cell, written for the closing [|] of
    the header line, and its body is empty. *)
Theorem table_to_html_of_match (b a : jsstring) (y : mstate) :
  match_here false tableRegex b a = Some y ->
  exists cells_html,
    table_to_html (text_between (MState b a []) y)
    = Ok (table_open ++ js "<thead><tr>" ++ cells_html
            ++ js "<th></th></tr></thead><tbody></tbody></table>").
Proof.
  intros H. apply tableRegex_match_rows in H.
  destruct H as [w1 [h1 [separator [E [Hh1 _]]]]].
  unfold table_to_html. cbv zeta.
  change (filter (fun row => 0 <? length (trim row))
            (split ch_nl (text_between (MState b a []) y)))
    with (table_rows (text_between (MState b a []) y)).
  rewrite E. cbn [nth_error skipn fold_left].
  destruct (add_row_closing_pipe (js "th")
              (js "<table class=" ++ [ch_dquote]
                  ++ js "table table-bordered table-dark table-sm"
                  ++ [ch_dquote] ++ js "><thead>") w1 h1 Hh1) as [X EX].
  rewrite EX. exists X. unfold table_open.
  repeat rewrite <- app_assoc. reflexivity.
Qed.

Lemma table_to_html_of_match_witness :
  exists cells_html,
    table_to_html (js "| A | B |" ++ [ch_nl] ++ js "|---|---|" ++ [ch_nl])
    = Ok (table_open ++ js "<thead><tr>" ++ cells_html
            ++ js "<th></th></tr></thead><tbody></tbody></table>").
Proof.
  apply (table_to_html_of_match [] table_input
           (MState (rev (js "| A | B |" ++ [ch_nl] ++ js "|---|---|"
                            ++ [ch_nl]))
                   (js "| 1 | 2 |")
                   [(1, js "| A | B |" ++ [ch_nl] ++ js "|---|---|"
                           ++ [ch_nl])])).
  vm_compute. reflexivity.
Defined.

(** ** List items *)

Lemma rmatch_opt (ml : bool) (r : regex) (d : direction) (x : mstate)
    (k : cont) :
  rmatch ml (Opt r) d x k
  = match rmatch ml r d x
            (fun y => if room d y <? room d x then k y else None) with
    | Some z => Some z
    | None => k x
    end.
Proof. reflexivity. Qed.

Lemma rmatch_eol (ml : bool) (d : direction) (x : mstate) (k : cont) :
  rmatch ml Eol d x k = if at_eol ml x then k x else None.
Proof. reflexivity. Qed.

Lemma item_char_inert (c : jschar) : item_char c = true -> inert c = true.
Proof. unfold item_char. intros H. apply andb_prop in H. apply H. Qed.

Lemma list_item_parts (it : jsstring) :
  list_item it = true ->
  forallb inert it = true /\ forallb is_space it = false.
Proof.
  unfold list_item. intros H. apply andb_prop in H. destruct H as [H1 H2].
  split; [|now apply negb_true_iff in H2].
  eapply forallb_weaken; [|exact H1]. exact item_char_inert.
Qed.

Lemma trimStart_nonempty (it : jsstring) :
  forallb is_space it = false ->
  exists c core, trimStart it = c :: core /\ is_space c = false.
Proof.
  induction it as [|d it IH]; [discriminate|]. cbn [forallb trimStart].
  destruct (is_space d) eqn:E; cbn [andb]; [exact IH|].
  intros _. now exists d, it.
Qed.

Lemma forallb_suffix (p : jschar -> bool) (s : jsstring) :
  forallb p s = true -> forallb p (trimStart s) = true.
Proof.
  induction s as [|c s IH]; [reflexivity|]. cbn [forallb trimStart].
  intros H. apply andb_prop in H. destruct H as [Hc Hs].
  destruct (is_space c); [now apply IH|]. cbn [forallb]. now rewrite Hc, Hs.
Qed.

Lemma last_char_not_terminator (l : jsstring) :
  l <> [] -> forallb is_dot l = true ->
  exists c r, rev l = c :: r /\ is_line_terminator c = false.
Proof.
  intros Hne H. destruct (rev l) as [|c r] eqn:E.
  - apply (f_equal (@rev jschar)) in E. rewrite rev_involutive in E.
    now subst l.
  - exists c, r. split; [reflexivity|].
    apply rev_head in E. subst l. apply forallb_middle in H.
    unfold is_dot in H. now apply negb_true_iff in H.
Qed.

Section Lists.

(** The part of the three list expressions that reads the marker, put
    before the rest [R] of an expression, and the texts it reads. *)
Variable with_marker : regex -> regex.
Variable is_mark : jsstring -> Prop.

Hypothesis marker_reads :
  forall ml R mk s b cs k z,
    is_mark mk ->
    rmatch ml R Forward (MState (rev mk ++ b) s cs) k = Some z ->
    rmatch ml (with_marker R) Forward (MState b (mk ++ s) cs) k = Some z.

Hypothesis mark_head :
  forall mk, is_mark mk -> exists c mk', mk = c :: mk' /\ is_space c = false.

(** The common beginning of the three expressions, on a line: the
    marker and all the white space after it are read. *)
Lemma marker_and_space_read (ml : bool) (R : regex) (b mk it rest : jsstring)
    cs (k : cont) (z : mstate) :
  at_bol ml (MState b [] []) = true ->
  is_mark mk -> forallb is_space it = false ->
  rmatch ml R Forward
    (MState (rev (mk ++ ch_space :: leading_space it) ++ b)
       (trimStart it ++ rest) cs) k = Some z ->
  rmatch ml
    (Seq Bol (Seq (Star true (Class is_space))
                (with_marker (Seq (Plus true (Class is_space)) R))))
    Forward (MState b (mk ++ ch_space :: it ++ rest) cs) k = Some z.
Proof.
  intros Hbol Hmk Hit HR.
  rewrite rmatch_seq, rmatch_bol.
  change (at_bol ml (MState b (mk ++ ch_space :: it ++ rest) cs))
    with (at_bol ml (MState b [] [])).
  rewrite Hbol, rmatch_seq.
  destruct (mark_head mk Hmk) as [c [mk' [Emk Hc]]].
  apply (star_class_greedy_max ml is_space cs _ _ z [] b);
    [reflexivity | | ].
  { intros c' v E. rewrite Emk in E. inversion E. now subst. }
  cbn [rev app]. apply marker_reads; [exact Hmk|].
  rewrite rmatch_seq.
  replace (ch_space :: it ++ rest)
    with ((ch_space :: leading_space it) ++ trimStart it ++ rest)
    by (cbn [app]; now rewrite app_assoc, <- leading_space_trimStart).
  apply plus_class_greedy_max.
  - discriminate.
  - cbn [forallb]. now rewrite leading_space_all.
  - intros c' v E. destruct (trimStart_nonempty it Hit) as [c0 [core [Ec H0]]].
    rewrite Ec in E. inversion E. now subst.
  - rewrite rev_app_distr in HR. now rewrite <- app_assoc in HR.
Qed.

Lemma line_decomposed (mk it : jsstring) :
  list_line (mk, it)
  = (mk ++ ch_space :: leading_space it) ++ trimStart it.
Proof.
  unfold list_line. cbn [fst snd]. rewrite <- app_assoc. cbn [app].
  now rewrite <- leading_space_trimStart.
Qed.

Lemma line_body_reads_line (b mk it more : jsstring) cs (k : cont)
    (z : mstate) :
  at_bol true (MState b [] []) = true ->
  valid_line is_mark (mk, it) ->
  k (MState (rev (list_line (mk, it) ++ [ch_nl]) ++ b) more cs) = Some z ->
  rmatch true (line_body with_marker) Forward
    (MState b (list_line (mk, it) ++ ch_nl :: more) cs) k = Some z.
Proof.
  intros Hbol [Hmk Hit] Hk. cbn [fst snd] in Hmk, Hit.
  destruct (list_item_parts it Hit) as [Hi Hsp].
  unfold list_line, line_body. cbn [fst snd]. rewrite <- app_assoc.
  cbn [app]. apply marker_and_space_read; try assumption.
  rewrite rmatch_seq.
  destruct (trimStart_nonempty it Hsp) as [c0 [core [Ec H0]]].
  apply plus_class_greedy_max.
  - rewrite Ec. discriminate.
  - apply forallb_suffix. now apply inert_all_dot.
  - intros c' v E. inversion E. reflexivity.
  - rewrite rmatch_opt, rmatch_chr, N.eqb_refl.
    cbn [room after length]. rewrite ltb_succ.
    rewrite line_decomposed, !rev_app_distr in Hk. cbn [rev app] in Hk.
    rewrite <- !app_assoc in Hk. cbn [app] in Hk.
    rewrite rev_app_distr. rewrite <- !app_assoc. cbn [rev app].
    rewrite <- !app_assoc. cbn [app]. now rewrite Hk.
Qed.

Lemma line_body_reads_last_line (b mk it : jsstring) cs (k : cont)
    (z : mstate) :
  at_bol true (MState b [] []) = true ->
  valid_line is_mark (mk, it) ->
  k (MState (rev (list_line (mk, it)) ++ b) [] cs) = Some z ->
  rmatch true (line_body with_marker) Forward (MState b (list_line (mk, it)) cs) k
  = Some z.
Proof.
  intros Hbol [Hmk Hit] Hk. cbn [fst snd] in Hmk, Hit.
  destruct (list_item_parts it Hit) as [Hi Hsp].
  unfold list_line, line_body. cbn [fst snd].
  rewrite <- (app_nil_r it) at 1.
  apply marker_and_space_read; try assumption.
  rewrite rmatch_seq.
  destruct (trimStart_nonempty it Hsp) as [c0 [core [Ec H0]]].
  apply plus_class_greedy_max.
  - rewrite Ec. discriminate.
  - apply forallb_suffix. now apply inert_all_dot.
  - discriminate.
  - rewrite rmatch_opt, rmatch_chr.
    rewrite line_decomposed, rev_app_distr, <- app_assoc in Hk.
    exact Hk.
Qed.

Lemma at_bol_after_line (l b : jsstring) cs (a : jsstring) :
  l <> [] -> forallb is_dot l = true ->
  at_bol true (MState (rev l ++ b) a cs) = false.
Proof.
  intros Hne H. destruct (last_char_not_terminator l Hne H) as [c [r [E Hc]]].
  rewrite E. unfold at_bol. cbn [before app]. now rewrite Hc.
Qed.

Lemma line_body_needs_bol (b a : jsstring) cs (k : cont) :
  at_bol true (MState b [] []) = false ->
  rmatch true (line_body with_marker) Forward (MState b a cs) k = None.
Proof.
  intros H. unfold line_body. rewrite rmatch_seq, rmatch_bol.
  change (at_bol true (MState b a cs)) with (at_bol true (MState b [] [])).
  now rewrite H.
Qed.

Lemma star_line_body_stuck (b a : jsstring) cs (k : cont) :
  at_bol true (MState b [] []) = false ->
  rmatch true (Star true (line_body with_marker)) Forward (MState b a cs) k
  = k (MState b a cs).
Proof.
  intros H. rewrite star_unfold. cbv zeta.
  now rewrite line_body_needs_bol.
Qed.

Lemma valid_line_dot (mk it : jsstring) :
  valid_line is_mark (mk, it) ->
  exists c r, rev (list_line (mk, it)) = c :: r
              /\ is_line_terminator c = false.
Proof.
  intros [_ Hit]. cbn [snd] in Hit.
  destruct (list_item_parts it Hit) as [Hi Hsp].
  assert (Hne : it <> []) by (destruct it; [discriminate Hsp | discriminate]).
  destruct (last_char_not_terminator it Hne (inert_all_dot it Hi))
    as [c [r [E Hc]]].
  unfold list_line. cbn [fst snd].
  change (mk ++ ch_space :: it) with (mk ++ [ch_space] ++ it).
  rewrite !rev_app_distr, E. cbn [app]. eauto.
Qed.

Lemma at_bol_after_valid_line (mk it b a : jsstring) cs :
  valid_line is_mark (mk, it) ->
  at_bol true (MState (rev (list_line (mk, it)) ++ b) a cs) = false.
Proof.
  intros H. destruct (valid_line_dot mk it H) as [c [r [E Hc]]].
  rewrite E. unfold at_bol. cbn [before app]. now rewrite Hc.
Qed.

Lemma list_line_length (line : jsstring * jsstring) (more : jsstring) :
  length more < length (list_line line ++ ch_nl :: more).
Proof. rewrite length_app. cbn [length]. lia. Qed.

Lemma joined_cons (l l2 : jsstring) (ls : list jsstring) :
  joined_lines (l :: l2 :: ls) = l ++ ch_nl :: joined_lines (l2 :: ls).
Proof. reflexivity. Qed.

Lemma rev_line_more (l more b : jsstring) :
  rev (l ++ ch_nl :: more) ++ b = rev more ++ rev (l ++ [ch_nl]) ++ b.
Proof.
  change (l ++ ch_nl :: more) with (l ++ [ch_nl] ++ more).
  now rewrite app_assoc, rev_app_distr, <- app_assoc.
Qed.

(** The star of the line expression reads all the lines of a block. *)
Lemma lines_star cs (K : cont) (z : mstate) :
  forall ls b,
    ls <> [] -> Forall (valid_line is_mark) ls ->
    at_bol true (MState b [] []) = true ->
    K (MState (rev (joined_lines (map list_line ls)) ++ b) [] cs) = Some z ->
    rmatch true (Star true (line_body with_marker)) Forward
      (MState b (joined_lines (map list_line ls)) cs) K = Some z.
Proof.
  induction ls as [|[mk it] ls IH]; intros b Hne Hv Hbol HK; [contradiction|].
  inversion Hv as [|? ? Hl Hls]; subst.
  rewrite star_unfold. cbv zeta. destruct ls as [|l2 ls].
  - cbn [map joined_lines] in *.
    rewrite (line_body_reads_last_line b mk it cs _ z Hbol Hl);
      [reflexivity|].
    unfold room. cbn [after].
    assert (Hlen : (length (@nil jschar) <? length (list_line (mk, it)))
                   = true).
    { apply Nat.ltb_lt. unfold list_line. rewrite length_app.
      cbn [length]. lia. }
    rewrite Hlen.
    rewrite star_line_body_stuck; [exact HK|].
    now apply at_bol_after_valid_line.
  - cbn [map] in *. rewrite joined_cons in *.
    rewrite (line_body_reads_line b mk it _ cs _ z Hbol Hl);
      [reflexivity|].
    unfold room. cbn [after].
    pose proof (list_line_length (mk, it)
                  (joined_lines (list_line l2 :: map list_line ls))) as Hlen.
    apply Nat.ltb_lt in Hlen. rewrite Hlen.
    apply (IH (rev (list_line (mk, it) ++ [ch_nl]) ++ b)).
    + discriminate.
    + exact Hls.
    + rewrite rev_app_distr. reflexivity.
    + now rewrite <- rev_line_more.
Qed.

(** So does the expression of a block, which asks for one line at
    least. *)
Lemma lines_plus cs (K : cont) (z : mstate) (ls : list (jsstring * jsstring))
    (b : jsstring) :
  ls <> [] -> Forall (valid_line is_mark) ls ->
  at_bol true (MState b [] []) = true ->
  K (MState (rev (joined_lines (map list_line ls)) ++ b) [] cs) = Some z ->
  rmatch true (Plus true (line_body with_marker)) Forward
    (MState b (joined_lines (map list_line ls)) cs) K = Some z.
Proof.
  intros Hne Hv Hbol HK. rewrite rmatch_plus.
  destruct ls as [|[mk it] ls]; [contradiction|].
  inversion Hv as [|? ? Hl Hls]; subst. destruct ls as [|l2 ls].
  - cbn [map joined_lines] in *.
    apply line_body_reads_last_line; assumption.
  - cbn [map] in *. rewrite joined_cons in *.
    apply line_body_reads_line; try assumption.
    apply (lines_star cs K z (l2 :: ls)).
    + discriminate.
    + exact Hls.
    + rewrite rev_app_distr. reflexivity.
    + now rewrite <- rev_line_more.
Qed.

Lemma joined_valid_nonempty (ls : list (jsstring * jsstring)) :
  ls <> [] -> joined_lines (map list_line ls) <> [].
Proof.
  destruct ls as [|[mk it] [|l2 ls]]; [contradiction| |]; intros _;
    cbn [map joined_lines]; unfold list_line; cbn [fst snd];
    destruct mk; discriminate.
Qed.

(** After a block no line begins. *)
Lemma at_bol_after_block (ls : list (jsstring * jsstring)) :
  forall b a cs,
    ls <> [] -> Forall (valid_line is_mark) ls ->
    at_bol true
      (MState (rev (joined_lines (map list_line ls)) ++ b) a cs) = false.
Proof.
  induction ls as [|[mk it] ls IH]; intros b a cs Hne Hv; [contradiction|].
  inversion Hv as [|? ? Hl Hls]; subst. destruct ls as [|l2 ls].
  - cbn [map joined_lines]. now apply at_bol_after_valid_line.
  - cbn [map] in *. rewrite joined_cons, rev_line_more.
    apply IH; [discriminate | exact Hls].
Qed.

(** The expression of a block matches all of a block, from a line
    start. *)
Lemma list_block_match (ls : list (jsstring * jsstring)) (b : jsstring) :
  ls <> [] -> Forall (valid_line is_mark) ls ->
  at_bol true (MState b [] []) = true ->
  match_here true (list_block_regex with_marker) b
    (joined_lines (map list_line ls))
  = Some (MState (rev (joined_lines (map list_line ls)) ++ b) []
            [(1, joined_lines (map list_line ls))]).
Proof.
  intros Hne Hv Hbol. unfold match_here, list_block_regex.
  rewrite rmatch_group. apply lines_plus; try assumption.
  unfold set_cap. cbn [before after caps].
  now rewrite text_between_rev.
Qed.

Lemma list_block_none_mid_line (b a : jsstring) :
  at_bol true (MState b [] []) = false ->
  match_here true (list_block_regex with_marker) b a = None.
Proof.
  intros H. unfold match_here, list_block_regex.
  rewrite rmatch_group, rmatch_plus. now apply line_body_needs_bol.
Qed.

(** The [replace] of a list pass on a text that is one block calls its
    function once, on the whole text. *)
Lemma replace_all_list_block f (ls : list (jsstring * jsstring))
    (out : jsstring) :
  ls <> [] -> Forall (valid_line is_mark) ls ->
  f (joined_lines (map list_line ls))
    [(1, joined_lines (map list_line ls))] = Ok out ->
  replace_all true (list_block_regex with_marker) f
    (joined_lines (map list_line ls)) = Ok out.
Proof.
  intros Hne Hv Hf. unfold replace_all.
  rewrite <- (app_nil_r (joined_lines (map list_line ls))).
  rewrite (pieces_hit true _ _ [] [] _
             (eq_ind_r (fun s => match_here true _ [] s = _)
                (list_block_match ls [] Hne Hv eq_refl)
                (app_nil_r _))).
  - cbn [caps]. rewrite pieces_miss_nil.
    + cbn [render]. rewrite Hf. cbn [bind]. now rewrite app_nil_r.
    + apply list_block_none_mid_line.
      now apply (at_bol_after_block ls [] [] [] Hne Hv).
  - reflexivity.
  - now apply joined_valid_nonempty.
Qed.

(** The expression of an item matches a line, up to the newline or the
    end of the text. *)
Lemma list_item_match (mk it b rest : jsstring) :
  valid_line is_mark (mk, it) ->
  at_bol true (MState b [] []) = true ->
  at_eol true (MState [] rest []) = true ->
  exists y,
    match_here true (list_item_regex with_marker) b
      (list_line (mk, it) ++ rest) = Some y
    /\ before y = rev (list_line (mk, it)) ++ b.
Proof.
  intros [Hmk Hit] Hbol Heol. cbn [fst snd] in Hmk, Hit.
  destruct (list_item_parts it Hit) as [Hi Hsp].
  destruct (trimStart_nonempty it Hsp) as [c0 [core [Ec H0]]].
  eexists. split.
  - unfold match_here, list_item_regex, list_line. cbn [fst snd].
    rewrite <- app_assoc. cbn [app].
    apply marker_and_space_read; try assumption.
    rewrite rmatch_seq, rmatch_group.
    apply plus_class_greedy_max.
    + rewrite Ec. discriminate.
    + apply forallb_suffix. now apply inert_all_dot.
    + intros c v E. subst rest. unfold at_eol in Heol. cbn [after] in Heol.
      cbn [andb] in Heol. unfold is_dot. now rewrite Heol.
    + rewrite rmatch_eol.
      change (at_eol true (set_cap 1 Forward _ (MState _ rest [])))
        with (at_eol true (MState [] rest [])).
      rewrite Heol. reflexivity.
  - unfold set_cap. cbn [before].
    rewrite line_decomposed, (rev_app_distr _ (trimStart it)).
    now rewrite <- app_assoc.
Qed.

Lemma list_item_none_mid_line (b a : jsstring) :
  at_bol true (MState b [] []) = false ->
  match_here true (list_item_regex with_marker) b a = None.
Proof.
  intros H. unfold match_here, list_item_regex.
  rewrite rmatch_seq, rmatch_bol.
  change (at_bol true (MState b a [])) with (at_bol true (MState b [] [])).
  now rewrite H.
Qed.

(** The items the function finds in a block are its lines. *)
Lemma list_item_hits :
  forall (ls : list (jsstring * jsstring)) (b : jsstring),
    ls <> [] -> Forall (valid_line is_mark) ls ->
    at_bol true (MState b [] []) = true ->
    hits (pieces true (list_item_regex with_marker) 0 b
            (joined_lines (map list_line ls)))
    = map list_line ls.
Proof.
  induction ls as [|[mk it] ls IH]; intros b Hne Hv Hbol; [contradiction|].
  inversion Hv as [|? ? Hl Hls]; subst. destruct ls as [|l2 ls].
  - cbn [map joined_lines].
    destruct (list_item_match mk it b [] Hl Hbol eq_refl) as [y [Hm Hb]].
    rewrite <- (app_nil_r (list_line (mk, it))) at 1.
    rewrite (pieces_hit _ _ _ _ _ _ Hm Hb)
      by (unfold list_line; cbn [fst]; destruct mk; discriminate).
    rewrite pieces_miss_nil; [reflexivity|].
    apply list_item_none_mid_line. now apply at_bol_after_valid_line.
  - cbn [map] in *. rewrite joined_cons.
    destruct (list_item_match mk it b
                (ch_nl :: joined_lines (list_line l2 :: map list_line ls))
                Hl Hbol eq_refl) as [y [Hm Hb]].
    rewrite (pieces_hit _ _ _ _ _ _ Hm Hb)
      by (unfold list_line; cbn [fst]; destruct mk; discriminate).
    rewrite pieces_miss_cons
      by (apply list_item_none_mid_line; now apply at_bol_after_valid_line).
    cbn [hits]. f_equal. apply IH; [discriminate | exact Hls | reflexivity].
Qed.

Lemma replace_first_from_hit (ml : bool) (r : regex)
    (repl b a : jsstring) (y : mstate) :
  match_here ml r b a = Some y ->
  replace_first_from ml r repl b a = repl ++ after y.
Proof. intros H. destruct a; cbn [replace_first_from]; now rewrite H. Qed.

(** Taking the marker off a line leaves the text of the item without
    the white space before it. *)
Lemma list_marker_removed (mk it : jsstring) :
  valid_line is_mark (mk, it) ->
  replace_first false (list_marker_regex with_marker) [] (list_line (mk, it))
  = trimStart it.
Proof.
  intros [Hmk Hit]. cbn [fst snd] in Hmk, Hit.
  destruct (list_item_parts it Hit) as [Hi Hsp].
  destruct (trimStart_nonempty it Hsp) as [c0 [core [Ec H0]]].
  destruct (mark_head mk Hmk) as [c [mk' [Emk Hc]]].
  unfold replace_first.
  rewrite (replace_first_from_hit false _ [] [] _
             (MState (rev (mk ++ ch_space :: leading_space it) ++ [])
                (trimStart it) [])); [reflexivity|].
  unfold match_here, list_marker_regex, list_line. cbn [fst snd].
  rewrite rmatch_seq, rmatch_bol. cbn [at_bol before]. rewrite rmatch_seq.
  apply (star_class_greedy_max false is_space [] _ _ _ [] []);
    [reflexivity | | ].
  { intros c' v E. rewrite Emk in E. inversion E. now subst. }
  cbn [rev app]. apply marker_reads; [exact Hmk|].
  replace (ch_space :: it)
    with ((ch_space :: leading_space it) ++ trimStart it)
    by (cbn [app]; now rewrite <- leading_space_trimStart).
  apply plus_class_greedy_max.
  - discriminate.
  - cbn [forallb]. now rewrite leading_space_all.
  - intros c' v E. rewrite Ec in E. inversion E. now subst.
  - rewrite rev_app_distr, !app_nil_r. reflexivity.
Qed.

Lemma trimStart_idempotent (s : jsstring) :
  trimStart (trimStart s) = trimStart s.
Proof.
  induction s as [|c s IH]; [reflexivity|]. cbn [trimStart].
  destruct (is_space c) eqn:E; [exact IH|]. cbn [trimStart]. now rewrite E.
Qed.

Lemma trim_trimStart (s : jsstring) : trim (trimStart s) = trim s.
Proof. unfold trim. now rewrite trimStart_idempotent. Qed.

Lemma list_items_folded :
  forall (ls : list (jsstring * jsstring)) (acc : jsstring),
    Forall (valid_line is_mark) ls ->
    fold_left
      (fun htmlList item =>
         htmlList ++ js "<li>"
           ++ trim (replace_first false (list_marker_regex with_marker) []
                      item)
           ++ js "</li>")
      (map list_line ls) acc
    = acc ++ flat_map li_html (map snd ls).
Proof.
  induction ls as [|[mk it] ls IH]; intros acc Hv; cbn [map fold_left flat_map].
  - now rewrite app_nil_r.
  - inversion Hv as [|? ? Hl Hls]; subst.
    rewrite IH by exact Hls. rewrite (list_marker_removed mk it Hl).
    rewrite trim_trimStart. cbn [snd]. unfold li_html.
    now rewrite <- !app_assoc.
Qed.

(** The function of a list pass on a block: one [li] per line, with
    the trimmed text of the item. *)
Lemma list_to_html_block (tag : jsstring) (ls : list (jsstring * jsstring)) :
  ls <> [] -> Forall (valid_line is_mark) ls ->
  list_to_html tag (list_item_regex with_marker)
    (list_marker_regex with_marker) (joined_lines (map list_line ls))
  = Ok (js "<" ++ tag ++ js ">" ++ flat_map li_html (map snd ls)
           ++ js "</" ++ tag ++ js ">").
Proof.
  intros Hne Hv. unfold list_to_html, match_all.
  rewrite list_item_hits by (assumption || reflexivity).
  destruct ls as [|l ls]; [contradiction|].
  remember (l :: ls) as ls0. cbn [map]. 
  destruct (map list_line ls0) as [|x xs] eqn:E;
    [subst ls0; discriminate E|].
  rewrite <- E. rewrite list_items_folded by exact Hv.
  now rewrite <- !app_assoc.
Qed.

(** A list pass on a text that is one block. *)
Lemma list_pass_block (tag : jsstring) (ls : list (jsstring * jsstring)) :
  ls <> [] -> Forall (valid_line is_mark) ls ->
  replace_all true (list_block_regex with_marker)
    (fun listBlock _ =>
       list_to_html tag (list_item_regex with_marker)
         (list_marker_regex with_marker) listBlock)
    (joined_lines (map list_line ls))
  = Ok (js "<" ++ tag ++ js ">" ++ flat_map li_html (map snd ls)
           ++ js "</" ++ tag ++ js ">").
Proof.
  intros Hne Hv. apply replace_all_list_block; try assumption.
  now apply list_to_html_block.
Qed.

End Lists.

(** ** The two list passes *)

Lemma bullet_marker_reads (ml : bool) (R : regex) (mk s b : jsstring) cs
    (k : cont) (z : mstate) :
  is_dash_mark mk ->
  rmatch ml R Forward (MState (rev mk ++ b) s cs) k = Some z ->
  rmatch ml (bullet_marker R) Forward (MState b (mk ++ s) cs) k = Some z.
Proof.
  intros E H. unfold is_dash_mark in E. subst mk. unfold bullet_marker.
  rewrite rmatch_seq. cbn [app]. rewrite rmatch_class. exact H.
Qed.

Lemma dash_mark_head (mk : jsstring) :
  is_dash_mark mk -> exists c mk', mk = c :: mk' /\ is_space c = false.
Proof. intros E. exists ch_dash, []. now split. Qed.

Lemma digit_range (c : jschar) :
  is_digit c = true -> (48 <= c <= 57)%N.
Proof.
  unfold is_digit. intros H. apply andb_prop in H. destruct H as [H1 H2].
  apply N.leb_le in H1, H2. lia.
Qed.

Lemma digit_not_space (c : jschar) : is_digit c = true -> is_space c = false.
Proof.
  intros H. apply digit_range in H.
  unfold is_space, is_white_space, is_line_terminator.
  repeat match goal with
         | |- context [N.eqb c ?a] =>
             destruct (N.eqb_spec c a) as [E|_]; [subst; lia|]
         end.
  destruct (N.leb_spec 0x2000 c) as [E|_]; [lia|]. reflexivity.
Qed.

Lemma digit_item_char (c : jschar) : is_digit c = true -> item_char c = true.
Proof.
  intros H. apply digit_range in H.
  unfold item_char, inert, is_line_terminator, ch_tick, ch_star, ch_pipe.
  repeat match goal with
         | |- context [N.eqb c ?a] =>
             destruct (N.eqb_spec c a) as [E|_]; [subst; lia|]
         end.
  reflexivity.
Qed.

Lemma digit_not_bullet (c : jschar) : is_digit c = true -> is_bullet c = false.
Proof.
  intros H. apply digit_range in H. unfold is_bullet, ch_dash, ch_star.
  repeat match goal with
         | |- context [N.eqb c ?a] =>
             destruct (N.eqb_spec c a) as [E|_]; [subst; lia|]
         end.
  reflexivity.
Qed.

Lemma numeral_parts (n : jsstring) :
  numeral n = true -> n <> [] /\ forallb is_digit n = true.
Proof. destruct n; [discriminate|]. intros H. split; [discriminate|exact H]. Qed.

Lemma number_marker_reads (ml : bool) (R : regex) (mk s b : jsstring) cs
    (k : cont) (z : mstate) :
  is_number_mark mk ->
  rmatch ml R Forward (MState (rev mk ++ b) s cs) k = Some z ->
  rmatch ml (number_marker R) Forward (MState b (mk ++ s) cs) k = Some z.
Proof.
  intros [n [Hn E]] H. subst mk. apply numeral_parts in Hn.
  destruct Hn as [Hne Hd]. unfold number_marker.
  rewrite rmatch_seq, <- app_assoc. cbn [app].
  apply plus_class_greedy_max; [exact Hne | exact Hd | |].
  - intros c v Ec. inversion Ec. reflexivity.
  - rewrite rmatch_seq, rmatch_chr, N.eqb_refl.
    rewrite rev_app_distr in H. exact H.
Qed.

Lemma number_mark_head (mk : jsstring) :
  is_number_mark mk -> exists c mk', mk = c :: mk' /\ is_space c = false.
Proof.
  intros [n [Hn E]]. subst mk. destruct n as [|c n]; [discriminate|].
  exists c, (n ++ [ch_dot]). split; [reflexivity|].
  apply digit_not_space. cbn [numeral forallb] in Hn.
  apply andb_prop in Hn. apply Hn.
Qed.

(** The passes after the list passes, on a line of markup. *)
Lemma last_passes_html_line (s : jsstring) :
  forallb inert (ch_lt :: s) = true ->
  (x <- pass_paragraphs (ch_lt :: s) ;; pass_line_breaks x)
  = Ok (ch_lt :: s).
Proof.
  intros H.
  rewrite pass_paragraphs_no_newline by now apply inert_no_newline.
  cbn [bind].
  now rewrite pass_line_breaks_spec, with_breaks_no_newline
    by now apply inert_no_newline.
Qed.

Lemma forallb_rev (p : jschar -> bool) (s : jsstring) :
  forallb p (rev s) = forallb p s.
Proof.
  induction s as [|c s IH]; [reflexivity|]. cbn [rev forallb].
  rewrite forallb_app, IH. cbn [forallb]. rewrite andb_true_r.
  apply andb_comm.
Qed.

Lemma forallb_trim (p : jschar -> bool) (s : jsstring) :
  forallb p s = true -> forallb p (trim s) = true.
Proof.
  intros H. unfold trim. rewrite forallb_rev. apply forallb_suffix.
  rewrite forallb_rev. now apply forallb_suffix.
Qed.

Lemma li_items_inert (items : list jsstring) :
  forallb list_item items = true ->
  forallb inert (flat_map li_html items) = true.
Proof.
  induction items as [|it items IH]; [reflexivity|].
  cbn [forallb flat_map]. intros H. apply andb_prop in H.
  destruct H as [Hit Hs]. rewrite forallb_app, IH by exact Hs.
  rewrite andb_true_r. unfold li_html. rewrite !forallb_app.
  destruct (list_item_parts it Hit) as [Hi _].
  now rewrite (forallb_trim inert it Hi).
Qed.

Lemma item_char_text_char (c : jschar) :
  item_char c = true -> text_char c = true.
Proof.
  unfold item_char, inert, text_char. intros H.
  apply andb_prop in H. destruct H as [H Hp].
  apply andb_prop in H. destruct H as [H _].
  apply andb_prop in H. destruct H as [Ht Hs].
  now rewrite Hp, Ht, Hs.
Qed.

Lemma list_item_text_chars (it : jsstring) :
  list_item it = true -> forallb text_char it = true.
Proof.
  unfold list_item. intros H. apply andb_prop in H. destruct H as [H _].
  eapply forallb_weaken; [|exact H]. exact item_char_text_char.
Qed.

Lemma joined_lines_forallb (p : jschar -> bool) (ls : list jsstring) :
  p ch_nl = true -> Forall (fun l => forallb p l = true) ls ->
  forallb p (joined_lines ls) = true.
Proof.
  intros Hnl. induction 1 as [|l ls Hl Hls IH]; [reflexivity|].
  destruct ls as [|l2 ls]; [exact Hl|].
  rewrite joined_cons, forallb_app. cbn [forallb].
  apply andb_true_intro. split; [exact Hl|].
  apply andb_true_intro. split; [exact Hnl | exact IH].
Qed.

Lemma text_char_no_markers (s : jsstring) :
  forallb text_char s = true ->
  has_char ch_pipe s = false /\ has_char ch_tick s = false
  /\ has_char ch_star s = false.
Proof.
  intros H. repeat split; apply (forallb_no_char text_char); auto.
Qed.

(** The five passes before the list passes keep such a text. *)
Lemma first_passes_text_chars (s : jsstring) :
  forallb text_char s = true ->
  rewrite_passes s
  = (x <- pass_lists s ;;
     x <- pass_ordered_lists x ;;
     x <- pass_paragraphs x ;;
     pass_line_breaks x).
Proof.
  intros H. apply text_char_no_markers in H. destruct H as [H1 [H2 H3]].
  unfold rewrite_passes.
  rewrite pass_tables_no_pipe by assumption. cbn [bind].
  rewrite pass_code_blocks_no_tick by assumption. cbn [bind].
  rewrite pass_inline_code_no_tick by assumption. cbn [bind].
  rewrite pass_bold_no_star by assumption. cbn [bind].
  now rewrite pass_italic_no_star by assumption.
Qed.

(** *** Bullet lists *)

Lemma dash_lines_valid (items : list jsstring) :
  forallb list_item items = true ->
  Forall (valid_line is_dash_mark) (map (fun it => ([ch_dash], it)) items).
Proof.
  induction items as [|it items IH]; cbn [forallb map]; [constructor|].
  intros H. apply andb_prop in H. destruct H as [Hit Hs].
  constructor; [|now apply IH]. split; [reflexivity | exact Hit].
Qed.

Lemma dash_lines_text_chars (items : list jsstring) :
  forallb list_item items = true ->
  Forall (fun l => forallb text_char l = true)
    (map (fun it => js "- " ++ it) items).
Proof.
  induction items as [|it items IH]; cbn [forallb map]; [constructor|].
  intros H. apply andb_prop in H. destruct H as [Hit Hs].
  constructor; [|now apply IH].
  rewrite forallb_app. now rewrite (list_item_text_chars it Hit).
Qed.

(** X13. A text whose lines are all bullet items, a dash and a blank
    before each text, becomes one [ul] element with one [li] per line,
    holding the text of the item without the white space around it. *)
Theorem formatMessage_bullet_list (items : list jsstring) :
  items <> [] -> forallb list_item items = true ->
  formatMessage (Some (joined_lines (map (fun it => js "- " ++ it) items)))
  = Ok (js "<ul>" ++ flat_map li_html items ++ js "</ul>").
Proof.
  intros Hne Hitems.
  pose proof (dash_lines_valid items Hitems) as Hv.
  assert (Hne' : map (fun it => ([ch_dash], it)) items <> [])
    by (destruct items; [contradiction | discriminate]).
  assert (Es : joined_lines (map (fun it => js "- " ++ it) items)
               = joined_lines
                   (map list_line (map (fun it => ([ch_dash], it)) items)))
    by (now rewrite map_map).
  rewrite formatMessage_bind
    by (rewrite Es; now apply joined_valid_nonempty).
  rewrite first_passes_text_chars
    by (apply joined_lines_forallb;
        [reflexivity | now apply dash_lines_text_chars]).
  rewrite Es. unfold pass_lists.
  change listRegex with (list_block_regex bullet_marker).
  change listItemRegex with (list_item_regex bullet_marker).
  change listMarkerRegex with (list_marker_regex bullet_marker).
  rewrite (list_pass_block bullet_marker is_dash_mark
             bullet_marker_reads dash_mark_head (js "ul") _ Hne' Hv).
  cbn [bind]. rewrite map_map. cbn [snd]. rewrite map_id.
  assert (Hi : forallb inert
                 (js "<ul>" ++ flat_map li_html items ++ js "</ul>") = true)
    by (rewrite !forallb_app, li_items_inert by exact Hitems; reflexivity).
  change (js "<" ++ js "ul" ++ js ">" ++ flat_map li_html items
             ++ js "</" ++ js "ul" ++ js ">")
    with (ch_lt :: js "ul>" ++ flat_map li_html items ++ js "</ul>") in *.
  change (js "<ul>" ++ flat_map li_html items ++ js "</ul>")
    with (ch_lt :: js "ul>" ++ flat_map li_html items ++ js "</ul>") in *.
  rewrite pass_ordered_lists_one_line by now apply inert_all_dot.
  cbn [bind]. rewrite last_passes_html_line by exact Hi. reflexivity.
Qed.

Lemma formatMessage_bullet_list_witness :
  formatMessage
    (Some (js "- milk" ++ [ch_nl] ++ js "-   two eggs " ++ [ch_nl]
              ++ js "- salt"))
  = Ok (js "<ul><li>milk</li><li>two eggs</li><li>salt</li></ul>").
Proof.
  apply (formatMessage_bullet_list
           [js "milk"; js "  two eggs "; js "salt"]);
    [discriminate | reflexivity].
Defined.

(** *** Numbered lists *)

Lemma line_prefix_free_to_newline (P : jsstring -> bool) (J : jsstring) :
  forall l,
    forallb is_dot l = true ->
    line_prefix_free P false (l ++ ch_nl :: J) = line_prefix_free P true J.
Proof.
  induction l as [|c l IH]; intros H; cbn [app line_prefix_free].
  - reflexivity.
  - cbn [forallb] in H. apply andb_prop in H. destruct H as [Hc Hl].
    unfold is_dot in Hc. apply negb_true_iff in Hc. rewrite Hc.
    cbn [andb orb]. now apply IH.
Qed.

(** Lines that begin with a character that starts no prefix [P] and is
    no white space are free of [P]. *)
Lemma line_prefix_free_lines (P : jsstring -> bool)
    (lines : list jsstring) :
  P [] = false ->
  Forall (fun l => exists c l',
                     l = c :: l' /\ is_space c = false
                     /\ (forall rest, P (c :: rest) = false)
                     /\ forallb is_dot l = true) lines ->
  line_prefix_free P true (joined_lines lines) = true.
Proof.
  intros H0. induction 1 as [|l ls Hl Hls IH].
  - cbn [joined_lines line_prefix_free]. now rewrite H0.
  - destruct Hl as [c [l' [E [Hc [HP Hd]]]]]. subst l.
    cbn [forallb] in Hd. apply andb_prop in Hd. destruct Hd as [Hdc Hd].
    unfold is_dot in Hdc. apply negb_true_iff in Hdc.
    destruct ls as [|l2 ls].
    + cbn [joined_lines line_prefix_free]. rewrite HP, Hdc, Hc.
      cbn [negb andb orb]. now apply line_prefix_free_mid_line.
    + rewrite joined_cons. cbn [app line_prefix_free].
      rewrite HP, Hdc, Hc. cbn [negb andb orb].
      rewrite line_prefix_free_to_newline by exact Hd. exact IH.
Qed.

Lemma bullet_prefix_needs_bullet (c : jschar) (rest : jsstring) :
  is_bullet c = false -> bullet_prefix (c :: rest) = false.
Proof. intros H. destruct rest; cbn [bullet_prefix]; now rewrite ?H. Qed.

Lemma digits_text_chars (n : jsstring) :
  forallb is_digit n = true -> forallb text_char n = true.
Proof.
  apply forallb_weaken. intros c H. apply item_char_text_char.
  now apply digit_item_char.
Qed.

Lemma digits_dot (n : jsstring) :
  forallb is_digit n = true -> forallb is_dot n = true.
Proof.
  apply forallb_weaken. intros c H. apply inert_is_dot, item_char_inert.
  now apply digit_item_char.
Qed.

Lemma number_line_parts (l : jsstring * jsstring) :
  numeral (fst l) && list_item (snd l) = true ->
  numeral (fst l) = true /\ list_item (snd l) = true.
Proof. intros H. now apply andb_prop in H. Qed.

Lemma number_lines_valid (items : list (jsstring * jsstring)) :
  forallb (fun l => numeral (fst l) && list_item (snd l)) items = true ->
  Forall (valid_line is_number_mark)
    (map (fun l => (fst l ++ [ch_dot], snd l)) items).
Proof.
  induction items as [|l items IH]; cbn [forallb map]; [constructor|].
  intros H. apply andb_prop in H. destruct H as [Hl Hs].
  apply number_line_parts in Hl. destruct Hl as [Hn Hit].
  constructor; [|now apply IH]. split; [|exact Hit].
  cbn [fst]. now exists (fst l).
Qed.

Lemma number_lines_text_chars (items : list (jsstring * jsstring)) :
  forallb (fun l => numeral (fst l) && list_item (snd l)) items = true ->
  Forall (fun l => forallb text_char l = true)
    (map (fun l => fst l ++ js ". " ++ snd l) items).
Proof.
  induction items as [|l items IH]; cbn [forallb map]; [constructor|].
  intros H. apply andb_prop in H. destruct H as [Hl Hs].
  apply number_line_parts in Hl. destruct Hl as [Hn Hit].
  constructor; [|now apply IH].
  apply numeral_parts in Hn. destruct Hn as [_ Hd].
  rewrite !forallb_app. repeat (apply andb_true_intro; split);
    first [ reflexivity | now apply digits_text_chars
          | now apply list_item_text_chars ].
Qed.

Lemma number_lines_no_bullet (items : list (jsstring * jsstring)) :
  forallb (fun l => numeral (fst l) && list_item (snd l)) items = true ->
  Forall (fun l => exists c l',
                     l = c :: l' /\ is_space c = false
                     /\ (forall rest, bullet_prefix (c :: rest) = false)
                     /\ forallb is_dot l = true)
    (map (fun l => fst l ++ js ". " ++ snd l) items).
Proof.
  induction items as [|[n0 it] items IH]; cbn [forallb map]; [constructor|].
  intros H. apply andb_prop in H. destruct H as [Hl Hs].
  apply number_line_parts in Hl. cbn [fst snd] in *.
  destruct Hl as [Hn Hit].
  constructor; [|now apply IH].
  destruct n0 as [|c n]; [discriminate|].
  cbn [numeral forallb] in Hn. pose proof Hn as Hd.
  apply andb_prop in Hn. destruct Hn as [Hc Hn].
  exists c, (n ++ js ". " ++ it). repeat split.
  - now apply digit_not_space.
  - intros rest. apply bullet_prefix_needs_bullet.
    now apply digit_not_bullet.
  - change (c :: n ++ js ". " ++ it) with ((c :: n) ++ js ". " ++ it).
    destruct (list_item_parts _ Hit) as [Hi _].
    rewrite !forallb_app, (digits_dot (c :: n) Hd), (inert_all_dot it Hi).
    reflexivity.
Qed.

(** X14. A text whose lines are all numbered items, digits, a dot and a
    blank before each text, becomes one [ol] element with one [li] per
    line.  The numbers written are not kept. *)
Theorem formatMessage_numbered_list (items : list (jsstring * jsstring)) :
  items <> [] ->
  forallb (fun l => numeral (fst l) && list_item (snd l)) items = true ->
  formatMessage
    (Some (joined_lines (map (fun l => fst l ++ js ". " ++ snd l) items)))
  = Ok (js "<ol>" ++ flat_map li_html (map snd items) ++ js "</ol>").
Proof.
  intros Hne Hitems.
  pose proof (number_lines_valid items Hitems) as Hv.
  assert (Hne' : map (fun l : jsstring * jsstring =>
                        (fst l ++ [ch_dot], snd l)) items <> [])
    by (destruct items; [contradiction | discriminate]).
  assert (Es : joined_lines (map (fun l => fst l ++ js ". " ++ snd l) items)
               = joined_lines
                   (map list_line
                      (map (fun l => (fst l ++ [ch_dot], snd l)) items))).
  { rewrite map_map. f_equal. apply map_ext. intros l.
    unfold list_line. cbn [fst snd]. now rewrite <- app_assoc. }
  assert (Hitems_snd : forallb list_item (map snd items) = true).
  { clear -Hitems. induction items as [|l items IH]; [reflexivity|].
    cbn [forallb map] in *. apply andb_prop in Hitems.
    destruct Hitems as [Hl Hs]. apply number_line_parts in Hl.
    destruct Hl as [_ Hit]. now rewrite Hit, IH. }
  rewrite formatMessage_bind
    by (rewrite Es; now apply joined_valid_nonempty).
  rewrite first_passes_text_chars
    by (apply joined_lines_forallb;
        [reflexivity | now apply number_lines_text_chars]).
  rewrite pass_lists_no_bullet
    by (apply line_prefix_free_lines;
        [reflexivity | now apply number_lines_no_bullet]).
  cbn [bind]. rewrite Es. unfold pass_ordered_lists.
  change orderedListRegex with (list_block_regex number_marker).
  change orderedItemRegex with (list_item_regex number_marker).
  change orderedMarkerRegex with (list_marker_regex number_marker).
  pose proof (list_pass_block number_marker is_number_mark
                number_marker_reads number_mark_head (js "ol") _ Hne' Hv)
    as E.
  unfold jsstring in E |- *. rewrite E. clear E.
  cbn [bind].
  assert (Em : map snd (map (fun l : list jschar * list jschar =>
                               (fst l ++ [ch_dot], snd l)) items)
               = map snd items)
    by (rewrite map_map; now apply map_ext).
  rewrite Em. clear Em.
  assert (Hi : forallb inert
                 (js "<ol>" ++ flat_map li_html (map snd items) ++ js "</ol>")
               = true)
    by (rewrite !forallb_app, li_items_inert by exact Hitems_snd;
        reflexivity).
  change (js "<" ++ js "ol" ++ js ">" ++ flat_map li_html (map snd items)
             ++ js "</" ++ js "ol" ++ js ">")
    with (ch_lt :: js "ol>" ++ flat_map li_html (map snd items)
                ++ js "</ol>") in *.
  change (js "<ol>" ++ flat_map li_html (map snd items) ++ js "</ol>")
    with (ch_lt :: js "ol>" ++ flat_map li_html (map snd items)
                ++ js "</ol>") in *.
  rewrite last_passes_html_line by exact Hi. reflexivity.
Qed.

Lemma formatMessage_numbered_list_witness :
  formatMessage
    (Some (js "1. boil water" ++ [ch_nl] ++ js "7. add tea" ++ [ch_nl]
              ++ js "12. wait"))
  = Ok (js "<ol><li>boil water</li><li>add tea</li><li>wait</li></ol>").
Proof.
  apply (formatMessage_numbered_list
           [(js "1", js "boil water"); (js "7", js "add tea");
            (js "12", js "wait")]);
    [discriminate | reflexivity].
Defined.

(** ** The paragraph pass on any text *)











(** ** Texts in which no table begins *)







(** ** Line prefixes in parts of a text *)




Section LineParts.

Variable P : jsstring -> bool.
Hypothesis P_nil : P [] = false.







End LineParts.

(** ** Bold text in a fenced block *)


Lemma with_breaks_line (l : jsstring) :
  forallb is_dot l = true -> with_breaks l = l.
Proof.
  intros H. apply with_breaks_no_newline.
  now apply (forallb_no_char is_dot).
Qed.




(** *** What the conditions keep out

    Outside the conditions the marked text is not always found in a
    [strong] element between the [pre]/[code] tags. *)

(** The dot of the bold expression reads no line terminator: text
    marked across two lines is not made bold. *)
Lemma bold_not_across_lines :
  formatMessage (Some (js "```**a" ++ [ch_nl] ++ js "b**```"))
  = Ok (js "<pre><code><em></em>a<br>b<em></em></code></pre>").
Proof. vm_compute. reflexivity. Qed.

(** The table pass comes first and drops the row under the header: text
    marked in that row is lost. *)
Lemma bold_lost_in_separator_row :
  formatMessage
    (Some (js "```" ++ [ch_nl] ++ js "|a|" ++ [ch_nl] ++ js "|-|**x**|"
              ++ [ch_nl] ++ js "```"))
  = Ok (js "<pre><code><br>" ++ table_open
           ++ js "<thead><tr><th>a</th><th></th></tr></thead>"
           ++ js "<tbody></tbody></table></code></pre>").
Proof. vm_compute. reflexivity. Qed.

(** A list item in the last line of the block takes the closing tags
    of the block with it. *)
Lemma block_end_in_list_item :
  formatMessage (Some (js "```" ++ [ch_nl] ++ js "- **x**```"))
  = Ok (js "<pre><code><br><ul><li><strong>x</strong></code></pre></li></ul>").
Proof. vm_compute. reflexivity. Qed.

